(** * AutoResSwitcher: a shallow embedding of [main.py]

    The development models the three subsystems of the program that its
    specification is about: the display-mode control protocol
    ([set_resolution]), the profile store with its load, merge and edit
    operations, the discovery helpers ([_looks_like_exe_path],
    [_pick_exe_in_folder], [discover_from_uninstall_entries]) and the
    polling loop ([_find_active_game], [_apply_game_resolution_if_needed],
    [_watch_loop]).  Beside them it models the version comparison, the
    reading of the process list and of the registry, the scanners of the
    Riot folder and of the custom paths with the merge of all scanners,
    and the form with its dropdown, manual additions, the resolution test
    and the shutdown.

    Python dictionaries whose iteration order the code relies on (the
    [games] mapping) are association lists in insertion order; the
    per-game dictionaries are finite maps from field names to JSON
    values; the set of running processes is a finite set of strings.
    Native calls, the file system and the registry are oracles, and every
    native call is recorded in a trace. *)

From Stdlib Require Import ZArith String Ascii List Lia DecimalString.
From stdpp Require Import gmap strings list.
Import ListNotations.

Local Open Scope string_scope.
Local Open Scope list_scope.
Local Open Scope Z_scope.

(** ** Python string primitives (ASCII fragment)

    Strings are sequences of bytes.  [lower] and [strip] act on the ASCII
    letters and the ASCII white space only, which is what Python does on
    ASCII text. *)

Module Py.

Definition lower_ascii (c : ascii) : ascii :=
  let n := nat_of_ascii c in
  if ((65 <=? n)%nat && (n <=? 90)%nat)%bool then ascii_of_nat (n + 32) else c.

Fixpoint lower (s : string) : string :=
  match s with
  | EmptyString => EmptyString
  | String c r => String (lower_ascii c) (lower r)
  end.

(** [s[n:]] *)
Fixpoint drop (n : nat) (s : string) : string :=
  match n, s with
  | O, _ => s
  | S _, EmptyString => EmptyString
  | S k, String _ r => drop k r
  end.

(** [s[:n]] *)
Fixpoint take (n : nat) (s : string) : string :=
  match n, s with
  | O, _ => EmptyString
  | S _, EmptyString => EmptyString
  | S k, String c r => String c (take k r)
  end.

Fixpoint startswith (s p : string) : bool :=
  match p, s with
  | EmptyString, _ => true
  | String _ _, EmptyString => false
  | String a p', String b s' => if Ascii.eqb a b then startswith s' p' else false
  end.

Definition endswith (s suf : string) : bool :=
  let n := String.length s in
  let m := String.length suf in
  if (m <=? n)%nat then String.eqb (drop (n - m) s) suf else false.

(** [k in s] for strings: some suffix of [s] starts with [k]. *)
Fixpoint contains (s k : string) : bool :=
  if startswith s k then true
  else match s with
       | EmptyString => false
       | String _ r => contains r k
       end.

(** [s.rfind(k)]: the highest index at which [k] occurs, if any. *)
Fixpoint rfind_from (i : nat) (s k : string) : option nat :=
  match s with
  | EmptyString => if startswith s k then Some i else None
  | String _ r =>
      match rfind_from (S i) r k with
      | Some j => Some j
      | None => if startswith s k then Some i else None
      end
  end.

Definition rfind (s k : string) : option nat := rfind_from 0 s k.

(** [s.count(c)] for a one-character needle. *)
Fixpoint count (c : ascii) (s : string) : nat :=
  match s with
  | EmptyString => O
  | String a r => if Ascii.eqb a c then S (count c r) else count c r
  end.

Fixpoint rev_acc (s acc : string) : string :=
  match s with
  | EmptyString => acc
  | String c r => rev_acc r (String c acc)
  end.

Definition rev (s : string) : string := rev_acc s EmptyString.

Fixpoint lstrip_by (p : ascii -> bool) (s : string) : string :=
  match s with
  | EmptyString => EmptyString
  | String c r => if p c then lstrip_by p r else s
  end.

Definition strip_by (p : ascii -> bool) (s : string) : string :=
  rev (lstrip_by p (rev (lstrip_by p s))).

(** The ASCII characters for which [str.isspace] holds. *)
Definition is_space (c : ascii) : bool :=
  let n := nat_of_ascii c in
  (((9 <=? n)%nat && (n <=? 13)%nat) || ((28 <=? n)%nat && (n <=? 32)%nat))%bool.

(** [s.strip()] *)
Definition strip (s : string) : string := strip_by is_space s.

(** [s.strip(c)] for a one-character set. *)
Definition strip_char (c : ascii) (s : string) : string :=
  strip_by (Ascii.eqb c) s.

(** [s[-1]], when there is one *)
Fixpoint last_char (s : string) : option ascii :=
  match s with
  | EmptyString => None
  | String c EmptyString => Some c
  | String _ r => last_char r
  end.

Definition is_digit (c : ascii) : bool :=
  let n := nat_of_ascii c in ((48 <=? n)%nat && (n <=? 57)%nat)%bool.

Definition digit_val (c : ascii) : Z := Z.of_nat (nat_of_ascii c) - 48.

(** The digits of an [int] literal: decimal digits, single underscores
    allowed between two digits.  [prev] tells whether the previous
    character was a digit. *)
Fixpoint int_digits (s : string) (prev : bool) (acc : Z) : option Z :=
  match s with
  | EmptyString => if prev then Some acc else None
  | String c r =>
      if is_digit c then int_digits r true (10 * acc + digit_val c)
      else if (Ascii.eqb c "_" && prev)%bool then
             match r with
             | String d _ => if is_digit d then int_digits r false acc else None
             | EmptyString => None
             end
           else None
  end.

(** The characters [int] skips around a literal in ASCII text: tab, line
    feed, vertical tab, form feed, carriage return and the space.  The
    separators 28 to 31, which [str.strip] removes, are not among them. *)
Definition is_int_space (c : ascii) : bool :=
  let n := nat_of_ascii c in
  (((9 <=? n)%nat && (n <=? 13)%nat) || (n =? 32)%nat)%bool.

(** [int(s)] for a string: the white space above around the literal is
    ignored, one sign is allowed; [None] stands for the [ValueError]. *)
Definition int_of_str (s : string) : option Z :=
  match strip_by is_int_space s with
  | String "-" r => option_map Z.opp (int_digits r false 0)
  | String "+" r => int_digits r false 0
  | t => int_digits t false 0
  end.

(** The text of the [ValueError] that [int] raises on a string (the
    string is shown as [repr] shows a string without quotes, backslashes
    or control characters). *)
Definition int_literal_error (s : string) : string :=
  "invalid literal for int() with base 10: '" +:+ s +:+ "'".

(** [str(n)] for an integer. *)
Definition str_of_int (n : Z) : string :=
  DecimalString.NilZero.string_of_int (Z.to_int n).

(** Exceptions, and results of code that may raise. *)
Inductive exn :=
| OSError (msg : string)
| ValueError (msg : string)
| TypeError.

Inductive outcome (A : Type) :=
| Ok (a : A)
| Raised (e : exn).
Arguments Ok {A} a.
Arguments Raised {A} e.

End Py.

(** ** Windows paths (the [ntpath] functions the program uses)

    Drive letters are recognised; UNC prefixes are not modelled. *)

Module Path.

Definition sep : ascii := "\"%char.

Definition is_sep (c : ascii) : bool := (Ascii.eqb c "\" || Ascii.eqb c "/")%bool.

(** [os.path.splitdrive] for a drive-letter prefix. *)
Definition splitdrive (p : string) : string * string :=
  match p with
  | String d (String ":" r) => (String d (String ":" EmptyString), r)
  | _ => (EmptyString, p)
  end.

(** [os.path.join(a, b)] for a relative [b] without a drive: a separator
    is inserted unless the path part of [a] is empty or already ends in
    one. *)
Definition join (a b : string) : string :=
  match Py.last_char (snd (splitdrive a)) with
  | None => a +:+ b
  | Some c => if is_sep c then a +:+ b else a +:+ String sep b
  end.

(** The part after the last separator. *)
Fixpoint tail_after_sep (s cur : string) : string :=
  match s with
  | EmptyString => Py.rev cur
  | String c r =>
      if is_sep c then tail_after_sep r EmptyString
      else tail_after_sep r (String c cur)
  end.

(** [os.path.basename] *)
Definition basename (p : string) : string :=
  tail_after_sep (snd (splitdrive p)) EmptyString.

End Path.

(** ** The native display API and [set_resolution] *)

Module Display.
Import Py.

Definition ENUM_CURRENT_SETTINGS : Z := -1.
Definition CDS_UPDATEREGISTRY : Z := 0x01.
Definition CDS_TEST : Z := 0x02.
Definition DISP_CHANGE_SUCCESSFUL : Z := 0.
Definition DM_PELSWIDTH : Z := 0x80000.
Definition DM_PELSHEIGHT : Z := 0x100000.
Definition DM_DISPLAYFREQUENCY : Z := 0x400000.

(** The fields of [DEVMODEW] that [set_resolution] writes; the others are
    passed on as the query returned them. *)
Record DEVMODEW := mkDEVMODEW {
  dmFields : Z;
  dmPelsWidth : Z;
  dmPelsHeight : Z;
  dmDisplayFrequency : Z
}.

(** A store into a [c_uint] field keeps the low 32 bits. *)
Definition c_uint (v : Z) : Z := v mod 2 ^ 32.

(** What the program does to the outside, in the order it does it.
    [SetResolution] marks the entry of a [set_resolution] call; the other
    two are the calls into [user32]. *)
Inductive event :=
| SetResolution (width height : Z) (refresh_hz : option Z)
| EnumDisplaySettingsW
| ChangeDisplaySettingsW (dm : DEVMODEW) (flags : Z).

(** The operating system: what a native call answers, given everything
    that happened before it.  [enum_display] answers [None] when
    [EnumDisplaySettingsW] returns 0. *)
Record native := mkNative {
  enum_display : list event -> option DEVMODEW;
  change_display : list event -> DEVMODEW -> Z -> Z
}.

(** Computations that call the native API: they read the trace so far
    (oldest event first), extend it, and return or raise. *)
Definition M (A : Type) : Type := native -> list event -> outcome A * list event.

Definition ret {A} (a : A) : M A := fun _ tr => (Ok a, tr).

Definition bind {A B} (m : M A) (k : A -> M B) : M B :=
  fun os tr =>
    match m os tr with
    | (Ok a, tr') => k a os tr'
    | (Raised e, tr') => (Raised e, tr')
    end.

Definition raise {A} (e : exn) : M A := fun _ tr => (Raised e, tr).

Definition emit (ev : event) : M unit := fun _ tr => (Ok tt, (tr ++ [ev])%list).

Definition call_enum : M (option DEVMODEW) :=
  fun os tr => (Ok (enum_display os tr), (tr ++ [EnumDisplaySettingsW])%list).

Definition call_change (dm : DEVMODEW) (flags : Z) : M Z :=
  fun os tr => (Ok (change_display os tr dm flags), (tr ++ [ChangeDisplaySettingsW dm flags])%list).

#[global] Instance M_ret : MRet M := @ret.
#[global] Instance M_bind : MBind M := fun A B k m => bind m k.

Definition get_current_display_mode : M DEVMODEW :=
  r ← call_enum;
  match r with
  | Some dm => ret dm
  | None => raise (OSError "EnumDisplaySettingsW failed")
  end.

Definition msg_test (code : Z) : string :=
  "Windows konnte die Auflösung nicht testen (Code " +:+ Py.str_of_int code +:+ ").".

Definition msg_apply (code : Z) : string :=
  "Windows konnte die Auflösung nicht setzen (Code " +:+ Py.str_of_int code +:+ ").".

(** The mode that is requested: width and height always, the refresh rate
    only when a positive one is given. *)
Definition requested_mode (dm : DEVMODEW) (width height : Z) (refresh_hz : option Z)
  : DEVMODEW :=
  let dm1 := {| dmFields := Z.lor DM_PELSWIDTH DM_PELSHEIGHT;
                dmPelsWidth := c_uint width;
                dmPelsHeight := c_uint height;
                dmDisplayFrequency := dmDisplayFrequency dm |} in
  match refresh_hz with
  | Some r =>
      if 0 <? r then
        {| dmFields := Z.lor (dmFields dm1) DM_DISPLAYFREQUENCY;
           dmPelsWidth := dmPelsWidth dm1;
           dmPelsHeight := dmPelsHeight dm1;
           dmDisplayFrequency := c_uint r |}
      else dm1
  | None => dm1
  end.

Definition set_resolution (width height : Z) (refresh_hz : option Z)
  : M (bool * string) :=
  emit (SetResolution width height refresh_hz);;
  dm0 ← get_current_display_mode;
  let dm := requested_mode dm0 width height refresh_hz in
  res_test ← call_change dm CDS_TEST;
  if negb (res_test =? DISP_CHANGE_SUCCESSFUL) then
    ret (false, msg_test res_test)
  else
    res_apply ← call_change dm CDS_UPDATEREGISTRY;
    if negb (res_apply =? DISP_CHANGE_SUCCESSFUL) then
      ret (false, msg_apply res_apply)
    else ret (true, "OK").

(** The [set_resolution] calls of a trace, in order. *)
Fixpoint apply_calls (tr : list event) : list (Z * Z * option Z) :=
  match tr with
  | [] => []
  | SetResolution w h r :: rest => (w, h, r) :: apply_calls rest
  | _ :: rest => apply_calls rest
  end.

(** Whether a trace holds an apply-and-persist call. *)
Definition is_persist_call (ev : event) : bool :=
  match ev with
  | ChangeDisplaySettingsW _ flags => flags =? CDS_UPDATEREGISTRY
  | _ => false
  end.

End Display.

(** ** The configuration document *)

Module Config.
Import Py.

(** JSON values as they occur in a game's entry: [null], booleans,
    integers and strings (numbers with a fraction, arrays and nested
    objects are not modelled). *)
Inductive jval :=
| JNull
| JBool (b : bool)
| JInt (n : Z)
| JStr (s : string).

(** Python's truth value of a JSON value. *)
Definition truthy (v : jval) : bool :=
  match v with
  | JNull => false
  | JBool b => b
  | JInt n => negb (n =? 0)
  | JStr s => negb (String.eqb s "")
  end.

(** The truth value of [d.get(k)]: a missing key gives [None]. *)
Definition truthy_get (o : option jval) : bool :=
  match o with
  | None => false
  | Some v => truthy v
  end.

(** [str(v)] *)
Definition py_str (v : jval) : string :=
  match v with
  | JNull => "None"
  | JBool true => "True"
  | JBool false => "False"
  | JInt n => str_of_int n
  | JStr s => s
  end.

(** [int(v)] *)
Definition py_int (v : jval) : outcome Z :=
  match v with
  | JNull => Raised TypeError
  | JBool b => Ok (if b then 1 else 0)
  | JInt n => Ok n
  | JStr s =>
      match int_of_str s with
      | Some n => Ok n
      | None => Raised (ValueError (int_literal_error s))
      end
  end.

(** [v in (None, n)] where [v] is the result of [d.get(k)]. *)
Definition none_or_int (o : option jval) (n : Z) : bool :=
  match o with
  | None => true
  | Some JNull => true
  | Some (JInt m) => m =? n
  | Some (JBool b) => (if b then 1 else 0) =? n
  | Some (JStr _) => false
  end.

#[global] Instance jval_eq_dec : EqDecision jval.
Proof. solve_decision. Defined.

(** One game's entry: a dictionary from field names to values. *)
Abbreviation profile := (gmap string jval).

(** The [games] dictionary, in insertion order. *)
Abbreviation store := (list (string * profile)).

Fixpoint games_get (k : string) (gs : store) : option profile :=
  match gs with
  | [] => None
  | (k', g) :: rest => if String.eqb k' k then Some g else games_get k rest
  end.

Definition games_mem (k : string) (gs : store) : bool :=
  match games_get k gs with Some _ => true | None => false end.

(** [games[k] = g]: an existing key keeps its place, a new one goes last. *)
Fixpoint games_set (k : string) (g : profile) (gs : store) : store :=
  match gs with
  | [] => [(k, g)]
  | (k', g') :: rest =>
      if String.eqb k' k then (k, g) :: rest else (k', g') :: games_set k g rest
  end.

(** [games[k][field] = v] for a key that is present. *)
Definition games_set_field (k field : string) (v : jval) (gs : store) : store :=
  match games_get k gs with
  | Some g => games_set k (<[field := v]> g) gs
  | None => gs
  end.

(** The document's two top-level fields; either may be absent. *)
Record config := mkConfig {
  custom_scan_paths : option (list string);
  games : option store
}.

(** [cfg.get("games", {})] *)
Definition cfg_games (cfg : config) : store :=
  match games cfg with Some gs => gs | None => [] end.

(** Any JSON value (numbers with a fraction are not modelled). *)
#[local] Unset Elimination Schemes.
Inductive json :=
| JsNull
| JsBool (b : bool)
| JsNum (n : Z)
| JsStr (s : string)
| JsArr (items : list json)
| JsObj (fields : list (string * json)).
#[local] Set Elimination Schemes.

(** A JSON document that is not an object. *)
Inductive nonobject :=
| VNull
| VBool (b : bool)
| VNum (n : Z)
| VStr (s : string)
| VArr (items : list json).

(** [k in v] for a string [k] and a value that is not a dictionary: a
    substring test on a string, a test for an equal element on a list,
    and a [TypeError] on [None], a boolean and a number. *)
Definition is_str (k : string) (v : json) : bool :=
  match v with
  | JsStr s => String.eqb s k
  | _ => false
  end.

Definition py_in (k : string) (v : nonobject) : outcome bool :=
  match v with
  | VStr s => Ok (contains s k)
  | VArr items => Ok (existsb (is_str k) items)
  | VNull | VBool _ | VNum _ => Raised TypeError
  end.

(** What is on disk under [CONFIG_FILE]: nothing, something [json.load]
    rejects, an object, or another JSON value.  In an object, fields of
    another type than the program writes are not modelled. *)
Inductive document :=
| NoFile
| Unparseable
| Parsed (cfg : config)
| ParsedValue (v : nonobject).

(** What [load_config] returns: a dictionary, or the value of the file
    when that is not an object. *)
Inductive loaded :=
| Cfg (c : config)
| Value (v : nonobject).

Definition IMAGES_DIR : string := "images".
Definition DEFAULT_WIDTH : Z := 1920.
Definition DEFAULT_HEIGHT : Z := 1080.
Definition DEFAULT_REFRESH_HZ : Z := 0.

Definition mk_profile (name process : string) (width height refresh_hz : Z)
    (image_path : string) (exe_path : jval) (source : string) : profile :=
  <["name" := JStr name]> (<["process" := JStr process]> (<["width" := JInt width]>
  (<["height" := JInt height]> (<["refresh_hz" := JInt refresh_hz]>
  (<["image_path" := JStr image_path]> (<["exe_path" := exe_path]>
  (<["source" := JStr source]> ∅))))))).

Definition default_config : config :=
  {| custom_scan_paths := Some [];
     games := Some
       [ ("cs2.exe",
          mk_profile "Counter-Strike 2" "cs2.exe" 1440 1080 144
            (Path.join IMAGES_DIR "cs2.png") JNull "preset");
         ("valorant-win64-shipping.exe",
          mk_profile "Valorant" "VALORANT-Win64-Shipping.exe" 1568 1080 144
            (Path.join IMAGES_DIR "valorant.png") JNull "preset") ] |}.

(** [save_config] overwrites the file with the document. *)
Definition save_config (cfg : config) : document := Parsed cfg.

(** The [try] block of [load_config] for a document that is not an
    object: the two membership tests, and the item assignment
    [cfg["custom_scan_paths"] = []], which a string and a list refuse
    with a [TypeError]. *)
Definition load_value (v : nonobject) : outcome loaded :=
  match py_in "games" v with
  | Raised e => Raised e
  | Ok false => Ok (Cfg default_config)
  | Ok true =>
      match py_in "custom_scan_paths" v with
      | Raised e => Raised e
      | Ok false => Raised TypeError
      | Ok true => Ok (Value v)
      end
  end.

(** [load_config]: what is returned and the file afterwards.  Every
    exception of the [try] block ends in the handler, which saves and
    returns the default. *)
Definition load_config (file : document) : loaded * document :=
  match file with
  | NoFile => (Cfg default_config, save_config default_config)
  | Unparseable => (Cfg default_config, save_config default_config)
  | Parsed cfg0 =>
      let cfg1 := match games cfg0 with
                  | None => default_config
                  | Some _ => cfg0
                  end in
      let cfg2 := match custom_scan_paths cfg1 with
                  | None => {| custom_scan_paths := Some []; games := games cfg1 |}
                  | Some _ => cfg1
                  end in
      (Cfg cfg2, save_config cfg2)
  | ParsedValue v =>
      match load_value v with
      | Ok (Cfg c) => (Cfg c, save_config c)
      | Ok (Value v') => (Value v', ParsedValue v')
      | Raised _ => (Cfg default_config, save_config default_config)
      end
  end.

End Config.

(** ** Discovery helpers *)

Module Entry.
(** One uninstall entry as [_get_uninstall_entries] builds it. *)
Record t := mk {
  name : string;
  publisher : string;
  install_location : string;
  display_icon : string;
  uninstall_string : string
}.
End Entry.

Module Candidate.
(** One discovered game as the scanners build it. *)
Record t := mk {
  name : string;
  exe_path : string;
  process : string;
  source : string
}.
End Candidate.

Module Discovery.
Import Py.

Definition DISCOVERY_SCAN_LIMIT : nat := 500.

(** A directory's content, in the order the operating system lists it. *)
#[local] Unset Elimination Schemes.
Inductive node :=
| File (name : string)
| Dir (name : string) (children : list node).
#[local] Set Elimination Schemes.

(** The file system the scanners look at: which paths exist, and which
    paths are directories, with their content.  Symbolic links and
    listing errors are not modelled. *)
Record filesystem := mkFs {
  path_exists : string -> bool;
  dir_at : string -> option (list node)
}.

(** [s.rfind(k)], with [-1] when [k] does not occur. *)
Definition rfind_z (s k : string) : Z :=
  match rfind s k with
  | Some i => Z.of_nat i
  | None => -1
  end.

(** [s[:k]] for [k >= 0] *)
Definition slice_to (s : string) (k : Z) : string := take (Z.to_nat k) s.

(** The double quote, which [_looks_like_exe_path] strips. *)
Definition double_quote : ascii := "034"%char.

Definition _looks_like_exe_path (fs : filesystem) (s : string) : option string :=
  if String.eqb s "" then None
  else
    let s1 := strip_char double_quote (strip s) in
    let s2 := if (contains s1 "," && endswith (lower s1) ".exe,0")%bool
              then slice_to s1 (rfind_z (lower s1) ".exe" + 4) else s1 in
    let s3 := if contains (lower s2) ".exe"
              then slice_to s2 (rfind_z (lower s2) ".exe" + 4) else s2 in
    if (endswith (lower s3) ".exe" && path_exists fs s3)%bool then Some s3 else None.

Definition is_exe_name (f : string) : bool := endswith (lower f) ".exe".

(** The first file of a listing whose name ends in [.exe], joined to the
    directory's path. *)
Fixpoint first_exe_file (root : string) (l : list node) : option string :=
  match l with
  | [] => None
  | File f :: rest =>
      if is_exe_name f then Some (Path.join root f) else first_exe_file root rest
  | Dir _ _ :: rest => first_exe_file root rest
  end.

Definition first_some {A B} (f : A -> option B) : list A -> option B :=
  fix go (l : list A) : option B :=
    match l with
    | [] => None
    | a :: rest => match f a with Some b => Some b | None => go rest end
    end.

(** [root[len(folder):].count(os.sep)] *)
Definition walk_depth (folder root : string) : Z :=
  Z.of_nat (count Path.sep (drop (String.length folder) root)).

(** One step of the loop over [os.walk(folder)]: the directory at [root]
    is skipped with its subtree when it lies deeper than the limit;
    otherwise its files are tried, then its subdirectories in order. *)
Definition visit (walk : string -> node -> option string)
    (folder : string) (depth_limit : Z) (root : string) (children : list node)
  : option string :=
  if walk_depth folder root >? depth_limit then None
  else match first_exe_file root children with
       | Some p => Some p
       | None => first_some (walk root) children
       end.

Fixpoint walk_node (folder : string) (depth_limit : Z) (parent : string) (n : node)
  : option string :=
  match n with
  | File _ => None
  | Dir name children =>
      visit (walk_node folder depth_limit) folder depth_limit
        (Path.join parent name) children
  end.

Definition _pick_exe_in_folder (fs : filesystem) (folder : string) (depth_limit : Z)
  : option string :=
  if String.eqb folder "" then None
  else match dir_at fs folder with
       | None => None
       | Some children =>
           match first_exe_file folder children with
           | Some p => Some p
           | None => visit (walk_node folder depth_limit) folder depth_limit folder children
           end
       end.

Definition keywords : list string :=
  ["ubisoft"; "ubisoft connect"; "blizzard"; "battle.net"; "riot"; "valorant"].

Definition classify_source (hay : string) : string :=
  if contains hay "ubisoft" then "ubisoft"
  else if (contains hay "battle.net" || contains hay "blizzard")%bool then "battlenet"
  else if contains hay "riot" then "riot"
  else "registry".

(** The loop of [discover_from_uninstall_entries] over the entries, with
    the candidates found so far. *)
Fixpoint scan_entries (fs : filesystem) (entries : list Entry.t)
    (found : list Candidate.t) : list Candidate.t :=
  match entries with
  | [] => found
  | e :: rest =>
      let name := strip (Entry.name e) in
      let publisher := strip (Entry.publisher e) in
      let hay := lower (name +:+ " " +:+ publisher) in
      if negb (existsb (contains hay) keywords) then scan_entries fs rest found
      else
        let exe :=
          match _looks_like_exe_path fs (Entry.display_icon e) with
          | Some p => Some p
          | None => _looks_like_exe_path fs (Entry.uninstall_string e)
          end in
        let exe :=
          match exe with
          | Some p => Some p
          | None =>
              let install_loc := strip (Entry.install_location e) in
              if String.eqb install_loc "" then None
              else _pick_exe_in_folder fs install_loc 2
          end in
        match exe with
        | None => scan_entries fs rest found
        | Some p =>
            if String.eqb p "" then scan_entries fs rest found
            else
              let found' := (found ++ [Candidate.mk name p (Path.basename p)
                                         (classify_source hay)])%list in
              if (DISCOVERY_SCAN_LIMIT <=? List.length found')%nat then found'
              else scan_entries fs rest found'
        end
  end.

(** [entries] is what [_get_uninstall_entries] read from the registry. *)
Definition discover_from_uninstall_entries (fs : filesystem) (entries : list Entry.t)
  : list Candidate.t :=
  scan_entries fs entries [].

End Discovery.

(** ** The application: merge, edit and the polling loop *)

Module App.
Import Py Config Display.

(** The part of the [App] object the modelled methods use.  [file] is
    the content of [CONFIG_FILE]; [status_msgs] are the texts given to
    [_set_status_msg] and [log] the texts given to [log], oldest first;
    [ui_active] are the [_ui_set_active] calls scheduled; [trace] is
    everything done to the display so far; [ticks] counts the iterations
    of [_watch_loop] that were started. *)
Record app := mkApp {
  cfg : config;
  active_process : option string;
  last_applied_process : option string;
  file : document;
  status_msgs : list string;
  log : list string;
  ui_active : list (option string);
  trace : list event;
  ticks : nat
}.

Definition with_cfg (c : config) (st : app) : app :=
  mkApp c (active_process st) (last_applied_process st) (file st) (status_msgs st)
    (log st) (ui_active st) (trace st) (ticks st).
Definition with_active (a : option string) (st : app) : app :=
  mkApp (cfg st) a (last_applied_process st) (file st) (status_msgs st)
    (log st) ((ui_active st ++ [a])%list) (trace st) (ticks st).
Definition with_last_applied (a : option string) (st : app) : app :=
  mkApp (cfg st) (active_process st) a (file st) (status_msgs st)
    (log st) (ui_active st) (trace st) (ticks st).
Definition with_file (d : document) (st : app) : app :=
  mkApp (cfg st) (active_process st) (last_applied_process st) d (status_msgs st)
    (log st) (ui_active st) (trace st) (ticks st).
Definition _set_status_msg (text : string) (st : app) : app :=
  mkApp (cfg st) (active_process st) (last_applied_process st) (file st)
    ((status_msgs st ++ [text])%list) (log st) (ui_active st) (trace st) (ticks st).
Definition add_log (text : string) (st : app) : app :=
  mkApp (cfg st) (active_process st) (last_applied_process st) (file st) (status_msgs st)
    ((log st ++ [text])%list) (ui_active st) (trace st) (ticks st).
Definition with_trace (tr : list event) (st : app) : app :=
  mkApp (cfg st) (active_process st) (last_applied_process st) (file st) (status_msgs st)
    (log st) (ui_active st) tr (ticks st).
Definition count_tick (st : app) : app :=
  mkApp (cfg st) (active_process st) (last_applied_process st) (file st) (status_msgs st)
    (log st) (ui_active st) (trace st) (S (ticks st)).

(** [App.__init__] sets both keys to [None]; [c] and [d] are the loaded
    configuration and the file. *)
Definition init (c : config) (d : document) : app :=
  mkApp c None None d [] [] [] [] O.

(** Methods: they read and change the [App] object, call the display, and
    return or raise. *)
Definition AM (A : Type) : Type := native -> app -> outcome A * app.

#[global] Instance AM_ret : MRet AM := fun A a _ st => (Ok a, st).
#[global] Instance AM_bind : MBind AM := fun A B k m os st =>
  match m os st with
  | (Ok a, st') => k a os st'
  | (Raised e, st') => (Raised e, st')
  end.

Definition get : AM app := fun _ st => (Ok st, st).
Definition modify (f : app -> app) : AM unit := fun _ st => (Ok tt, f st).
Definition lift_outcome {A} (o : outcome A) : AM A := fun _ st => (o, st).
Definition lift_display {A} (m : M A) : AM A := fun os st =>
  let '(o, tr) := m os (trace st) in (o, with_trace tr st).

(** [self.cfg.setdefault("games", {})] *)
Definition setdefault_games (c : config) : config :=
  match games c with
  | Some _ => c
  | None => {| custom_scan_paths := custom_scan_paths c; games := Some [] |}
  end.

Definition set_games (gs : store) (c : config) : config :=
  {| custom_scan_paths := custom_scan_paths c; games := Some gs |}.

(** *** Auto switching *)

Fixpoint _find_active_game (gs : store) (running : gset string) : option string :=
  match gs with
  | [] => None
  | (proc_key, g) :: rest =>
      let proc := lower (py_str (default (JStr proc_key) (g !! "process"))) in
      if bool_decide (proc ∈ running) then Some (lower proc_key)
      else _find_active_game rest running
  end.

(** The suffix [f" @{r}Hz" if r else ""] of the log lines. *)
Definition hz_suffix (r : Z) : string :=
  if r =? 0 then "" else " @" +:+ str_of_int r +:+ "Hz".

(** [g = games.get(proc_key)] followed by the test [if not g]: the entry
    when it is there and not empty. *)
Definition lookup_profile (gs : store) (proc_key : string) : option profile :=
  match games_get proc_key gs with
  | Some g => if decide (g = ∅) then None else Some g
  | None => None
  end.

Definition _apply_game_resolution_if_needed (proc_key : option string) : AM unit :=
  st ← get;
  if decide (proc_key = last_applied_process st) then mret tt
  else
    match proc_key with
    | None =>
        (match last_applied_process st with
         | Some _ =>
             lift_display (set_resolution DEFAULT_WIDTH DEFAULT_HEIGHT None);;
             modify (add_log "Kein Spiel aktiv: zurück auf 1920x1080.")
         | None => mret tt
         end);;
        modify (with_last_applied None)
    | Some k =>
        match lookup_profile (cfg_games (cfg st)) k with
        | None => mret tt
        | Some g =>
            w ← lift_outcome (py_int (default (JInt DEFAULT_WIDTH) (g !! "width")));
            h ← lift_outcome (py_int (default (JInt DEFAULT_HEIGHT) (g !! "height")));
            r ← lift_outcome (py_int (default (JInt 0) (g !! "refresh_hz")));
            lift_display (set_resolution w h (if 0 <? r then Some r else None));;
            modify (with_last_applied (Some k));;
            modify (add_log ("Aktiv erkannt: " +:+ py_str (default (JStr k) (g !! "name"))
                             +:+ " -> " +:+ str_of_int w +:+ "x" +:+ str_of_int h
                             +:+ hz_suffix r))
        end
    end.

(** One iteration of [_watch_loop]; [running] is what
    [list_running_process_names_lower] returned. *)
Definition tick (running : gset string) : AM unit :=
  modify count_tick;;
  st ← get;
  let proc_key := _find_active_game (cfg_games (cfg st)) running in
  _apply_game_resolution_if_needed proc_key;;
  st' ← get;
  if decide (proc_key = active_process st') then mret tt
  else modify (with_active proc_key).

(** The loop, for the iterations that happen before [stop_event] is set;
    [snapshots] are the process sets of these iterations.  An exception
    ends the loop. *)
Fixpoint _watch_loop (snapshots : list (gset string)) : AM unit :=
  match snapshots with
  | [] => mret tt
  | running :: rest => tick running;; _watch_loop rest
  end.

(** *** Discovery merge *)

Definition safe_char (c : ascii) : bool :=
  let n := nat_of_ascii c in
  (((97 <=? n)%nat && (n <=? 122)%nat) || ((65 <=? n)%nat && (n <=? 90)%nat)
   || is_digit c || Ascii.eqb c "." || Ascii.eqb c "_" || Ascii.eqb c "-")%bool.

(** [re.sub(r"[^a-zA-Z0-9._-]+", "_", s)]: every run of other characters
    becomes one underscore. *)
Fixpoint sub_unsafe (s : string) (in_run : bool) : string :=
  match s with
  | EmptyString => EmptyString
  | String c r =>
      if safe_char c then String c (sub_unsafe r false)
      else if in_run then sub_unsafe r true
      else String "_" (sub_unsafe r true)
  end.

Definition _safe_filename (name : string) : string :=
  let n := sub_unsafe (strip name) false in
  if String.eqb n "" then "game" else n.

(** [a or b] for strings *)
Definition str_or (a b : string) : string := if String.eqb a "" then b else a.

(** The entry made for a game that is not in the store yet. *)
Definition new_profile (proc_key : string) (g : Candidate.t) : profile :=
  mk_profile (str_or (Candidate.name g) proc_key)
    (str_or (Candidate.process g) proc_key)
    DEFAULT_WIDTH DEFAULT_HEIGHT 144
    (Path.join IMAGES_DIR (_safe_filename proc_key +:+ ".png"))
    (JStr (Candidate.exe_path g))
    (str_or (Candidate.source g) "scan").

(** [if not games[k].get(field) and value: games[k][field] = value] *)
Definition backfill (k field value : string) (gs : store) : store :=
  match games_get k gs with
  | Some p =>
      if (negb (truthy_get (p !! field)) && negb (String.eqb value ""))%bool
      then games_set_field k field (JStr value) gs
      else gs
  | None => gs
  end.

(** The body of the loop over the discovered games: the store and the
    number of games added so far. *)
Definition merge_one (acc : store * nat) (g : Candidate.t) : store * nat :=
  let '(gs, added) := acc in
  let proc_key := lower (Candidate.process g) in
  if String.eqb proc_key "" then (gs, added)
  else if games_mem proc_key gs then
    (backfill proc_key "source" (Candidate.source g)
       (backfill proc_key "exe_path" (Candidate.exe_path g) gs), added)
  else (games_set proc_key (new_profile proc_key g) gs, S added).

Definition merge_candidates (discovered : list Candidate.t) (gs : store) : store * nat :=
  fold_left merge_one discovered (gs, O).

(** The step after the loop, for one preset. *)
Definition enforce_preset (key name : string) (width height : Z) (gs : store) : store :=
  match games_get key gs with
  | None => gs
  | Some p =>
      let p1 := match p !! "name" with
                | Some _ => p
                | None => <["name" := JStr name]> p
                end in
      let p2 := if (none_or_int (p1 !! "width") DEFAULT_WIDTH
                    && none_or_int (p1 !! "height") DEFAULT_HEIGHT)%bool
                then <["height" := JInt height]> (<["width" := JInt width]> p1)
                else p1 in
      games_set key p2 gs
  end.

Definition enforce_presets (gs : store) : store :=
  enforce_preset "valorant-win64-shipping.exe" "Valorant" 1568 1080
    (enforce_preset "cs2.exe" "Counter-Strike 2" 1440 1080 gs).

(** [discovered] is what [discover_all_games] returned.  The result is
    the number of games added. *)
Definition _merge_discovered_games_into_config (discovered : list Candidate.t)
    (st : app) : nat * app :=
  let c := setdefault_games (cfg st) in
  let '(gs, added) := merge_candidates discovered (cfg_games c) in
  let c' := set_games (enforce_presets gs) c in
  (added, with_file (save_config c') (with_cfg c' st)).

(** *** Saving an edit *)

(** [_parse_int]: the value, or the text of the [ValueError]. *)
Definition _parse_int (s field : string) : string + Z :=
  match int_of_str (strip s) with
  | Some v =>
      if v <=? 0 then inl ("Ungültiger Wert für " +:+ field +:+ ": '" +:+ s +:+ "'")
      else inr v
  | None => inl ("Ungültiger Wert für " +:+ field +:+ ": '" +:+ s +:+ "'")
  end.

(** The three conversions in the [try] block of [save_selected_game]:
    width, height and refresh rate, or [str(e)] of the [ValueError]. *)
Definition parse_fields (w_var h_var r_var : string) : string + (Z * Z * Z) :=
  match _parse_int w_var "Breite" with
  | inl msg => inl msg
  | inr w =>
      match _parse_int h_var "Höhe" with
      | inl msg => inl msg
      | inr h =>
          let r_text := str_or (strip r_var) "0" in
          match int_of_str r_text with
          | None => inl (int_literal_error r_text)
          | Some r => if r <? 0 then inl "" else inr (w, h, r)
          end
      end
  end.

(** [proc_key] is what [_selected_process_key] returned; the three
    strings are the contents of the entry fields. *)
Definition save_selected_game (proc_key : option string) (w_var h_var r_var : string)
    (st : app) : app :=
  match proc_key with
  | None => _set_status_msg "Bitte ein Spiel auswählen." st
  | Some k =>
      if String.eqb k "" then _set_status_msg "Bitte ein Spiel auswählen." st
      else
        let c := setdefault_games (cfg st) in
        let gs := cfg_games c in
        let gs1 := if games_mem k gs then gs
                   else games_set k (<["name" := JStr k]> (<["process" := JStr k]> ∅)) gs in
        let st1 := with_cfg (set_games gs1 c) st in
        match parse_fields w_var h_var r_var with
        | inl msg => _set_status_msg msg st1
        | inr (w, h, r) =>
            let gs2 := games_set_field k "refresh_hz" (JInt r)
                         (games_set_field k "height" (JInt h)
                            (games_set_field k "width" (JInt w) gs1)) in
            let c2 := set_games gs2 c in
            let name := match games_get k gs2 with
                        | Some g => py_str (default (JStr k) (g !! "name"))
                        | None => k
                        end in
            add_log ("Gespeichert: " +:+ name +:+ " -> " +:+ str_of_int w +:+ "x"
                     +:+ str_of_int h +:+ hz_suffix r)
              (_set_status_msg "Gespeichert."
                 (with_file (save_config c2) (with_cfg c2 st)))
        end
  end.

End App.

(** ** Predicates used in the statements *)

Module Spec.
Import Py Config Display Discovery App.

(** Every key of the store is its own lowercase form. *)
Definition keys_lowercase (gs : store) : Prop :=
  Forall (fun kg : string * profile => lower kg.1 = kg.1) gs.

(** No entry of the store is the empty dictionary. *)
Definition profiles_nonempty (gs : store) : Prop :=
  Forall (fun kg : string * profile => kg.2 <> ∅) gs.

(** The three integers read from an entry, with the defaults of the
    code; [None] when a conversion raises. *)
Definition profile_mode (g : profile) : option (Z * Z * option Z) :=
  match py_int (default (JInt DEFAULT_WIDTH) (g !! "width")),
        py_int (default (JInt DEFAULT_HEIGHT) (g !! "height")),
        py_int (default (JInt 0) (g !! "refresh_hz")) with
  | Ok w, Ok h, Ok r => Some (w, h, if 0 <? r then Some r else None)
  | _, _, _ => None
  end.

(** An operating system that accepts every mode, and one that rejects
    every mode in the test call. *)
Definition os_accepting : native :=
  mkNative (fun _ => Some (mkDEVMODEW 0 1920 1080 60)) (fun _ _ _ => 0).

Definition os_rejecting : native :=
  mkNative (fun _ => Some (mkDEVMODEW 0 1920 1080 60)) (fun _ _ _ => -2).

(** What the merge may do to an entry that exists: everything but
    [exe_path] and [source] is kept; each of these two is kept, or was
    falsy (unset, [null] or empty) and now holds the value of a discovered
    game with this process key. *)
Definition backfilled (discovered : list Candidate.t) (k : string) (p p' : profile)
  : Prop :=
  (forall f, f <> "exe_path" -> f <> "source" -> p' !! f = p !! f)
  /\ (p' !! "exe_path" = p !! "exe_path"
      \/ (truthy_get (p !! "exe_path") = false
          /\ exists c, In c discovered /\ lower (Candidate.process c) = k
               /\ Candidate.exe_path c <> ""
               /\ p' !! "exe_path" = Some (JStr (Candidate.exe_path c))))
  /\ (p' !! "source" = p !! "source"
      \/ (truthy_get (p !! "source") = false
          /\ exists c, In c discovered /\ lower (Candidate.process c) = k
               /\ Candidate.source c <> ""
               /\ p' !! "source" = Some (JStr (Candidate.source c)))).

(** The test of the preset step: width and height are each unset,
    [null] or the baseline value. *)
Definition at_baseline (p : profile) : bool :=
  (none_or_int (p !! "width") DEFAULT_WIDTH
   && none_or_int (p !! "height") DEFAULT_HEIGHT)%bool.

(** A field that is missing, [null] or the integer [n]. *)
Definition unset_or (o : option jval) (n : Z) : Prop :=
  o = None \/ o = Some JNull \/ o = Some (JInt n).

(** A store on which the preset step for [key] has nothing left to do. *)
Definition settled (key : string) (gs : store) : Prop :=
  match games_get key gs with
  | None => True
  | Some p => is_Some (p !! "name") /\ at_baseline p = false
  end.


(** The folder of the depth scenario: one executable, at
    sub/deep/deep2/game.exe. *)
Definition scenario_tree : list node :=
  [Dir "sub" [Dir "deep" [Dir "deep2" [File "game.exe"]]]].

(** No file below this node has a name that ends in [.exe]. *)
Fixpoint no_exe (n : node) : bool :=
  match n with
  | File f => negb (is_exe_name f)
  | Dir _ children => forallb no_exe children
  end.

(** The listing holds exactly one executable, the file [exe] in the
    subdirectory reached by the names [path]. *)
Fixpoint only_exe_at (path : list string) (exe : string) (l : list node) : Prop :=
  match path with
  | [] => exists l0 l1, l = l0 ++ File exe :: l1
            /\ is_exe_name exe = true
            /\ forallb no_exe l0 = true /\ forallb no_exe l1 = true
  | d :: rest => exists l0 c l1, l = l0 ++ Dir d c :: l1
            /\ forallb no_exe l0 = true /\ forallb no_exe l1 = true
            /\ only_exe_at rest exe c
  end.

Section node_induction.
Variable P : node -> Prop.
Hypothesis P_file : forall f, P (File f).
Hypothesis P_dir : forall d children, Forall P children -> P (Dir d children).

(** Induction on a directory tree, with the property for all the children
    of a directory at hand. *)
Fixpoint node_induction (n : node) : P n :=
  match n with
  | File f => P_file f
  | Dir d children =>
      P_dir d children
        ((fix all (l : list node) : Forall P l :=
            match l with
            | [] => @List.Forall_nil _ P
            | x :: r => @List.Forall_cons _ P x r (node_induction x) (all r)
            end) children)
  end.
End node_induction.

(** A folder path whose path part is not empty and does not end in a
    separator. *)
Definition plain_folder (folder : string) : bool :=
  match last_char (Path.splitdrive folder).2 with
  | Some c => negb (Path.is_sep c)
  | None => false
  end.

(** A file system in which the scenario folder is reached under the path
    [p] only. *)
Definition fs_with_scenario_at (p : string) : filesystem :=
  mkFs (fun _ => false) (fun q => if String.eqb q p then Some scenario_tree else None).

(** A file system in which exactly the file [p] exists, and one in which
    nothing exists. *)
Definition fs_with_file (p : string) : filesystem :=
  mkFs (fun q => String.eqb q p) (fun _ => None).

Definition fs_empty : filesystem := mkFs (fun _ => false) (fun _ => None).

(** The registry entry of the scenario; the fields the scenario does not
    give are parameters. *)
Definition ubisoft_entry (publisher install_location uninstall_string : string)
  : Entry.t :=
  Entry.mk "Ubisoft Connect" publisher install_location "C:\Games\u.exe,0"
    uninstall_string.

(** A store with one entry, which is empty. *)
Definition store_with_empty_profile : store := [("a.exe", (∅ : profile))].

(** A store whose only key has a capital letter, as a configuration file
    written by hand may hold it. *)
Definition store_with_capital_key : store :=
  [("Foo.exe", mk_profile "Foo" "Foo.exe" 1600 900 60 "images\foo.png" JNull "manual")].

(** A folder path that ends in a separator. *)
Definition trailing_sep (folder : string) : bool :=
  match last_char (Path.splitdrive folder).2 with
  | Some c => Path.is_sep c
  | None => false
  end.

(** A document that is an array of the two field names. *)
Definition doc_array_of_field_names : document :=
  ParsedValue (VArr [JsStr "games"; JsStr "custom_scan_paths"]).

(** A store in which the entry of cs2.exe has a name and a process but no
    resolution, as [save_selected_game] creates it. *)
Definition store_cs2_without_resolution : store :=
  [("cs2.exe", <["name" := JStr "cs2.exe"]> (<["process" := JStr "cs2.exe"]> ∅))].

End Spec.

(** ** More of the program: text helpers *)

Module Text.
Import Py.

Fixpoint all_chars (p : ascii -> bool) (s : string) : bool :=
  match s with
  | EmptyString => true
  | String c r => (p c && all_chars p r)%bool
  end.

(** [s.isdigit()] on ASCII text: not empty, digits only. *)
Definition isdigit (s : string) : bool :=
  (negb (String.eqb s "") && all_chars is_digit s)%bool.

(** [int(s)] for a string of digits. *)
Fixpoint digits_value (s : string) (acc : Z) : Z :=
  match s with
  | EmptyString => acc
  | String c r => digits_value r (10 * acc + digit_val c)
  end.

(** [s.split(c)] for a one-character separator. *)
Fixpoint split_char (c : ascii) (s : string) : list string :=
  match s with
  | EmptyString => [EmptyString]
  | String a r =>
      if Ascii.eqb a c then EmptyString :: split_char c r
      else match split_char c r with
           | h :: t => String a h :: t
           | [] => [String a EmptyString]
           end
  end.

(** [s.split(sep)] for a separator that is not empty; [skip] counts the
    characters of a separator just found that are still to be passed. *)
Fixpoint split_go (sep s : string) (skip : nat) : list string :=
  match s with
  | EmptyString => [EmptyString]
  | String a r =>
      match skip with
      | S k => split_go sep r k
      | O =>
          if startswith s sep
          then EmptyString :: split_go sep r (String.length sep - 1)
          else match split_go sep r O with
               | h :: t => String a h :: t
               | [] => [String a EmptyString]
               end
      end
  end.

Definition split_str (sep s : string) : list string := split_go sep s O.

(** The ASCII characters at which [str.splitlines] breaks a line, the
    pair of a carriage return and a line feed being one break. *)
Definition is_linebreak (c : ascii) : bool :=
  let n := nat_of_ascii c in
  (((10 <=? n)%nat && (n <=? 13)%nat) || ((28 <=? n)%nat && (n <=? 30)%nat))%bool.

(** [s.splitlines()]; [cur] is the line read so far, last character
    first. *)
Fixpoint splitlines_go (s cur : string) : list string :=
  match s with
  | EmptyString => if String.eqb cur "" then [] else [rev cur]
  | String c r =>
      if is_linebreak c then
        match r with
        | String d r' =>
            if (Ascii.eqb c "013" && Ascii.eqb d "010")%bool
            then rev cur :: splitlines_go r' EmptyString
            else rev cur :: splitlines_go r EmptyString
        | EmptyString => [rev cur]
        end
      else splitlines_go r (String c cur)
  end.

Definition splitlines (s : string) : list string := splitlines_go s EmptyString.

(** [os.path.splitext(p)[0]] for a name without separators: the part
    before the last dot, unless only dots come before it. *)
Definition splitext_base (p : string) : string :=
  match rfind p "." with
  | Some i =>
      if all_chars (Ascii.eqb ".") (take i p) then p else take i p
  | None => p
  end.

(** Insertion of [x] into a list sorted by [key], before the first entry
    whose key is not smaller. *)
Fixpoint insert_by (key : string -> string) (x : string) (l : list string)
  : list string :=
  match l with
  | [] => [x]
  | y :: r => if String.ltb (key y) (key x) then y :: insert_by key x r else x :: l
  end.

(** [l.sort(key=key)]: the entries are inserted from the last to the
    first, so that entries with equal keys keep their order. *)
Definition sort_by (key : string -> string) (l : list string) : list string :=
  fold_right (insert_by key) [] l.

End Text.

(** ** Version comparison *)

Module Version.
Import Py Text.

(** The loop of [_normalize_version] over the parts. *)
Fixpoint parse_parts (parts : list string) : option (list Z) :=
  match parts with
  | [] => Some []
  | p :: rest =>
      if isdigit p then
        match parse_parts rest with
        | Some out => Some (digits_value p 0 :: out)
        | None => None
        end
      else None
  end.

Definition _normalize_version (v : string) : option (list Z) :=
  let v1 := strip v in
  let v2 := if startswith (lower v1) "v" then drop 1 v1 else v1 in
  if String.eqb v2 "" then None
  else parse_parts (split_char "." v2).

(** [t + (0,) * (n - len(t))] *)
Definition pad (t : list Z) (n : nat) : list Z := t ++ repeat 0 (n - length t).

(** [a > b] for tuples of integers. *)
Fixpoint tuple_gt (a b : list Z) : bool :=
  match a, b with
  | x :: a', y :: b' => if x =? y then tuple_gt a' b' else y <? x
  | _ :: _, [] => true
  | [], _ => false
  end.

Definition is_newer_version (remote local : string) : bool :=
  match _normalize_version remote, _normalize_version local with
  | Some rv, Some lv =>
      let n := Nat.max (length rv) (length lv) in
      tuple_gt (pad rv n) (pad lv n)
  | _, _ => negb (String.eqb remote local)
  end.

End Version.

(** ** Process detection *)

Module Proc.
Import Py Text.

(** The separator of the fields of a [tasklist] line: a double quote, a
    comma, a double quote. *)
Definition field_sep : string :=
  String Discovery.double_quote (String "," (String Discovery.double_quote EmptyString)).

(** The name a line contributes, if any. *)
Definition line_name (line : string) : option string :=
  if String.eqb (strip line) "" then None
  else if startswith line (String Discovery.double_quote EmptyString) then
    match map (fun p => strip_char Discovery.double_quote (strip p))
              (split_str field_sep line) with
    | first :: _ => Some (lower first)
    | [] => None
    end
  else None.

(** [stdout] is the output of [tasklist]; [None] stands for an exception
    of [subprocess.run], which gives the empty set. *)
Definition list_running_process_names_lower (stdout : option string) : gset string :=
  match stdout with
  | None => ∅
  | Some out => list_to_set (omap line_name (splitlines out))
  end.

End Proc.

(** ** More discovery *)

Module Discovery2.
Import Py Text Discovery.

(** The loop of [discover_all_games] that keeps the first game of every
    process name; [seen] holds the names met, [uniq] the games kept. *)
Fixpoint uniq_loop (found : list Candidate.t) (seen : gset string)
    (uniq : list Candidate.t) : list Candidate.t :=
  match found with
  | [] => uniq
  | g :: rest =>
      let proc := lower (Candidate.process g) in
      if (String.eqb proc "" || bool_decide (proc ∈ seen))%bool
      then uniq_loop rest seen uniq
      else
        let uniq' := uniq ++ [g] in
        if (DISCOVERY_SCAN_LIMIT <=? length uniq')%nat then uniq'
        else uniq_loop rest ({[proc]} ∪ seen) uniq'
  end.

(** The five lists are what the five scanners returned. *)
Definition discover_all_games (steam epic riot uninstall custom : list Candidate.t)
  : list Candidate.t :=
  uniq_loop (steam ++ epic ++ riot ++ uninstall ++ custom) ∅ [].





(** The directories [os.walk(folder)] yields to a loop that cuts every
    branch deeper than [depth_limit], each with its listing; the
    directories that are cut are left out. *)
Fixpoint walk_dirs_node (folder : string) (depth_limit : Z) (parent : string) (n : node)
  : list (string * list node) :=
  match n with
  | File _ => []
  | Dir name children =>
      let root := Path.join parent name in
      if walk_depth folder root >? depth_limit then []
      else (root, children) :: flat_map (walk_dirs_node folder depth_limit root) children
  end.

Definition walk_dirs (folder : string) (depth_limit : Z) (children : list node)
  : list (string * list node) :=
  if walk_depth folder folder >? depth_limit then []
  else (folder, children) :: flat_map (walk_dirs_node folder depth_limit folder) children.

(** The inner loop of [discover_custom_paths] over the files of one
    directory. *)
Fixpoint custom_files (root : string) (l : list node) (found : list Candidate.t)
  : list Candidate.t :=
  match l with
  | [] => found
  | File f :: rest =>
      if is_exe_name f
      then custom_files root rest
             (found ++ [Candidate.mk (splitext_base f) (Path.join root f)
                          (Path.basename (Path.join root f)) "custom"])
      else custom_files root rest found
  | Dir _ _ :: rest => custom_files root rest found
  end.

(** The loop over the directories of one base folder; the flag tells
    whether the limit was reached, which ends the whole scan. *)
Fixpoint custom_dirs (dirs : list (string * list node)) (found : list Candidate.t)
  : list Candidate.t * bool :=
  match dirs with
  | [] => (found, false)
  | (root, children) :: rest =>
      let found' := custom_files root children found in
      if (DISCOVERY_SCAN_LIMIT <=? length found')%nat then (found', true)
      else custom_dirs rest found'
  end.

Fixpoint custom_loop (fs : filesystem) (paths : list string) (found : list Candidate.t)
  : list Candidate.t :=
  match paths with
  | [] => found
  | base :: rest =>
      if String.eqb base "" then custom_loop fs rest found
      else match dir_at fs base with
           | None => custom_loop fs rest found
           | Some children =>
               let '(found', stop) := custom_dirs (walk_dirs base 3 children) found in
               if stop then found' else custom_loop fs rest found'
           end
  end.

Definition discover_custom_paths (fs : filesystem) (paths : list string)
  : list Candidate.t :=
  custom_loop fs paths [].

(** The registry as the program reads it.  [subkeys hive path] is the
    list [EnumKey] walks through, [None] when the key cannot be opened;
    [value hive path name] is the string stored there, [None] when it is
    missing or not a string. *)
Inductive hive := HKEY_LOCAL_MACHINE | HKEY_CURRENT_USER.

Record registry := mkRegistry {
  subkeys : hive -> string -> option (list string);
  value : hive -> string -> string -> option string
}.

Definition _read_registry_string (reg : registry) (root : hive) (path name : string)
  : option string :=
  match value reg root path name with
  | Some v => if String.eqb (strip v) "" then None else Some (strip v)
  | None => None
  end.

Definition _enum_subkeys (reg : registry) (root : hive) (path : string) : list string :=
  match subkeys reg root path with
  | Some l => l
  | None => []
  end.

Definition uninstall_roots : list (hive * string) :=
  [ (HKEY_LOCAL_MACHINE, "SOFTWARE\Microsoft\Windows\CurrentVersion\Uninstall");
    (HKEY_LOCAL_MACHINE, "SOFTWARE\WOW6432Node\Microsoft\Windows\CurrentVersion\Uninstall");
    (HKEY_CURRENT_USER, "SOFTWARE\Microsoft\Windows\CurrentVersion\Uninstall") ].

(** [_read_registry_string(...) or ""] *)
Definition read_or_empty (reg : registry) (root : hive) (path name : string) : string :=
  match _read_registry_string reg root path name with
  | Some v => v
  | None => ""
  end.

(** The entry of one subkey, if it has a display name. *)
Definition uninstall_entry (reg : registry) (root : hive) (base sub : string)
  : option Entry.t :=
  let full := base +:+ "\" +:+ sub in
  match _read_registry_string reg root full "DisplayName" with
  | None => None
  | Some name =>
      Some (Entry.mk name
              (read_or_empty reg root full "Publisher")
              (read_or_empty reg root full "InstallLocation")
              (read_or_empty reg root full "DisplayIcon")
              (read_or_empty reg root full "UninstallString"))
  end.

Definition _get_uninstall_entries (reg : registry) : list Entry.t :=
  flat_map (fun rb : hive * string =>
              omap (uninstall_entry reg rb.1 rb.2) (_enum_subkeys reg rb.1 rb.2))
           uninstall_roots.

(** [find_steam_root]: the first of the three registry values that names
    a directory. *)
Definition steam_candidates : list (hive * string * string) :=
  [ (HKEY_CURRENT_USER, "Software\Valve\Steam", "SteamPath");
    (HKEY_LOCAL_MACHINE, "SOFTWARE\WOW6432Node\Valve\Steam", "InstallPath");
    (HKEY_LOCAL_MACHINE, "SOFTWARE\Valve\Steam", "InstallPath") ].

Definition find_steam_root (reg : registry) (fs : filesystem) : option string :=
  first_some (fun c : hive * string * string =>
                match _read_registry_string reg c.1.1 c.1.2 c.2 with
                | Some p => match dir_at fs p with Some _ => Some p | None => None end
                | None => None
                end)
             steam_candidates.

End Discovery2.

(** ** More of the application: the form, manual additions, the test and
    the shutdown *)

Module App2.
Import Py Text Config Display Discovery App.

(** The state of the form: the selection, the three entry fields, and the
    two dictionaries that map the names shown to process keys and back;
    [dropdown_values] is the list given to the dropdown. *)
Record ui := mkUi {
  game_var : string;
  w_var : string;
  h_var : string;
  r_var : string;
  _display_to_proc : gmap string string;
  _proc_to_display : gmap string string;
  dropdown_values : list string
}.

Definition with_game_var (v : string) (u : ui) : ui :=
  mkUi v (w_var u) (h_var u) (r_var u) (_display_to_proc u) (_proc_to_display u)
    (dropdown_values u).
Definition with_fields (w h r : string) (u : ui) : ui :=
  mkUi (game_var u) w h r (_display_to_proc u) (_proc_to_display u) (dropdown_values u).

Definition _selected_process_key (u : ui) : option string :=
  let sel := strip (game_var u) in
  if (String.eqb sel "" || startswith sel "(")%bool then None
  else _display_to_proc u !! sel.

(** The image preview is left out. *)
Definition _load_selected_game_into_fields (st : app) (u : ui) : ui :=
  match _selected_process_key u with
  | None => u
  | Some proc_key =>
      if String.eqb proc_key "" then u
      else match lookup_profile (cfg_games (cfg st)) proc_key with
           | None => u
           | Some g =>
               with_fields (py_str (default (JInt DEFAULT_WIDTH) (g !! "width")))
                           (py_str (default (JInt DEFAULT_HEIGHT) (g !! "height")))
                           (py_str (default (JInt 0) (g !! "refresh_hz"))) u
           end
  end.

(** The name shown for the [n]-th game of the name [base]. *)
Definition display_name (base : string) (n : Z) : string :=
  if n =? 1 then base else base +:+ " #" +:+ str_of_int n.

(** The loop of [_refresh_game_list]: the counts of the names, the two
    dictionaries and the names shown, in the order of the store. *)
Fixpoint refresh_loop (gs : store) (name_counts : gmap string Z)
    (d2p p2d : gmap string string) (values : list string)
  : gmap string string * gmap string string * list string :=
  match gs with
  | [] => (d2p, p2d, values)
  | (proc_key, g) :: rest =>
      let base := str_or (strip (py_str (default (JStr proc_key) (g !! "name")))) proc_key in
      let n := default 0 (name_counts !! base) + 1 in
      let display := display_name base n in
      refresh_loop rest (<[base := n]> name_counts)
        (<[display := lower proc_key]> d2p)
        (<[lower proc_key := display]> p2d)
        (values ++ [display])
  end.

Definition _refresh_game_list (st : app) (u : ui) : ui :=
  let '(d2p, p2d, values) := refresh_loop (cfg_games (cfg st)) ∅ ∅ ∅ [] in
  let sorted := sort_by lower values in
  let display_values := match sorted with
                        | [] => ["(keine Spiele gefunden)"]
                        | _ => sorted
                        end in
  (* AppDropdown.set_values *)
  let var1 := if bool_decide (game_var u ∈ display_values) then game_var u
              else hd (game_var u) display_values in
  let var2 := if (String.eqb var1 "" || startswith var1 "(")%bool
              then hd var1 display_values else var1 in
  _load_selected_game_into_fields st
    (mkUi var2 (w_var u) (h_var u) (r_var u) d2p p2d display_values).

Definition set_fields_to_default_resolution (st : app) (u : ui) : app * ui :=
  (add_log "Felder auf Standard-Auflösung gesetzt (1920x1080)."
     (_set_status_msg "Standard-Auflösung gesetzt: 1920×1080." st),
   mkUi (game_var u) (str_of_int DEFAULT_WIDTH) (str_of_int DEFAULT_HEIGHT) (r_var u)
     (_display_to_proc u) (_proc_to_display u) (dropdown_values u)).

(** [save_selected_game] on the form. *)
Definition save_form (st : app) (u : ui) : app :=
  save_selected_game (_selected_process_key u) (w_var u) (h_var u) (r_var u) st.

(** [games[k].get("source") or "manual"] *)
Definition source_or_manual (g : profile) : jval :=
  match g !! "source" with
  | Some v => if truthy v then v else JStr "manual"
  | None => JStr "manual"
  end.

(** [path] is what the file dialog returned, the empty string when it
    was closed without a choice. *)
Definition add_game_manually (fs : filesystem) (path : string) (st : app) (u : ui)
  : app * ui :=
  if String.eqb path "" then (st, u)
  else if (negb (endswith (lower path) ".exe") || negb (path_exists fs path))%bool
  then (_set_status_msg "Ungültige EXE." st, u)
  else
    let proc := Path.basename path in
    let proc_key := lower proc in
    let name_guess := splitext_base proc in
    let c := setdefault_games (cfg st) in
    let gs := cfg_games c in
    match games_get proc_key gs with
    | None =>
        let gs1 := games_set proc_key
                     (mk_profile name_guess proc DEFAULT_WIDTH DEFAULT_HEIGHT 144
                        (Path.join IMAGES_DIR (_safe_filename proc_key +:+ ".png"))
                        (JStr path) "manual") gs in
        let c1 := set_games gs1 c in
        let st1 := with_file (save_config c1) (with_cfg c1 st) in
        let u1 := _refresh_game_list st1 u in
        let u2 := with_game_var (default (game_var u1) (_proc_to_display u1 !! proc_key)) u1 in
        let u3 := _load_selected_game_into_fields st1 u2 in
        (add_log ("Manuell hinzugefügt: " +:+ name_guess +:+ " (" +:+ proc +:+ ")")
           (_set_status_msg "Spiel hinzugefügt." st1), u3)
    | Some g =>
        let st1 :=
          if truthy_get (g !! "exe_path") then with_cfg c st
          else
            let g1 := <["exe_path" := JStr path]> g in
            let g2 := <["source" := source_or_manual g1]> g1 in
            let c1 := set_games (games_set proc_key g2 gs) c in
            with_file (save_config c1) (with_cfg c1 st) in
        (add_log ("Manuell: schon vorhanden (" +:+ proc +:+ ")")
           (_set_status_msg "Spiel existiert bereits." st1), u)
    end.

(** The conversions of [test_resolution_7s]; a negative rate is not
    refused here. *)
Definition parse_test_fields (w_var h_var r_var : string) : string + (Z * Z * Z) :=
  match _parse_int w_var "Breite" with
  | inl msg => inl msg
  | inr w =>
      match _parse_int h_var "Höhe" with
      | inl msg => inl msg
      | inr h =>
          let r_text := str_or (strip r_var) "0" in
          match int_of_str r_text with
          | None => inl (int_literal_error r_text)
          | Some r => inr (w, h, r)
          end
      end
  end.

(** [test_resolution_7s], with what its worker thread does; the seven
    seconds between the two calls are not modelled. *)
Definition test_resolution_7s (proc_key : option string) (w_var h_var r_var : string)
  : AM unit :=
  match parse_test_fields w_var h_var r_var with
  | inl msg => modify (_set_status_msg msg)
  | inr (w, h, r) =>
      st ← get;
      let game_name :=
        match proc_key with
        | Some k =>
            if String.eqb k "" then "Spiel"
            else match games_get k (cfg_games (cfg st)) with
                 | Some g => py_str (default (JStr "Spiel") (g !! "name"))
                 | None => "Spiel"
                 end
        | None => "Spiel"
        end in
      res ← lift_display (set_resolution w h (if 0 <? r then Some r else None));
      if negb res.1 then
        modify (_set_status_msg res.2);;
        modify (add_log ("Test fehlgeschlagen: " +:+ res.2))
      else
        modify (_set_status_msg ("Teste " +:+ game_name +:+ ": " +:+ str_of_int w +:+ "×"
                                 +:+ str_of_int h +:+ " für 7s …"));;
        modify (add_log ("Test gestartet: " +:+ game_name +:+ " -> " +:+ str_of_int w
                         +:+ "x" +:+ str_of_int h +:+ hz_suffix r));;
        lift_display (set_resolution DEFAULT_WIDTH DEFAULT_HEIGHT None);;
        modify (_set_status_msg "Test beendet: zurück auf 1920×1080.");;
        modify (add_log "Test beendet: zurück auf 1920x1080.")
  end.

(** [on_close]: the baseline is requested, and an exception of the
    request is dropped. *)
Definition on_close : AM unit := fun os st =>
  match lift_display (set_resolution DEFAULT_WIDTH DEFAULT_HEIGHT None) os st with
  | (_, st') => (Ok tt, st')
  end.

End App2.

(** ** Predicates used in the further statements *)

Module Spec2.
Import Py Text Config Display Discovery App Spec Discovery2 App2.

(** The process of an entry is among the running ones. *)
Definition entry_runs (running : gset string) (kg : string * profile) : bool :=
  bool_decide (lower (py_str (default (JStr kg.1) (kg.2 !! "process"))) ∈ running).

(** The request for the baseline mode. *)
Definition baseline_call : Z * Z * option Z := (DEFAULT_WIDTH, DEFAULT_HEIGHT, None).

(** A request the loop may make with the store [gs]: the baseline, or the
    mode of an entry that the apply step finds. *)
Definition allowed_call (gs : store) (m : Z * Z * option Z) : Prop :=
  m = baseline_call
  \/ exists k g, lookup_profile gs k = Some g /\ profile_mode g = Some m.

(** The key applied last describes the last request made: without a key,
    nothing was requested or the baseline was requested last; with a key,
    the mode of its entry was requested last. *)
Definition in_sync (st : app) : Prop :=
  match last_applied_process st with
  | None =>
      apply_calls (trace st) = [] \/ last (apply_calls (trace st)) = Some baseline_call
  | Some k =>
      exists g m, lookup_profile (cfg_games (cfg st)) k = Some g
                  /\ profile_mode g = Some m
                  /\ last (apply_calls (trace st)) = Some m
  end.

(** Every entry of the store has a width, a height and a refresh rate
    that [int] accepts (or lacks them). *)
Definition store_readable (gs : store) : Prop :=
  Forall (fun kg : string * profile => profile_mode kg.2 <> None) gs.

(** No two entries have the same key, as in a dictionary. *)
Definition keys_unique (gs : store) : Prop := NoDup (map fst gs).

(** The key under which a discovered game is stored. *)
Definition process_key (g : Candidate.t) : string := lower (Candidate.process g).

(** [g] occurs in [found], and no game before it has its key. *)
Definition first_of_its_key (found : list Candidate.t) (g : Candidate.t) : Prop :=
  exists l0 l1, found = l0 ++ g :: l1
                /\ Forall (fun x => process_key x <> process_key g) l0.

(** The store has taken in the discovered game [c]: its key is empty, or
    the entry of its key has an [exe_path] and a [source] wherever [c]
    could give one. *)
Definition absorbed (gs : store) (c : Candidate.t) : Prop :=
  process_key c = ""
  \/ exists p, games_get (process_key c) gs = Some p
       /\ (truthy_get (p !! "exe_path") = true \/ Candidate.exe_path c = "")
       /\ (truthy_get (p !! "source") = true \/ Candidate.source c = "").

(** Every entry of [gs] is in [gs'], with [exe_path] and [source] still
    set where they were. *)
Definition grows (gs gs' : store) : Prop :=
  forall k p, games_get k gs = Some p ->
    exists p', games_get k gs' = Some p'
      /\ (truthy_get (p !! "exe_path") = true -> truthy_get (p' !! "exe_path") = true)
      /\ (truthy_get (p !! "source") = true -> truthy_get (p' !! "source") = true).

(** A discovered game whose path ends in [.exe], in any case of the
    letters, and whose process is the file name of that path. *)
Definition exe_candidate (c : Candidate.t) : Prop :=
  endswith (lower (Candidate.exe_path c)) ".exe" = true
  /\ Candidate.process c = Path.basename (Candidate.exe_path c).

(** A line of [tasklist] output in CSV form, for a process whose image
    name has capital letters. *)
Definition quoted (s : string) : string :=
  String Discovery.double_quote (s +:+ String Discovery.double_quote "").

Definition tasklist_sample : string :=
  quoted "CS2.exe" +:+ "," +:+ quoted "4711" +:+ "," +:+ quoted "Console" +:+ ","
  +:+ quoted "1" +:+ "," +:+ quoted "123.456 K" +:+ String "010" "".

(** A registry that has the Steam path of the current user, with blanks
    around it, and a file system in which that path is a directory. *)
Definition registry_with_steam : registry :=
  mkRegistry (fun _ _ => None)
    (fun root path name =>
       match root with
       | HKEY_CURRENT_USER =>
           if (String.eqb path "Software\Valve\Steam" && String.eqb name "SteamPath")%bool
           then Some " C:\Steam " else None
       | HKEY_LOCAL_MACHINE => None
       end).

Definition fs_with_steam : filesystem :=
  mkFs (fun _ => false) (fun q => if String.eqb q "C:\Steam" then Some [] else None).

(** A form on which the first preset is selected. *)
Definition ui_cs2_selected : ui :=
  mkUi "Counter-Strike 2" "" "" "" {["Counter-Strike 2" := "cs2.exe"]} ∅ [].

End Spec2.

(** * Properties *)

Import Py Config Display Discovery App Spec.

(** ** Sanity checks of the primitives *)

Example lower_mixed :
  lower "VALORANT-Win64-Shipping.exe" = "valorant-win64-shipping.exe".
Proof. reflexivity. Qed.

Example int_of_str_examples :
  int_of_str " 1_000 " = Some 1000 /\ int_of_str "-5" = Some (-5) /\
  int_of_str "12a" = None /\ int_of_str "" = None /\
  int_of_str "1__0" = None /\ int_of_str "007" = Some 7.
Proof. repeat split; reflexivity. Qed.

(** The file separator (character 28) is white space for [strip] but
    not for [int]. *)
Example int_of_str_file_separator :
  int_of_str (String "028" "1600") = None
  /\ int_of_str (strip (String "028" "1600")) = Some 1600
  /\ int_of_str (String "009" "1600 ") = Some 1600.
Proof. repeat split; reflexivity. Qed.

Example str_of_int_examples :
  str_of_int 144 = "144" /\ str_of_int (-2) = "-2" /\ str_of_int 0 = "0".
Proof. repeat split; reflexivity. Qed.

Example join_examples :
  Path.join "images" "cs2.png" = "images\cs2.png" /\
  Path.join "C:\G\" "sub" = "C:\G\sub" /\
  Path.join "C:" "sub" = "C:sub" /\
  Path.basename "C:\Games\u.exe" = "u.exe".
Proof. repeat split; reflexivity. Qed.

Example safe_filename_example : _safe_filename "  a b$$c.exe " = "a_b_c.exe".
Proof. reflexivity. Qed.

(** ** The display protocol *)

Lemma apply_calls_app (a b : list event) :
  apply_calls (a ++ b) = apply_calls a ++ apply_calls b.
Proof.
  induction a as [|ev a IH]; simpl; [reflexivity|].
  destruct ev; simpl; rewrite IH; reflexivity.
Qed.

(** What [set_resolution] does, by the answers of the operating system. *)
Lemma set_resolution_unfold (os : native) (tr : list event) (w h : Z) (r : option Z) :
  set_resolution w h r os tr =
  let tr0 := tr ++ [SetResolution w h r] in
  match enum_display os tr0 with
  | None => (Raised (OSError "EnumDisplaySettingsW failed"), tr0 ++ [EnumDisplaySettingsW])
  | Some dm0 =>
      let dm := requested_mode dm0 w h r in
      let tr1 := tr0 ++ [EnumDisplaySettingsW] in
      let tr2 := tr1 ++ [ChangeDisplaySettingsW dm CDS_TEST] in
      if negb (change_display os tr1 dm CDS_TEST =? 0)
      then (Ok (false, msg_test (change_display os tr1 dm CDS_TEST)), tr2)
      else
        let tr3 := tr2 ++ [ChangeDisplaySettingsW dm CDS_UPDATEREGISTRY] in
        if negb (change_display os tr2 dm CDS_UPDATEREGISTRY =? 0)
        then (Ok (false, msg_apply (change_display os tr2 dm CDS_UPDATEREGISTRY)), tr3)
        else (Ok (true, "OK"), tr3)
  end.
Proof.
  unfold set_resolution, get_current_display_mode, mbind, M_bind, bind, emit,
    call_enum, call_change, ret, raise, DISP_CHANGE_SUCCESSFUL.
  cbn zeta.
  destruct (enum_display os (tr ++ [SetResolution w h r])) as [dm0|]; [|reflexivity].
  destruct (negb (change_display os _ _ CDS_TEST =? 0)); [reflexivity|].
  destruct (negb (change_display os _ _ CDS_UPDATEREGISTRY =? 0)); reflexivity.
Qed.

(** Every call of [set_resolution] adds itself, and nothing else, to the
    apply calls of the trace, whatever the operating system answers. *)
Lemma set_resolution_apply_calls (os : native) (tr : list event) (w h : Z) (r : option Z) :
  apply_calls (set_resolution w h r os tr).2 = apply_calls tr ++ [(w, h, r)].
Proof.
  rewrite set_resolution_unfold. cbn zeta.
  destruct (enum_display os _) as [dm0|]; simpl.
  - destruct (negb _); simpl.
    + rewrite !apply_calls_app. simpl. rewrite !app_nil_r. reflexivity.
    + destruct (negb _); simpl; rewrite !apply_calls_app; simpl;
        rewrite !app_nil_r; reflexivity.
  - rewrite !apply_calls_app. simpl. rewrite !app_nil_r. reflexivity.
Qed.

(** C3: [set_resolution] tests before it applies.  When the mode query
    succeeds: a nonzero status of the test call gives failure with a
    message that carries this status, and the trace ends with the test
    call, so the apply-and-persist call is not made; a zero test status
    and a nonzero apply status give failure with a message that carries
    the apply status; two zero statuses give success. *)
Theorem set_resolution_two_phase (os : native) (tr : list event) (w h : Z)
    (r : option Z) (dm0 : DEVMODEW) :
  enum_display os (tr ++ [SetResolution w h r]) = Some dm0 ->
  let dm := requested_mode dm0 w h r in
  let tr1 := tr ++ [SetResolution w h r; EnumDisplaySettingsW] in
  let tr2 := tr1 ++ [ChangeDisplaySettingsW dm CDS_TEST] in
  let res_test := change_display os tr1 dm CDS_TEST in
  let res_apply := change_display os tr2 dm CDS_UPDATEREGISTRY in
  (res_test <> 0 ->
     set_resolution w h r os tr =
       (Ok (false, "Windows konnte die Auflösung nicht testen (Code "
                   +:+ str_of_int res_test +:+ ")."),
        tr ++ [SetResolution w h r; EnumDisplaySettingsW;
               ChangeDisplaySettingsW dm CDS_TEST])
     /\ existsb is_persist_call
          [SetResolution w h r; EnumDisplaySettingsW;
           ChangeDisplaySettingsW dm CDS_TEST] = false)
  /\ (res_test = 0 -> res_apply <> 0 ->
     set_resolution w h r os tr =
       (Ok (false, "Windows konnte die Auflösung nicht setzen (Code "
                   +:+ str_of_int res_apply +:+ ")."),
        tr2 ++ [ChangeDisplaySettingsW dm CDS_UPDATEREGISTRY]))
  /\ (res_test = 0 -> res_apply = 0 ->
     set_resolution w h r os tr =
       (Ok (true, "OK"), tr2 ++ [ChangeDisplaySettingsW dm CDS_UPDATEREGISTRY])).
Proof.
  intros Henum dm tr1 tr2 res_test res_apply.
  assert (Htr1 : (tr ++ [SetResolution w h r]) ++ [EnumDisplaySettingsW] = tr1).
  { unfold tr1. rewrite <- app_assoc. reflexivity. }
  rewrite set_resolution_unfold. cbn zeta. rewrite Henum, Htr1.
  fold dm. fold tr2. fold res_test. fold res_apply.
  split; [|split].
  - intros Hne. apply Z.eqb_neq in Hne. rewrite Hne. simpl. split; [|reflexivity].
    unfold tr2, tr1. rewrite <- app_assoc. reflexivity.
  - intros Ht Ha. apply Z.eqb_neq in Ha. rewrite Ht, Ha. reflexivity.
  - intros Ht Ha. rewrite Ht, Ha. reflexivity.
Qed.

(** ** The polling loop *)

Lemma watch_loop_nil (os : native) (st : app) : _watch_loop [] os st = (Ok tt, st).
Proof. reflexivity. Qed.

Lemma watch_loop_cons (running : gset string) (rest : list (gset string))
    (os : native) (st : app) :
  _watch_loop (running :: rest) os st =
  match tick running os st with
  | (Ok _, st') => _watch_loop rest os st'
  | (Raised e, st') => (Raised e, st')
  end.
Proof.
  simpl. unfold mbind at 1, AM_bind.
  destruct (tick running os st) as [[[]|e] st']; reflexivity.
Qed.

Lemma tick_unfold (running : gset string) (os : native) (st : app) :
  tick running os st =
  let pk := _find_active_game (cfg_games (cfg st)) running in
  match _apply_game_resolution_if_needed pk os (count_tick st) with
  | (Ok _, st') =>
      (Ok tt, if decide (pk = active_process st') then st' else with_active pk st')
  | (Raised e, st') => (Raised e, st')
  end.
Proof.
  unfold tick, mbind, AM_bind, modify, get, mret, AM_ret. cbn zeta. simpl.
  destruct (_apply_game_resolution_if_needed _ os (count_tick st)) as [[[]|e] st'];
    [|reflexivity].
  destruct (decide _); reflexivity.
Qed.

(** The guard: nothing happens when the key is the one applied last. *)
Lemma apply_same (pk : option string) (os : native) (st : app) :
  pk = last_applied_process st ->
  _apply_game_resolution_if_needed pk os st = (Ok tt, st).
Proof.
  intros ->. unfold _apply_game_resolution_if_needed, mbind, AM_bind, get.
  destruct (decide _) as [_|Hne]; [reflexivity|congruence].
Qed.

(** No game runs any more: back to the baseline. *)
Lemma apply_baseline (k : string) (os : native) (st : app) :
  last_applied_process st = Some k ->
  _apply_game_resolution_if_needed None os st =
  match set_resolution DEFAULT_WIDTH DEFAULT_HEIGHT None os (trace st) with
  | (Ok _, tr) =>
      (Ok tt, with_last_applied None
                (add_log "Kein Spiel aktiv: zurück auf 1920x1080." (with_trace tr st)))
  | (Raised e, tr) => (Raised e, with_trace tr st)
  end.
Proof.
  intros Hlast.
  unfold _apply_game_resolution_if_needed, mbind, AM_bind, get, modify, lift_display,
    mret, AM_ret.
  destruct (decide _) as [Heq|_]; [congruence|]. rewrite Hlast.
  destruct (set_resolution _ _ _ os (trace st)) as [[res|e] tr]; reflexivity.
Qed.

(** The key resolves to no entry, or to an empty one: nothing happens. *)
Lemma apply_not_found (k : string) (os : native) (st : app) :
  lookup_profile (cfg_games (cfg st)) k = None ->
  _apply_game_resolution_if_needed (Some k) os st = (Ok tt, st).
Proof.
  intros Hg. unfold _apply_game_resolution_if_needed, mbind, AM_bind, get.
  destruct (decide _); [reflexivity|]. rewrite Hg. reflexivity.
Qed.

(** A game runs whose entry is found and readable: its mode is applied
    and the key is recorded, whatever [set_resolution] reports. *)
Lemma apply_profile (k : string) (g : profile) (w h : Z) (r : option Z)
    (os : native) (st : app) :
  Some k <> last_applied_process st ->
  lookup_profile (cfg_games (cfg st)) k = Some g ->
  profile_mode g = Some (w, h, r) ->
  exists line,
  _apply_game_resolution_if_needed (Some k) os st =
  match set_resolution w h r os (trace st) with
  | (Ok _, tr) => (Ok tt, add_log line (with_last_applied (Some k) (with_trace tr st)))
  | (Raised e, tr) => (Raised e, with_trace tr st)
  end.
Proof.
  intros Hne Hg Hmode. unfold profile_mode in Hmode.
  destruct (py_int (default (JInt DEFAULT_WIDTH) (g !! "width"))) as [w0|] eqn:Hw;
    [|discriminate].
  destruct (py_int (default (JInt DEFAULT_HEIGHT) (g !! "height"))) as [h0|] eqn:Hh;
    [|discriminate].
  destruct (py_int (default (JInt 0) (g !! "refresh_hz"))) as [r0|] eqn:Hr;
    [|discriminate].
  injection Hmode as -> -> <-.
  eexists.
  unfold _apply_game_resolution_if_needed, mbind, AM_bind, get, modify, lift_display,
    lift_outcome, mret, AM_ret.
  destruct (decide _) as [Heq|_]; [congruence|]. rewrite Hg, Hw, Hh, Hr.
  destruct (set_resolution _ _ _ os (trace st)) as [[res|e] tr]; reflexivity.
Qed.

Lemma default_finds_nothing : _find_active_game (cfg_games default_config) ∅ = None.
Proof. vm_compute. reflexivity. Qed.

Lemma default_finds_cs2 :
  _find_active_game (cfg_games default_config) {["cs2.exe"]} = Some "cs2.exe".
Proof. vm_compute. reflexivity. Qed.

Lemma default_cs2_mode :
  exists g, lookup_profile (cfg_games default_config) "cs2.exe" = Some g
            /\ profile_mode g = Some (1440, 1080, Some 144).
Proof. eexists. split; vm_compute; reflexivity. Qed.

(** C1: with the seeded store, no applied profile, and the process sets
    {} , {cs2.exe}, {} on three ticks, the loop issues no apply call on
    tick 1, the call (1440, 1080, 144) on tick 2, and, when it gets to
    tick 3, the baseline call (1920, 1080, no rate) there, whatever the
    operating system answers. *)
Theorem scenario_cs2_apply_sequence (os : native) (d : document) :
  let st0 := init default_config d in
  let run snaps := (_watch_loop snaps os st0).2 in
  apply_calls (trace (run [∅])) = []
  /\ apply_calls (trace (run [∅; {["cs2.exe"]}])) = [(1440, 1080, Some 144)]
  /\ (ticks (run [∅; {["cs2.exe"]}; ∅]) = 3%nat ->
      apply_calls (trace (run [∅; {["cs2.exe"]}; ∅]))
      = [(1440, 1080, Some 144); (1920, 1080, None)]).
Proof.
  intros st0 run.
  (* tick 1 *)
  assert (H1 : tick ∅ os st0 = (Ok tt, count_tick st0)).
  { rewrite tick_unfold. cbn zeta.
    change (cfg st0) with default_config. rewrite default_finds_nothing.
    rewrite apply_same by reflexivity. reflexivity. }
  (* tick 2 *)
  destruct default_cs2_mode as (g & Hg & Hmode).
  destruct (apply_profile "cs2.exe" g 1440 1080 (Some 144) os (count_tick (count_tick st0)))
    as [line Happly]; [discriminate|exact Hg|exact Hmode|].
  assert (H2 : tick {["cs2.exe"]} os (count_tick st0) =
    match set_resolution 1440 1080 (Some 144) os [] with
    | (Ok _, tr) =>
        (Ok tt, with_active (Some "cs2.exe")
                  (add_log line (with_last_applied (Some "cs2.exe")
                     (with_trace tr (count_tick (count_tick st0))))))
    | (Raised e, tr) => (Raised e, with_trace tr (count_tick (count_tick st0)))
    end).
  { rewrite tick_unfold. cbn zeta.
    change (cfg (count_tick st0)) with default_config. rewrite default_finds_cs2.
    rewrite Happly. change (trace (count_tick (count_tick st0))) with (@nil event).
    destruct (set_resolution 1440 1080 (Some 144) os []) as [[res|e] tr]; reflexivity. }
  pose proof (set_resolution_apply_calls os [] 1440 1080 (Some 144)) as Hcalls2.
  split; [|split].
  - unfold run. rewrite watch_loop_cons, H1, watch_loop_nil. reflexivity.
  - unfold run. rewrite watch_loop_cons, H1, watch_loop_cons, H2.
    destruct (set_resolution 1440 1080 (Some 144) os []) as [[res|e] tr];
      [rewrite watch_loop_nil|]; exact Hcalls2.
  - unfold run. rewrite watch_loop_cons, H1, watch_loop_cons, H2.
    destruct (set_resolution 1440 1080 (Some 144) os []) as [[res|e] tr];
      [|intros Hticks; discriminate Hticks].
    simpl in Hcalls2.
    rewrite watch_loop_cons, tick_unfold. cbn zeta.
    match goal with
    | |- context [_find_active_game ?gs ∅] =>
        change (_find_active_game gs ∅)
          with (_find_active_game (cfg_games default_config) ∅)
    end.
    rewrite default_finds_nothing.
    rewrite (apply_baseline "cs2.exe") by reflexivity.
    match goal with
    | |- context [set_resolution ?w ?h None os ?t] =>
        change t with tr;
        pose proof (set_resolution_apply_calls os tr w h None) as Hcalls3;
        destruct (set_resolution w h None os tr) as [[res3|e3] tr3]
    end; intros _; simpl in Hcalls3 |- *; rewrite Hcalls3, Hcalls2; reflexivity.
Qed.

(** The scenario with an operating system that accepts every mode. *)
Lemma scenario_cs2_apply_sequence_witness :
  apply_calls (trace (_watch_loop [∅; {["cs2.exe"]}; ∅] os_accepting
                        (init default_config NoFile)).2)
  = [(1440, 1080, Some 144); (1920, 1080, None)].
Proof.
  apply (proj2 (proj2 (scenario_cs2_apply_sequence os_accepting NoFile))).
  vm_compute. reflexivity.
Defined.

(** The guard, for a whole tick: when the matched key is the key applied
    last, the tick calls nothing and keeps that key. *)
Lemma tick_guard (running : gset string) (os : native) (st : app) :
  _find_active_game (cfg_games (cfg st)) running = last_applied_process st ->
  exists st', tick running os st = (Ok tt, st')
    /\ trace st' = trace st
    /\ last_applied_process st' = last_applied_process st
    /\ cfg st' = cfg st.
Proof.
  intros Hsame. rewrite tick_unfold. cbn zeta.
  rewrite apply_same by (rewrite Hsame; reflexivity).
  eexists. split; [reflexivity|].
  destruct (decide _); repeat split; reflexivity.
Qed.

Lemma watch_loop_guard (k : string) (os : native) (later : list (gset string)) :
  forall st : app,
  last_applied_process st = Some k ->
  Forall (fun running => _find_active_game (cfg_games (cfg st)) running = Some k) later ->
  exists st', _watch_loop later os st = (Ok tt, st')
    /\ trace st' = trace st
    /\ last_applied_process st' = Some k.
Proof.
  induction later as [|running later IH]; intros st Hlast Hall.
  - exists st. split; [apply watch_loop_nil|]. split; [reflexivity|exact Hlast].
  - inversion Hall as [|? ? Hrun Hrest]; subst.
    destruct (tick_guard running os st) as (st1 & Htick & Htr & Hl & Hcfg).
    { rewrite Hrun, Hlast. reflexivity. }
    destruct (IH st1) as (st' & Hloop & Htr' & Hl').
    { rewrite Hl. exact Hlast. }
    { rewrite Hcfg. exact Hrest. }
    exists st'. rewrite watch_loop_cons, Htick. split; [exact Hloop|]. split.
    + rewrite Htr'. exact Htr.
    + exact Hl'.
Qed.

(** C2, amended: on a tick that matches a key [k] under which the store
    holds an entry that is not empty and whose width, height and refresh
    rate [int] accepts, and on which [set_resolution] returns, the loop
    has [k] as the key applied last afterwards, whatever [set_resolution]
    reports ([ok] may be [false]); and over all later ticks that match
    [k] again no further apply call is made.  In all, the ticks add the
    events of one call of [set_resolution] to the trace when [k] was not
    the key applied last before, and nothing when it was. *)
Theorem failed_apply_not_retried (os : native) (st : app) (running : gset string)
    (later : list (gset string)) (k : string) (g : profile) (w h : Z) (r : option Z)
    (ok : bool) (msg : string) (tr' : list event) :
  _find_active_game (cfg_games (cfg st)) running = Some k ->
  lookup_profile (cfg_games (cfg st)) k = Some g ->
  profile_mode g = Some (w, h, r) ->
  set_resolution w h r os (trace st) = (Ok (ok, msg), tr') ->
  Forall (fun running' => _find_active_game (cfg_games (cfg st)) running' = Some k) later ->
  exists st',
    _watch_loop (running :: later) os st = (Ok tt, st')
    /\ last_applied_process st' = Some k
    /\ trace st' = (if decide (Some k = last_applied_process st) then trace st else tr')
    /\ apply_calls (trace st')
       = apply_calls (trace st)
         ++ (if decide (Some k = last_applied_process st) then [] else [(w, h, r)]).
Proof.
  intros Hfind Hg Hmode Hset Hlater.
  assert (Htick : exists st2, tick running os st = (Ok tt, st2)
            /\ last_applied_process st2 = Some k /\ cfg st2 = cfg st
            /\ trace st2 = (if decide (Some k = last_applied_process st)
                            then trace st else tr')).
  { destruct (decide (Some k = last_applied_process st)) as [Hsame|Hne].
    - destruct (tick_guard running os st) as (st2 & Ht & Htr & Hl & Hcfg).
      { rewrite Hfind. exact Hsame. }
      exists st2. rewrite Hl, <- Hsame. auto.
    - destruct (apply_profile k g w h r os (count_tick st) Hne Hg Hmode) as [line Happly].
      change (trace (count_tick st)) with (trace st) in Happly. rewrite Hset in Happly.
      eexists. split; [rewrite tick_unfold; cbn zeta; rewrite Hfind, Happly; reflexivity|].
      destruct (decide _); repeat split; reflexivity. }
  destruct Htick as (st2 & Htick & Hl2 & Hcfg2 & Htr2).
  destruct (watch_loop_guard k os later st2 Hl2) as (st' & Hloop & Htr & Hl).
  { rewrite Hcfg2. exact Hlater. }
  exists st'. rewrite watch_loop_cons, Htick.
  split; [exact Hloop|]. split; [exact Hl|]. split.
  - rewrite Htr. exact Htr2.
  - rewrite Htr, Htr2. destruct (decide _).
    + rewrite app_nil_r. reflexivity.
    + pose proof (set_resolution_apply_calls os (trace st) w h r) as Hc.
      rewrite Hset in Hc. exact Hc.
Qed.

(** ** The store *)

Lemma games_get_set_eq (k : string) (g : profile) (gs : store) :
  games_get k (games_set k g gs) = Some g.
Proof.
  induction gs as [|[k' g'] gs IH]; simpl.
  - rewrite String.eqb_refl. reflexivity.
  - destruct (String.eqb_spec k' k) as [->|Hne]; simpl.
    + rewrite String.eqb_refl. reflexivity.
    + destruct (String.eqb_spec k' k); [contradiction|exact IH].
Qed.

Lemma games_get_set_ne (k k' : string) (g : profile) (gs : store) :
  k <> k' -> games_get k (games_set k' g gs) = games_get k gs.
Proof.
  intros Hne. induction gs as [|[k0 g0] gs IH]; simpl.
  - destruct (String.eqb_spec k' k); [congruence|reflexivity].
  - destruct (String.eqb_spec k0 k') as [->|Hne0]; simpl.
    + destruct (String.eqb_spec k' k); [congruence|reflexivity].
    + destruct (String.eqb_spec k0 k); [reflexivity|exact IH].
Qed.

Lemma games_set_same (k : string) (g : profile) (gs : store) :
  games_get k gs = Some g -> games_set k g gs = gs.
Proof.
  induction gs as [|[k0 g0] gs IH]; simpl; [discriminate|].
  destruct (String.eqb_spec k0 k) as [->|Hne].
  - intros [= ->]. reflexivity.
  - intros H. rewrite IH by exact H. reflexivity.
Qed.

Lemma games_mem_true (k : string) (gs : store) :
  games_mem k gs = true -> exists p, games_get k gs = Some p.
Proof.
  unfold games_mem. destruct (games_get k gs) as [p|]; [eauto|discriminate].
Qed.

(** C10, amended: in a store whose keys are all lowercase, a key that the
    active-game lookup returns is a key of the store; and when moreover no
    entry of the store is empty, the apply step finds the entry, so that
    its early return for a missing profile is not taken. *)
Theorem lowercase_keys_matched_key_in_store (gs : store) (running : gset string)
    (k : string) :
  keys_lowercase gs ->
  _find_active_game gs running = Some k ->
  (exists g, games_get k gs = Some g)
  /\ (profiles_nonempty gs -> exists g, lookup_profile gs k = Some g).
Proof.
  unfold keys_lowercase, profiles_nonempty, lookup_profile.
  induction gs as [|[k0 g0] gs IH]; intros Hlow Hfind; [discriminate|].
  inversion Hlow as [|? ? Hk0 Hlow']; subst. simpl in Hk0, Hfind |- *.
  destruct (bool_decide _) in Hfind.
  - injection Hfind as <-. rewrite Hk0, String.eqb_refl.
    split; [eauto|]. intros Hne. inversion Hne as [|? ? Hg0 _]; subst. simpl in Hg0.
    destruct (decide (g0 = ∅)); [contradiction|eauto].
  - destruct (IH Hlow' Hfind) as [[g Hg] Hnonempty].
    destruct (String.eqb_spec k0 k) as [->|Hne0].
    + split; [eauto|]. intros Hne. inversion Hne as [|? ? Hg0 _]; subst. simpl in Hg0.
      destruct (decide (g0 = ∅)); [contradiction|eauto].
    + split; [eauto|]. intros Hne. inversion Hne; subst. auto.
Qed.

(** ** The discovery merge *)

(** What one backfill does to the entry under [k]: other fields keep
    their value; the field itself keeps it, or was falsy and receives the
    non-empty [value]. *)
Lemma backfill_spec (k k' field value : string) (gs : store) (p : profile) :
  games_get k gs = Some p ->
  exists p', games_get k (backfill k' field value gs) = Some p'
    /\ (forall f, f <> field -> p' !! f = p !! f)
    /\ (p' !! field = p !! field
        \/ (k' = k /\ truthy_get (p !! field) = false /\ value <> ""
            /\ p' !! field = Some (JStr value))).
Proof.
  intros Hp. unfold backfill.
  destruct (games_get k' gs) as [q|] eqn:Hq; [|exists p; auto].
  destruct (negb (truthy_get (q !! field))) eqn:Hfalsy; simpl; [|exists p; auto].
  destruct (String.eqb_spec value "") as [->|Hval]; simpl; [exists p; auto|].
  unfold games_set_field. rewrite Hq.
  destruct (decide (k = k')) as [<-|Hne].
  - rewrite games_get_set_eq. rewrite Hq in Hp. injection Hp as ->.
    eexists. split; [reflexivity|]. split.
    + intros f Hf. apply lookup_insert_ne. congruence.
    + right. split; [reflexivity|]. split; [|split; [exact Hval|apply lookup_insert_eq]].
      apply negb_true_iff in Hfalsy. exact Hfalsy.
  - rewrite games_get_set_ne by exact Hne. exists p. auto.
Qed.

Lemma merge_one_spec (c : Candidate.t) (gs : store) (n : nat) (k : string) (p : profile) :
  games_get k gs = Some p ->
  exists p', games_get k (merge_one (gs, n) c).1 = Some p' /\ backfilled [c] k p p'.
Proof.
  intros Hp. unfold merge_one.
  assert (Hrefl : backfilled [c] k p p) by (repeat split; auto).
  destruct (String.eqb_spec (lower (Candidate.process c)) "") as [_|Hkey];
    [exists p; auto|].
  destruct (games_mem (lower (Candidate.process c)) gs) eqn:Hmem; simpl.
  - destruct (backfill_spec k (lower (Candidate.process c)) "exe_path"
                (Candidate.exe_path c) gs p Hp) as (p1 & Hp1 & Hoth1 & Hexe).
    destruct (backfill_spec k (lower (Candidate.process c)) "source"
                (Candidate.source c) _ p1 Hp1) as (p2 & Hp2 & Hoth2 & Hsrc).
    exists p2. split; [exact Hp2|]. split; [|split].
    + intros f Hf1 Hf2. rewrite Hoth2 by exact Hf2. apply Hoth1. exact Hf1.
    + rewrite Hoth2 by discriminate.
      destruct Hexe as [Hexe|(Hk & Hfalsy & Hval & Hexe)]; [left; exact Hexe|].
      right. split; [exact Hfalsy|]. exists c. simpl. auto.
    + rewrite <- (Hoth1 "source") by discriminate.
      destruct Hsrc as [Hsrc|(Hk & Hfalsy & Hval & Hsrc)]; [left; exact Hsrc|].
      right. split; [exact Hfalsy|]. exists c. simpl. auto.
  - exists p. split; [|exact Hrefl].
    rewrite games_get_set_ne; [exact Hp|]. intros ->.
    unfold games_mem in Hmem. rewrite Hp in Hmem. discriminate.
Qed.

Lemma backfilled_step (c : Candidate.t) (rest : list Candidate.t) (k : string)
    (p p1 p' : profile) :
  backfilled [c] k p p1 -> backfilled rest k p1 p' -> backfilled (c :: rest) k p p'.
Proof.
  intros (Hoth1 & Hexe1 & Hsrc1) (Hoth2 & Hexe2 & Hsrc2). split; [|split].
  - intros f Hf1 Hf2. rewrite Hoth2 by assumption. apply Hoth1; assumption.
  - destruct Hexe1 as [Hsame|(Hfalsy & c1 & Hin & Hk & Hval & Hnew)].
    + destruct Hexe2 as [Hsame2|(Hfalsy2 & c2 & Hin2 & Hk2 & Hval2 & Hnew2)].
      * left. congruence.
      * right. split; [congruence|]. exists c2. simpl. auto.
    + destruct Hexe2 as [Hsame2|(Hfalsy2 & _)].
      * right. split; [exact Hfalsy|]. exists c1.
        destruct Hin as [<-|[]]. simpl. split; [auto|]. split; [exact Hk|].
        split; [exact Hval|congruence].
      * rewrite Hnew in Hfalsy2. simpl in Hfalsy2.
        destruct (String.eqb_spec (Candidate.exe_path c1) ""); [contradiction|discriminate].
  - destruct Hsrc1 as [Hsame|(Hfalsy & c1 & Hin & Hk & Hval & Hnew)].
    + destruct Hsrc2 as [Hsame2|(Hfalsy2 & c2 & Hin2 & Hk2 & Hval2 & Hnew2)].
      * left. congruence.
      * right. split; [congruence|]. exists c2. simpl. auto.
    + destruct Hsrc2 as [Hsame2|(Hfalsy2 & _)].
      * right. split; [exact Hfalsy|]. exists c1.
        destruct Hin as [<-|[]]. simpl. split; [auto|]. split; [exact Hk|].
        split; [exact Hval|congruence].
      * rewrite Hnew in Hfalsy2. simpl in Hfalsy2.
        destruct (String.eqb_spec (Candidate.source c1) ""); [contradiction|discriminate].
Qed.

Lemma merge_fold_spec (discovered : list Candidate.t) (k : string) :
  forall (gs : store) (n : nat) (p : profile),
  games_get k gs = Some p ->
  exists p', games_get k (fold_left merge_one discovered (gs, n)).1 = Some p'
             /\ backfilled discovered k p p'.
Proof.
  induction discovered as [|c rest IH]; intros gs n p Hp; cbn [fold_left].
  - exists p. split; [exact Hp|]. repeat split; auto.
  - destruct (merge_one_spec c gs n k p Hp) as (p1 & Hp1 & Hb1).
    destruct (merge_one (gs, n) c) as [gs1 n1] eqn:Hone. simpl in Hp1.
    destruct (IH gs1 n1 p1 Hp1) as (p' & Hp' & Hb').
    exists p'. split; [exact Hp'|]. eapply backfilled_step; eassumption.
Qed.

Lemma enforce_preset_other (k key name : string) (w h : Z) (gs : store) :
  k <> key -> games_get k (enforce_preset key name w h gs) = games_get k gs.
Proof.
  intros Hne. unfold enforce_preset.
  destruct (games_get key gs); [|reflexivity].
  apply games_get_set_ne. exact Hne.
Qed.

(** What the preset step does to the entry of its key. *)
Lemma enforce_preset_spec (key name : string) (w h : Z) (gs : store) (p : profile) :
  games_get key gs = Some p ->
  exists p', games_get key (enforce_preset key name w h gs) = Some p'
    /\ is_Some (p' !! "name")
    /\ (forall f, f <> "name" -> f <> "width" -> f <> "height" -> p' !! f = p !! f)
    /\ (at_baseline p = true ->
        p' !! "width" = Some (JInt w) /\ p' !! "height" = Some (JInt h))
    /\ (at_baseline p = false ->
        p' !! "width" = p !! "width" /\ p' !! "height" = p !! "height").
Proof.
  intros Hp. unfold enforce_preset. rewrite Hp, games_get_set_eq.
  eexists. split; [reflexivity|].
  set (p1 := match p !! "name" with
             | Some _ => p
             | None => <["name" := JStr name]> p
             end).
  assert (Hname : is_Some (p1 !! "name")).
  { unfold p1. destruct (p !! "name") eqn:Hn; [rewrite Hn; eauto|].
    rewrite lookup_insert_eq. eauto. }
  assert (Hoth : forall f, f <> "name" -> p1 !! f = p !! f).
  { intros f Hf. unfold p1. destruct (p !! "name"); [reflexivity|].
    apply lookup_insert_ne. congruence. }
  assert (Hbase : at_baseline p1 = at_baseline p).
  { unfold at_baseline. rewrite !Hoth by discriminate. reflexivity. }
  fold (at_baseline p1). rewrite Hbase.
  destruct (at_baseline p) eqn:Hb.
  - split; [rewrite !lookup_insert_ne by discriminate; exact Hname|].
    split; [|split; [|discriminate]].
    + intros f Hf1 Hf2 Hf3. rewrite !lookup_insert_ne by congruence. apply Hoth, Hf1.
    + intros _. split.
      * rewrite lookup_insert_ne by discriminate. apply lookup_insert_eq.
      * apply lookup_insert_eq.
  - split; [exact Hname|]. split; [|split; [discriminate|]].
    + intros f Hf1 _ _. apply Hoth, Hf1.
    + intros _. split; apply Hoth; discriminate.
Qed.

Lemma enforce_preset_keeps_width (k key name : string) (w h n : Z) (gs : store)
    (p : profile) :
  n <> DEFAULT_WIDTH ->
  games_get k gs = Some p -> p !! "width" = Some (JInt n) ->
  exists p', games_get k (enforce_preset key name w h gs) = Some p'
             /\ p' !! "width" = Some (JInt n).
Proof.
  intros Hn Hp Hw. destruct (decide (k = key)) as [->|Hne].
  - destruct (enforce_preset_spec key name w h gs p Hp) as (p' & Hp' & _ & _ & _ & Hkeep).
    exists p'. split; [exact Hp'|]. rewrite <- Hw. apply Hkeep.
    unfold at_baseline. rewrite Hw. simpl.
    destruct (Z.eqb_spec n DEFAULT_WIDTH); [contradiction|reflexivity].
  - exists p. rewrite enforce_preset_other by exact Hne. auto.
Qed.

Lemma cfg_games_setdefault (c : config) :
  cfg_games (setdefault_games c) = cfg_games c.
Proof.
  unfold setdefault_games, cfg_games.
  destruct (games c) as [gs|] eqn:Hgs; [rewrite Hgs|]; reflexivity.
Qed.

(** The store after the whole merge step. *)
Lemma merge_config_games (discovered : list Candidate.t) (st : app) :
  cfg_games (cfg (_merge_discovered_games_into_config discovered st).2)
  = enforce_presets (merge_candidates discovered (cfg_games (cfg st))).1.
Proof.
  unfold _merge_discovered_games_into_config.
  rewrite cfg_games_setdefault.
  destruct (merge_candidates discovered (cfg_games (cfg st))) as [gs' added].
  reflexivity.
Qed.

(** C4: the merge keeps what is stored for a game that exists already.
    For every key [k] of the store, after folding in any list of
    discovered games the entry of [k] has its name, width, height,
    refresh rate and image path as before; [exe_path] and [source] are
    as before, or were falsy (unset, [null] or empty) and now hold the
    value of a discovered game with process key [k].  In particular a
    width of 1600 is still 1600 after the whole of
    [_merge_discovered_games_into_config], presets included. *)
Theorem merge_keeps_existing_profiles (discovered : list Candidate.t) (gs : store)
    (k : string) (p : profile) :
  games_get k gs = Some p ->
  (exists p', games_get k (merge_candidates discovered gs).1 = Some p'
     /\ p' !! "name" = p !! "name"
     /\ p' !! "width" = p !! "width"
     /\ p' !! "height" = p !! "height"
     /\ p' !! "refresh_hz" = p !! "refresh_hz"
     /\ p' !! "image_path" = p !! "image_path"
     /\ backfilled discovered k p p')
  /\ (p !! "width" = Some (JInt 1600) ->
      forall st : app, games (cfg st) = Some gs ->
      exists p'',
        games_get k (cfg_games (cfg (_merge_discovered_games_into_config discovered st).2))
        = Some p''
        /\ p'' !! "width" = Some (JInt 1600)).
Proof.
  intros Hp. unfold merge_candidates.
  destruct (merge_fold_spec discovered k gs O p Hp) as (p' & Hp' & Hb).
  pose proof Hb as (Hoth & _ & _).
  split.
  - exists p'. split; [exact Hp'|].
    do 5 (split; [apply Hoth; discriminate|]). exact Hb.
  - intros Hw st Hgs.
    rewrite merge_config_games. unfold cfg_games. rewrite Hgs.
    unfold merge_candidates.
    destruct (fold_left merge_one discovered (gs, O)) as [gs' added] eqn:Hfold.
    simpl in Hp' |- *. unfold enforce_presets.
    assert (Hw' : p' !! "width" = Some (JInt 1600)).
    { rewrite Hoth by discriminate. exact Hw. }
    destruct (enforce_preset_keeps_width k "cs2.exe" "Counter-Strike 2" 1440 1080 1600
                gs' p') as (p1 & Hp1 & Hw1); [discriminate|exact Hp'|exact Hw'|].
    destruct (enforce_preset_keeps_width k "valorant-win64-shipping.exe" "Valorant"
                1568 1080 1600
                (enforce_preset "cs2.exe" "Counter-Strike 2" 1440 1080 gs') p1)
      as (p2 & Hp2 & Hw2);
      [discriminate|exact Hp1|exact Hw1|].
    exists p2. split; [exact Hp2|exact Hw2].
Qed.

(** ** The preset step *)

Lemma none_or_int_spec (o : option jval) (n : Z) :
  n <> 0 -> n <> 1 -> (none_or_int o n = true <-> unset_or o n).
Proof.
  intros H0 H1. unfold unset_or.
  destruct o as [[|b|m|s]|]; simpl.
  - intuition congruence.
  - split.
    + destruct b; intros H; apply Z.eqb_eq in H; congruence.
    + intros [H|[H|H]]; discriminate.
  - split.
    + intros H. apply Z.eqb_eq in H. subst. auto.
    + intros [H|[H|H]]; try discriminate. injection H as ->. apply Z.eqb_refl.
  - split; [discriminate|]. intros [H|[H|H]]; discriminate.
  - intuition congruence.
Qed.

Lemma at_baseline_spec (p : profile) :
  at_baseline p = true <->
  unset_or (p !! "width") 1920 /\ unset_or (p !! "height") 1080.
Proof.
  unfold at_baseline. rewrite andb_true_iff.
  rewrite (none_or_int_spec _ DEFAULT_WIDTH) by discriminate.
  rewrite (none_or_int_spec _ DEFAULT_HEIGHT) by discriminate.
  reflexivity.
Qed.

Lemma settled_fixed (key name : string) (w h : Z) (gs : store) :
  settled key gs -> enforce_preset key name w h gs = gs.
Proof.
  unfold settled, enforce_preset. destruct (games_get key gs) as [p|] eqn:Hp; [|reflexivity].
  intros [[v Hname] Hbase]. rewrite Hname. fold (at_baseline p). rewrite Hbase.
  apply games_set_same. exact Hp.
Qed.

Lemma enforce_preset_settles (key name : string) (w h : Z) (gs : store) :
  w <> DEFAULT_WIDTH -> settled key (enforce_preset key name w h gs).
Proof.
  intros Hw. unfold settled.
  destruct (games_get key gs) as [p|] eqn:Hp.
  - destruct (enforce_preset_spec key name w h gs p Hp)
      as (p' & Hp' & Hname & _ & Hforced & Hkept).
    rewrite Hp'. split; [exact Hname|].
    destruct (at_baseline p) eqn:Hb.
    + destruct (Hforced eq_refl) as [Hw' _]. unfold at_baseline. rewrite Hw'. simpl.
      destruct (Z.eqb_spec w DEFAULT_WIDTH); [contradiction|reflexivity].
    + destruct (Hkept eq_refl) as [Hw' Hh']. unfold at_baseline in Hb |- *.
      rewrite Hw', Hh'. exact Hb.
  - unfold enforce_preset. rewrite Hp, Hp. exact I.
Qed.

Lemma settled_other (key key' name : string) (w h : Z) (gs : store) :
  key <> key' -> settled key gs -> settled key (enforce_preset key' name w h gs).
Proof.
  intros Hne. unfold settled. rewrite enforce_preset_other by exact Hne. auto.
Qed.

Lemma enforce_presets_idempotent (gs : store) :
  enforce_presets (enforce_presets gs) = enforce_presets gs.
Proof.
  unfold enforce_presets.
  set (gs1 := enforce_preset "cs2.exe" "Counter-Strike 2" 1440 1080 gs).
  set (gs2 := enforce_preset "valorant-win64-shipping.exe" "Valorant" 1568 1080 gs1).
  assert (Hc : settled "cs2.exe" gs2).
  { apply settled_other; [discriminate|]. apply enforce_preset_settles. discriminate. }
  assert (Hv : settled "valorant-win64-shipping.exe" gs2).
  { apply enforce_preset_settles. discriminate. }
  rewrite (settled_fixed "cs2.exe") by exact Hc.
  apply settled_fixed. exact Hv.
Qed.

(** The preset step: each of the two presets has its resolution set to
    its fixed value exactly when, before the step, its width was unset,
    [null] or 1920 and its height was unset, [null] or 1080; any other
    stored resolution stays as it is; and running the step again at once
    changes nothing. *)
Theorem presets_forced_when_unset_or_baseline (gs : store) (key : string) (w h : Z)
    (p : profile) :
  In (key, w, h) [("cs2.exe", 1440, 1080); ("valorant-win64-shipping.exe", 1568, 1080)] ->
  games_get key gs = Some p ->
  (exists p', games_get key (enforce_presets gs) = Some p'
     /\ (unset_or (p !! "width") 1920 /\ unset_or (p !! "height") 1080 ->
         p' !! "width" = Some (JInt w) /\ p' !! "height" = Some (JInt h))
     /\ (~ (unset_or (p !! "width") 1920 /\ unset_or (p !! "height") 1080) ->
         p' !! "width" = p !! "width" /\ p' !! "height" = p !! "height"))
  /\ enforce_presets (enforce_presets gs) = enforce_presets gs.
Proof.
  intros Hin Hp. split; [|apply enforce_presets_idempotent].
  assert (Hspec : exists p', games_get key (enforce_presets gs) = Some p'
            /\ (at_baseline p = true ->
                p' !! "width" = Some (JInt w) /\ p' !! "height" = Some (JInt h))
            /\ (at_baseline p = false ->
                p' !! "width" = p !! "width" /\ p' !! "height" = p !! "height")).
  { unfold enforce_presets. destruct Hin as [Heq|[Heq|[]]]; injection Heq as <- <- <-.
    - rewrite enforce_preset_other by discriminate.
      destruct (enforce_preset_spec "cs2.exe" "Counter-Strike 2" 1440 1080 gs p Hp)
        as (p' & Hp' & _ & _ & Hforced & Hkept).
      exists p'. auto.
    - assert (Hp1 : games_get "valorant-win64-shipping.exe"
                      (enforce_preset "cs2.exe" "Counter-Strike 2" 1440 1080 gs) = Some p).
      { rewrite enforce_preset_other by discriminate. exact Hp. }
      destruct (enforce_preset_spec "valorant-win64-shipping.exe" "Valorant" 1568 1080
                  _ p Hp1) as (p' & Hp' & _ & _ & Hforced & Hkept).
      exists p'. auto. }
  destruct Hspec as (p' & Hp' & Hforced & Hkept).
  exists p'. split; [exact Hp'|]. split.
  - intros Hb. apply Hforced, at_baseline_spec, Hb.
  - intros Hb. apply Hkept. destruct (at_baseline p) eqn:Hbase; [|reflexivity].
    exfalso. apply Hb, at_baseline_spec, Hbase.
Qed.

Lemma games_set_field_get (k field : string) (v : jval) (gs : store) (g : profile) :
  games_get k gs = Some g ->
  games_get k (games_set_field k field v gs) = Some (<[field := v]> g).
Proof.
  intros Hg. unfold games_set_field. rewrite Hg. apply games_get_set_eq.
Qed.

(** C8 at the failing inputs: the forcing is not a one-time seed.  When
    the user saves one of the two presets with the resolution 1920x1080,
    the edit is accepted and stored; the next merge, which runs at every
    start and on every rescan, sets the entry back to the fixed
    resolution of the preset, whatever the scan found.  The entry is
    still there afterwards, so the same happens after every such edit. *)
Theorem preset_overrides_saved_baseline (st : app) (discovered : list Candidate.t)
    (key : string) (w h r : Z) (r_var : string) (gs : store) (g : profile) :
  In (key, w, h) [("cs2.exe", 1440, 1080); ("valorant-win64-shipping.exe", 1568, 1080)] ->
  games (cfg st) = Some gs ->
  games_get key gs = Some g ->
  parse_fields "1920" "1080" r_var = inr (1920, 1080, r) ->
  let st1 := save_selected_game (Some key) "1920" "1080" r_var st in
  let st2 := (_merge_discovered_games_into_config discovered st1).2 in
  last (status_msgs st1) = Some "Gespeichert."
  /\ (exists p1, games_get key (cfg_games (cfg st1)) = Some p1
        /\ p1 !! "width" = Some (JInt 1920) /\ p1 !! "height" = Some (JInt 1080))
  /\ (exists p2, games_get key (cfg_games (cfg st2)) = Some p2
        /\ p2 !! "width" = Some (JInt w) /\ p2 !! "height" = Some (JInt h)).
Proof.
  intros Hin Hgs Hg Hparse st1 st2.
  assert (Hkey : String.eqb key "" = false).
  { destruct Hin as [Heq|[Heq|[]]]; injection Heq as <- <- <-; reflexivity. }
  assert (Hst1 : exists p1, games_get key (cfg_games (cfg st1)) = Some p1
            /\ p1 !! "width" = Some (JInt 1920) /\ p1 !! "height" = Some (JInt 1080)
            /\ last (status_msgs st1) = Some "Gespeichert.").
  { assert (Hcg : cfg_games (cfg st) = gs) by (unfold cfg_games; rewrite Hgs; reflexivity).
    subst st1. unfold save_selected_game. rewrite Hkey, cfg_games_setdefault, Hcg.
    unfold games_mem. rewrite Hg, Hparse.
    cbn [cfg status_msgs add_log _set_status_msg with_file with_cfg set_games cfg_games games].
    pose proof (games_set_field_get key "width" (JInt 1920) gs g Hg) as H1.
    pose proof (games_set_field_get key "height" (JInt 1080) _ _ H1) as H2.
    pose proof (games_set_field_get key "refresh_hz" (JInt r) _ _ H2) as H3.
    eexists. split; [exact H3|]. split; [|split].
    - rewrite lookup_insert_ne by discriminate.
      rewrite lookup_insert_ne by discriminate. apply lookup_insert_eq.
    - rewrite lookup_insert_ne by discriminate. apply lookup_insert_eq.
    - apply last_snoc. }
  destruct Hst1 as (p1 & Hp1 & Hw1 & Hh1 & Hmsg).
  split; [exact Hmsg|]. split; [exists p1; auto|].
  subst st2. rewrite merge_config_games. unfold merge_candidates.
  destruct (merge_fold_spec discovered key (cfg_games (cfg st1)) O p1 Hp1)
    as (p' & Hp' & Hoth & _).
  destruct (presets_forced_when_unset_or_baseline _ key w h p' Hin Hp')
    as [(p2 & Hp2 & Hforced & _) _].
  exists p2. split; [exact Hp2|]. apply Hforced.
  rewrite !Hoth by discriminate. rewrite Hw1, Hh1.
  split; right; right; reflexivity.
Qed.

(** ** Loading the configuration *)



(** A document that is not an object and passes both membership tests is
    returned as it is, and the file keeps it. *)
Example load_config_keeps_array_of_field_names :
  load_config doc_array_of_field_names
  = (Value (VArr [JsStr "games"; JsStr "custom_scan_paths"]), doc_array_of_field_names).
Proof. reflexivity. Qed.

(** An array without the name [custom_scan_paths] refuses the item
    assignment, and a number refuses the membership test; both end in the
    handler. *)
Example load_config_resets_other_values :
  load_config (ParsedValue (VArr [JsStr "games"])) = (Cfg default_config, Parsed default_config)
  /\ load_config (ParsedValue (VNum 7)) = (Cfg default_config, Parsed default_config).
Proof. split; reflexivity. Qed.

(** ** Saving an edit *)

(** What holds of a rejected edit when the selected key is in the store:
    the store and the file stay as they are and the text of the error is
    shown. *)
Lemma save_invalid_keeps_store (k w_var h_var r_var msg : string) (st : app) :
  k <> "" ->
  games_mem k (cfg_games (cfg st)) = true ->
  parse_fields w_var h_var r_var = inl msg ->
  let st' := save_selected_game (Some k) w_var h_var r_var st in
  cfg st' = cfg st /\ file st' = file st /\ status_msgs st' = status_msgs st ++ [msg].
Proof.
  intros Hk Hmem Hparse. unfold save_selected_game.
  destruct (String.eqb_spec k ""); [contradiction|].
  rewrite cfg_games_setdefault, Hmem, Hparse. cbn.
  split; [|split; reflexivity].
  unfold set_games, setdefault_games, cfg_games in *.
  destruct (cfg st) as [paths [gs|]]; simpl in *; [reflexivity|discriminate].
Qed.

(** C9 at a failing input: the profile of cs2.exe is selected and the
    fields hold 1920, 1080 and -5.  The edit is refused and nothing is
    changed or written, but the text shown to the user is the empty
    string. *)
Theorem save_negative_refresh_blank_message :
  let st := init default_config (Parsed default_config) in
  let st' := save_selected_game (Some "cs2.exe") "1920" "1080" "-5" st in
  status_msgs st' = [""] /\ cfg st' = cfg st /\ file st' = file st.
Proof. vm_compute. repeat split. Qed.

(** For comparison, a width that is not a number is refused with a text
    that names the field and the value. *)
Example save_bad_width_message :
  status_msgs (save_selected_game (Some "cs2.exe") "abc" "1080" "60"
                 (init default_config (Parsed default_config)))
  = ["Ungültiger Wert für Breite: 'abc'"].
Proof. vm_compute. reflexivity. Qed.

(** A refused edit for a key that the store does not hold (here the store
    has the key [Foo.exe], the selection is its lowercase form) leaves a
    new entry behind. *)
Example save_invalid_adds_entry :
  let gs := [("Foo.exe", mk_profile "Foo" "Foo.exe" 1600 900 60 "images\foo.png"
                            JNull "manual")] in
  let st := init (mkConfig (Some []) (Some gs)) NoFile in
  map fst (cfg_games (cfg (save_selected_game (Some "foo.exe") "abc" "1080" "60" st)))
  = ["Foo.exe"; "foo.exe"].
Proof. vm_compute. reflexivity. Qed.

(** ** The executable picker *)

Lemma append_cons (x : ascii) (a b : string) : String x a +:+ b = String x (a +:+ b).
Proof. reflexivity. Qed.

Lemma append_assoc (a b c : string) : (a +:+ b) +:+ c = a +:+ (b +:+ c).
Proof.
  induction a as [|x a IH]; [reflexivity|].
  rewrite !append_cons, IH. reflexivity.
Qed.

Lemma append_empty_r (a : string) : a +:+ "" = a.
Proof.
  induction a as [|x a IH]; [reflexivity|]. rewrite append_cons, IH. reflexivity.
Qed.

Lemma drop_length_append (a b : string) : drop (String.length a) (a +:+ b) = b.
Proof.
  induction a as [|x a IH]; [destruct b; reflexivity|].
  rewrite append_cons. exact IH.
Qed.

Lemma last_char_cons (x : ascii) (s : string) :
  s <> "" -> last_char (String x s) = last_char s.
Proof. destruct s; [contradiction|reflexivity]. Qed.

Lemma last_char_append (a : string) (c : ascii) (b : string) :
  last_char (a +:+ String c b) = last_char (String c b).
Proof.
  induction a as [|x a IH]; [reflexivity|].
  rewrite append_cons, last_char_cons; [exact IH|].
  destruct a; discriminate.
Qed.

Lemma splitdrive_no_drive (x y : ascii) (r : string) :
  y <> ":"%char -> Path.splitdrive (String x (String y r)) = ("", String x (String y r)).
Proof.
  intros Hy. unfold Path.splitdrive.
  destruct y as [[] [] [] [] [] [] [] []]; try reflexivity.
  contradiction Hy. reflexivity.
Qed.

Lemma splitdrive_append (a b : string) :
  plain_folder a = true ->
  last_char (Path.splitdrive (a +:+ String Path.sep b)).2 = last_char (String Path.sep b).
Proof.
  unfold plain_folder. intros Hplain.
  destruct a as [|x [|y a]].
  - discriminate.
  - reflexivity.
  - rewrite !append_cons. destruct (Ascii.eqb_spec y ":") as [->|Hy].
    + change (Path.splitdrive (String x (String ":" (a +:+ String Path.sep b)))).2
        with (a +:+ String Path.sep b).
      apply last_char_append.
    + rewrite splitdrive_no_drive by exact Hy.
      apply (last_char_append (String x (String y a))).
Qed.

Lemma join_plain (a b : string) :
  plain_folder a = true -> Path.join a b = a +:+ String Path.sep b.
Proof.
  unfold plain_folder, Path.join. destruct (last_char _) as [c|]; [|discriminate].
  destruct (Path.is_sep c); [discriminate|reflexivity].
Qed.

Lemma plain_folder_append (a b : string) (c : ascii) :
  plain_folder a = true -> last_char (String Path.sep b) = Some c -> Path.is_sep c = false ->
  plain_folder (a +:+ String Path.sep b) = true.
Proof.
  intros Ha Hb Hc. unfold plain_folder. rewrite splitdrive_append by exact Ha.
  rewrite Hb, Hc. reflexivity.
Qed.

Lemma walk_depth_append (folder x : string) :
  walk_depth folder (folder +:+ x) = Z.of_nat (count Path.sep x).
Proof. unfold walk_depth. rewrite drop_length_append. reflexivity. Qed.

Lemma walk_depth_self (folder : string) : walk_depth folder folder = 0.
Proof.
  unfold walk_depth. rewrite <- (append_empty_r folder) at 2.
  rewrite drop_length_append. reflexivity.
Qed.

Lemma first_exe_file_no_exe (root : string) (l : list node) :
  forallb no_exe l = true -> first_exe_file root l = None.
Proof.
  induction l as [|[f|d c] l IH]; simpl; [reflexivity| |].
  - intros [Hf Hl]%andb_true_iff. apply negb_true_iff in Hf. rewrite Hf. auto.
  - intros [_ Hl]%andb_true_iff. auto.
Qed.

Lemma walk_node_no_exe (folder : string) (limit : Z) (n : node) :
  forall parent, no_exe n = true -> walk_node folder limit parent n = None.
Proof.
  induction n as [f|d children IH] using node_induction; intros parent Hn; [reflexivity|].
  cbn [walk_node no_exe] in *. unfold visit.
  destruct (_ >? _); [reflexivity|].
  rewrite first_exe_file_no_exe by exact Hn.
  generalize (Path.join parent d). intros root.
  induction children as [|x r IHr]; [reflexivity|].
  cbn [first_some forallb] in *. apply andb_true_iff in Hn as [Hx Hr].
  inversion IH as [|? ? Hx' Hr']; subst.
  rewrite Hx' by exact Hx. apply IHr; assumption.
Qed.

Lemma first_some_no_exe (folder : string) (limit : Z) (root : string) (l : list node) :
  forallb no_exe l = true -> first_some (walk_node folder limit root) l = None.
Proof.
  induction l as [|x l IH]; [reflexivity|].
  cbn [first_some forallb]. intros [Hx Hl]%andb_true_iff.
  rewrite walk_node_no_exe by exact Hx. auto.
Qed.

Lemma first_exe_file_skip (root : string) (l0 l : list node) :
  forallb no_exe l0 = true -> first_exe_file root (l0 ++ l) = first_exe_file root l.
Proof.
  induction l0 as [|[f|d c] l0 IH]; simpl; [reflexivity| |].
  - intros [Hf Hl]%andb_true_iff. apply negb_true_iff in Hf. rewrite Hf. auto.
  - intros [_ Hl]%andb_true_iff. auto.
Qed.

Lemma first_some_skip (folder : string) (limit : Z) (root : string) (l0 l : list node) :
  forallb no_exe l0 = true ->
  first_some (walk_node folder limit root) (l0 ++ l)
  = first_some (walk_node folder limit root) l.
Proof.
  induction l0 as [|x l0 IH]; [reflexivity|].
  cbn [first_some forallb List.app]. intros [Hx Hl]%andb_true_iff.
  rewrite walk_node_no_exe by exact Hx. auto.
Qed.

(** A directory on the way to the executable: within the limit, the walk
    goes on in the subdirectory that leads to it. *)
Lemma visit_descend (folder : string) (limit : Z) (root d : string)
    (l0 c l1 : list node) :
  forallb no_exe l0 = true -> forallb no_exe l1 = true ->
  visit (walk_node folder limit) folder limit root (l0 ++ Dir d c :: l1)
  = if walk_depth folder root >? limit then None
    else visit (walk_node folder limit) folder limit (Path.join root d) c.
Proof.
  intros H0 H1. unfold visit at 1. destruct (_ >? _); [reflexivity|].
  rewrite first_exe_file_skip by exact H0. cbn [first_exe_file].
  rewrite first_exe_file_no_exe by exact H1.
  rewrite first_some_skip by exact H0. cbn [first_some walk_node].
  destruct (visit _ _ _ _ c); [reflexivity|].
  apply first_some_no_exe. exact H1.
Qed.

(** The directory of the executable. *)
Lemma visit_found (folder : string) (limit : Z) (root exe : string)
    (l0 l1 : list node) :
  forallb no_exe l0 = true -> is_exe_name exe = true ->
  visit (walk_node folder limit) folder limit root (l0 ++ File exe :: l1)
  = if walk_depth folder root >? limit then None
    else Some (Path.join root exe).
Proof.
  intros H0 Hexe. unfold visit. destruct (_ >? _); [reflexivity|].
  rewrite first_exe_file_skip by exact H0. cbn [first_exe_file].
  rewrite Hexe. reflexivity.
Qed.

(** The depth bound on a path that does not end in a separator: for a
    folder whose only executable is sub/deep/deep2/game.exe (other files
    and directories may be there, none of them holding an executable),
    [_pick_exe_in_folder] finds nothing with depth limit 2 and returns the
    path of the executable with depth limit 3. *)
Theorem pick_exe_depth_limit (fs : filesystem) (folder : string)
    (children : list node) :
  dir_at fs folder = Some children ->
  only_exe_at ["sub"; "deep"; "deep2"] "game.exe" children ->
  plain_folder folder = true ->
  _pick_exe_in_folder fs folder 2 = None
  /\ _pick_exe_in_folder fs folder 3 = Some (folder +:+ "\sub\deep\deep2\game.exe").
Proof.
  intros Hdir Honly Hplain.
  destruct Honly as (l0 & c1 & l1 & -> & Hl0 & Hl1 & Honly).
  destruct Honly as (m0 & c2 & m1 & -> & Hm0 & Hm1 & Honly).
  destruct Honly as (n0 & c3 & n1 & -> & Hn0 & Hn1 & Honly).
  destruct Honly as (q0 & q1 & -> & Hexe & Hq0 & Hq1).
  assert (Hne : String.eqb folder "" = false) by (destruct folder; [discriminate|reflexivity]).
  assert (H1 : Path.join folder "sub" = folder +:+ "\sub") by (apply join_plain, Hplain).
  assert (P1 : plain_folder (folder +:+ "\sub") = true).
  { eapply plain_folder_append; [exact Hplain|reflexivity|reflexivity]. }
  assert (H2 : Path.join (folder +:+ "\sub") "deep" = folder +:+ "\sub\deep").
  { rewrite join_plain by exact P1. rewrite append_assoc. reflexivity. }
  assert (P2 : plain_folder (folder +:+ "\sub\deep") = true).
  { eapply plain_folder_append; [exact Hplain|reflexivity|reflexivity]. }
  assert (H3 : Path.join (folder +:+ "\sub\deep") "deep2" = folder +:+ "\sub\deep\deep2").
  { rewrite join_plain by exact P2. rewrite append_assoc. reflexivity. }
  assert (P3 : plain_folder (folder +:+ "\sub\deep\deep2") = true).
  { eapply plain_folder_append; [exact Hplain|reflexivity|reflexivity]. }
  assert (H4 : Path.join (folder +:+ "\sub\deep\deep2") "game.exe"
               = folder +:+ "\sub\deep\deep2\game.exe").
  { rewrite join_plain by exact P3. rewrite append_assoc. reflexivity. }
  assert (Hwalk : forall limit,
    _pick_exe_in_folder fs folder limit =
    if 0 >? limit then None
    else if 1 >? limit then None
    else if 2 >? limit then None
    else if 3 >? limit then None
    else Some (folder +:+ "\sub\deep\deep2\game.exe")).
  { intros limit. unfold _pick_exe_in_folder. rewrite Hne, Hdir.
    rewrite first_exe_file_skip by exact Hl0. cbn [first_exe_file].
    rewrite first_exe_file_no_exe by exact Hl1.
    rewrite visit_descend by assumption. rewrite walk_depth_self, H1.
    destruct (0 >? limit); [reflexivity|].
    rewrite visit_descend by assumption. rewrite walk_depth_append, H2.
    change (Z.of_nat (count Path.sep "\sub")) with 1.
    destruct (1 >? limit); [reflexivity|].
    rewrite visit_descend by assumption. rewrite walk_depth_append, H3.
    change (Z.of_nat (count Path.sep "\sub\deep")) with 2.
    destruct (2 >? limit); [reflexivity|].
    rewrite visit_found by assumption. rewrite walk_depth_append, H4.
    change (Z.of_nat (count Path.sep "\sub\deep\deep2")) with 3.
    reflexivity. }
  rewrite !Hwalk. split; reflexivity.
Qed.

Lemma join_trailing (a b : string) : trailing_sep a = true -> Path.join a b = a +:+ b.
Proof.
  unfold trailing_sep, Path.join. destruct (last_char _) as [c|]; [|reflexivity].
  intros ->. reflexivity.
Qed.

Lemma splitdrive_append_name (a : string) (x : ascii) (r : string) :
  a <> "" -> x <> ":"%char ->
  last_char (Path.splitdrive (a +:+ String x r)).2 = last_char (String x r).
Proof.
  intros Ha Hx. destruct a as [|y [|z a]]; [contradiction| |].
  - change (String y "" +:+ String x r) with (String y (String x r)).
    rewrite splitdrive_no_drive by exact Hx. reflexivity.
  - rewrite !append_cons. destruct (Ascii.eqb_spec z ":") as [->|Hz].
    + change (Path.splitdrive (String y (String ":" (a +:+ String x r)))).2
        with (a +:+ String x r).
      apply last_char_append.
    + rewrite splitdrive_no_drive by exact Hz.
      apply (last_char_append (String y (String z a))).
Qed.

(** C6 at the failing inputs: when the path of the folder ends in a
    separator, the walk counts every level one less.  For a folder whose
    only executable is sub/deep/deep2/game.exe, [_pick_exe_in_folder]
    with depth limit 2 then returns the executable, where the claim has no
    result; only depth limit 1 finds nothing. *)
Theorem pick_exe_trailing_separator_depth (fs : filesystem) (folder : string)
    (children : list node) :
  dir_at fs folder = Some children ->
  only_exe_at ["sub"; "deep"; "deep2"] "game.exe" children ->
  trailing_sep folder = true ->
  _pick_exe_in_folder fs folder 2 = Some (folder +:+ "sub\deep\deep2\game.exe")
  /\ _pick_exe_in_folder fs folder 1 = None.
Proof.
  intros Hdir Honly Htrail.
  destruct Honly as (l0 & c1 & l1 & -> & Hl0 & Hl1 & Honly).
  destruct Honly as (m0 & c2 & m1 & -> & Hm0 & Hm1 & Honly).
  destruct Honly as (n0 & c3 & n1 & -> & Hn0 & Hn1 & Honly).
  destruct Honly as (q0 & q1 & -> & Hexe & Hq0 & Hq1).
  assert (Hne : folder <> "").
  { intros ->. discriminate Htrail. }
  assert (Hne' : String.eqb folder "" = false).
  { destruct (String.eqb_spec folder ""); [contradiction|reflexivity]. }
  assert (H1 : Path.join folder "sub" = folder +:+ "sub") by (apply join_trailing, Htrail).
  assert (P1 : plain_folder (folder +:+ "sub") = true).
  { unfold plain_folder. rewrite splitdrive_append_name by (exact Hne || discriminate).
    reflexivity. }
  assert (H2 : Path.join (folder +:+ "sub") "deep" = folder +:+ "sub\deep").
  { rewrite join_plain by exact P1. rewrite append_assoc. reflexivity. }
  assert (P2 : plain_folder (folder +:+ "sub\deep") = true).
  { change (folder +:+ "sub\deep") with (folder +:+ ("sub" +:+ "\deep")).
    rewrite <- append_assoc.
    eapply plain_folder_append; [exact P1|reflexivity|reflexivity]. }
  assert (H3 : Path.join (folder +:+ "sub\deep") "deep2" = folder +:+ "sub\deep\deep2").
  { rewrite join_plain by exact P2. rewrite append_assoc. reflexivity. }
  assert (P3 : plain_folder (folder +:+ "sub\deep\deep2") = true).
  { change (folder +:+ "sub\deep\deep2") with (folder +:+ ("sub" +:+ "\deep\deep2")).
    rewrite <- append_assoc.
    eapply plain_folder_append; [exact P1|reflexivity|reflexivity]. }
  assert (H4 : Path.join (folder +:+ "sub\deep\deep2") "game.exe"
               = folder +:+ "sub\deep\deep2\game.exe").
  { rewrite join_plain by exact P3. rewrite append_assoc. reflexivity. }
  assert (Hwalk : forall limit,
    _pick_exe_in_folder fs folder limit =
    if 0 >? limit then None
    else if 1 >? limit then None
    else if 2 >? limit then None
    else Some (folder +:+ "sub\deep\deep2\game.exe")).
  { intros limit. unfold _pick_exe_in_folder. rewrite Hne', Hdir.
    rewrite first_exe_file_skip by exact Hl0. cbn [first_exe_file].
    rewrite first_exe_file_no_exe by exact Hl1.
    rewrite visit_descend by assumption. rewrite walk_depth_self, H1.
    destruct (0 >? limit) eqn:Hroot; [reflexivity|].
    rewrite visit_descend by assumption. rewrite walk_depth_append, H2.
    change (Z.of_nat (count Path.sep "sub")) with 0. rewrite Hroot.
    rewrite visit_descend by assumption. rewrite walk_depth_append, H3.
    change (Z.of_nat (count Path.sep "sub\deep")) with 1.
    destruct (1 >? limit); [reflexivity|].
    rewrite visit_found by assumption. rewrite walk_depth_append, H4.
    change (Z.of_nat (count Path.sep "sub\deep\deep2")) with 2.
    reflexivity. }
  rewrite !Hwalk. split; reflexivity.
Qed.

(** ** The registry scanner *)

Lemma icon_path (fs : filesystem) :
  _looks_like_exe_path fs "C:\Games\u.exe,0" =
  if path_exists fs "C:\Games\u.exe" then Some "C:\Games\u.exe" else None.
Proof. reflexivity. Qed.

Lemma hay_ubisoft (x : string) :
  contains (lower ("Ubisoft Connect" +:+ " " +:+ x)) "ubisoft" = true.
Proof. reflexivity. Qed.

(** C7, amended: when the file C:\Games\u.exe exists, the entry named
    "Ubisoft Connect" with the icon string C:\Games\u.exe,0 gives one
    candidate, with executable path C:\Games\u.exe and origin ubisoft,
    whatever its other fields hold. *)
Theorem ubisoft_entry_candidate (fs : filesystem)
    (publisher install_location uninstall_string : string) :
  path_exists fs "C:\Games\u.exe" = true ->
  discover_from_uninstall_entries fs
    [ubisoft_entry publisher install_location uninstall_string]
  = [Candidate.mk "Ubisoft Connect" "C:\Games\u.exe" "u.exe" "ubisoft"].
Proof.
  intros Hex. unfold discover_from_uninstall_entries, scan_entries, ubisoft_entry.
  cbn [Entry.name Entry.publisher Entry.display_icon Entry.uninstall_string
       Entry.install_location].
  change (strip "Ubisoft Connect") with "Ubisoft Connect".
  unfold keywords. cbn [existsb]. rewrite hay_ubisoft. cbn [orb negb].
  rewrite icon_path, Hex. 
  unfold classify_source. rewrite hay_ubisoft.
  reflexivity.
Qed.

(** ** Counterexamples to the claims as stated *)

(** C7 as stated fails: when the file named by the icon string does not
    exist (and the entry names no other place to look), the scanner
    gives no candidate. *)
Lemma ubisoft_entry_without_file :
  discover_from_uninstall_entries fs_empty [ubisoft_entry "" "" ""] = [].
Proof. vm_compute. reflexivity. Qed.

(** An entry of cs2.exe without width and height is forced as well: the
    step sets it to 1440x1080. *)
Lemma preset_forced_when_resolution_unset :
  exists p p',
    games_get "cs2.exe" store_cs2_without_resolution = Some p
    /\ p !! "width" = None /\ p !! "height" = None
    /\ games_get "cs2.exe" (enforce_presets store_cs2_without_resolution) = Some p'
    /\ p' !! "width" = Some (JInt 1440) /\ p' !! "height" = Some (JInt 1080).
Proof.
  eexists. eexists. split; [reflexivity|]. split; [reflexivity|]. split; [reflexivity|].
  split; [vm_compute; reflexivity|]. split; vm_compute; reflexivity.
Qed.

(** C2 as stated fails: the process of the only entry runs and the
    lookup returns the lowercase form of its key, but the store has the
    entry under the key as written, so the apply step finds nothing and
    returns early.  Over two ticks no call is made and no key is recorded
    as applied. *)
Lemma matched_capital_key_not_recorded :
  let st := init (mkConfig (Some []) (Some store_with_capital_key)) NoFile in
  _find_active_game (cfg_games (cfg st)) {["foo.exe"]} = Some "foo.exe"
  /\ exists st',
       _watch_loop [{["foo.exe"]}; {["foo.exe"]}] os_accepting st = (Ok tt, st')
       /\ last_applied_process st' = None
       /\ apply_calls (trace st') = [].
Proof.
  split; [vm_compute; reflexivity|].
  eexists. split; [vm_compute; reflexivity|]. split; reflexivity.
Qed.

(** C10 as stated fails: the keys of this store are lowercase and the
    lookup returns one of them, but its entry is empty, so the apply step
    returns early: the tick issues no call and records no key. *)
Lemma empty_profile_takes_early_return :
  keys_lowercase store_with_empty_profile
  /\ _find_active_game store_with_empty_profile {["a.exe"]} = Some "a.exe"
  /\ lookup_profile store_with_empty_profile "a.exe" = None
  /\ trace (tick {["a.exe"]} os_accepting
              (init (mkConfig (Some []) (Some store_with_empty_profile)) NoFile)).2 = []
  /\ last_applied_process
       (tick {["a.exe"]} os_accepting
          (init (mkConfig (Some []) (Some store_with_empty_profile)) NoFile)).2 = None.
Proof.
  split; [repeat constructor|].
  split; [vm_compute; reflexivity|].
  split; [vm_compute; reflexivity|].
  split; vm_compute; reflexivity.
Qed.

(** ** The theorems at concrete inputs *)

Lemma failed_apply_not_retried_witness :
  exists st',
    _watch_loop [{["cs2.exe"]}; {["cs2.exe"]}; {["cs2.exe"]}] os_rejecting
      (init default_config NoFile) = (Ok tt, st')
    /\ last_applied_process st' = Some "cs2.exe"
    /\ apply_calls (trace st') = [(1440, 1080, Some 144)].
Proof.
  destruct default_cs2_mode as (g & Hg & Hmode).
  destruct (failed_apply_not_retried os_rejecting (init default_config NoFile)
              {["cs2.exe"]} [{["cs2.exe"]}; {["cs2.exe"]}] "cs2.exe" g
              1440 1080 (Some 144) false
              "Windows konnte die Auflösung nicht testen (Code -2)."
              [SetResolution 1440 1080 (Some 144); EnumDisplaySettingsW;
               ChangeDisplaySettingsW (mkDEVMODEW 5767168 1440 1080 144) CDS_TEST])
    as (st' & Hloop & Hlast & _ & Hcalls).
  - vm_compute. reflexivity.
  - exact Hg.
  - exact Hmode.
  - vm_compute. reflexivity.
  - repeat constructor.
  - exists st'. split; [exact Hloop|]. split; [exact Hlast|exact Hcalls].
Defined.

Lemma set_resolution_two_phase_witness :
  set_resolution 1440 1080 (Some 144) os_rejecting []
  = (Ok (false, "Windows konnte die Auflösung nicht testen (Code -2)."),
     [SetResolution 1440 1080 (Some 144); EnumDisplaySettingsW;
      ChangeDisplaySettingsW (mkDEVMODEW 5767168 1440 1080 144) CDS_TEST]).
Proof.
  destruct (set_resolution_two_phase os_rejecting [] 1440 1080 (Some 144)
              (mkDEVMODEW 0 1920 1080 60) eq_refl) as [Hrejected _].
  destruct Hrejected as [Hresult _]; [discriminate|exact Hresult].
Defined.

Lemma merge_keeps_existing_profiles_witness :
  exists p',
    games_get "cs2.exe"
      (merge_candidates [Candidate.mk "Counter-Strike 2" "C:\Steam\cs2.exe" "cs2.exe" "steam"]
         (cfg_games default_config)).1 = Some p'
    /\ p' !! "width" = Some (JInt 1440).
Proof.
  destruct default_cs2_mode as (g & Hg & _).
  unfold lookup_profile in Hg.
  destruct (games_get "cs2.exe" (cfg_games default_config)) as [p|] eqn:Hp;
    [|discriminate].
  destruct (merge_keeps_existing_profiles
              [Candidate.mk "Counter-Strike 2" "C:\Steam\cs2.exe" "cs2.exe" "steam"]
              (cfg_games default_config) "cs2.exe" p Hp)
    as [(p' & Hp' & _ & Hwidth & _) _].
  exists p'. split; [exact Hp'|]. rewrite Hwidth.
  vm_compute in Hp. injection Hp as <-. vm_compute. reflexivity.
Defined.


Lemma pick_exe_depth_limit_witness :
  _pick_exe_in_folder (fs_with_scenario_at "C:\G") "C:\G" 2 = None
  /\ _pick_exe_in_folder (fs_with_scenario_at "C:\G") "C:\G" 3
     = Some "C:\G\sub\deep\deep2\game.exe".
Proof.
  apply (pick_exe_depth_limit (fs_with_scenario_at "C:\G") "C:\G" scenario_tree).
  - reflexivity.
  - exists [], [Dir "deep" [Dir "deep2" [File "game.exe"]]], [].
    split; [reflexivity|]. split; [reflexivity|]. split; [reflexivity|].
    exists [], [Dir "deep2" [File "game.exe"]], [].
    split; [reflexivity|]. split; [reflexivity|]. split; [reflexivity|].
    exists [], [File "game.exe"], [].
    split; [reflexivity|]. split; [reflexivity|]. split; [reflexivity|].
    exists [], []. repeat split.
  - reflexivity.
Defined.

Lemma pick_exe_trailing_separator_depth_witness :
  _pick_exe_in_folder (fs_with_scenario_at "C:\G\") "C:\G\" 2
  = Some "C:\G\sub\deep\deep2\game.exe"
  /\ _pick_exe_in_folder (fs_with_scenario_at "C:\G\") "C:\G\" 1 = None.
Proof.
  apply (pick_exe_trailing_separator_depth (fs_with_scenario_at "C:\G\") "C:\G\"
           scenario_tree).
  - reflexivity.
  - exists [], [Dir "deep" [Dir "deep2" [File "game.exe"]]], [].
    split; [reflexivity|]. split; [reflexivity|]. split; [reflexivity|].
    exists [], [Dir "deep2" [File "game.exe"]], [].
    split; [reflexivity|]. split; [reflexivity|]. split; [reflexivity|].
    exists [], [File "game.exe"], [].
    split; [reflexivity|]. split; [reflexivity|]. split; [reflexivity|].
    exists [], []. repeat split.
  - reflexivity.
Defined.

Lemma ubisoft_entry_candidate_witness :
  discover_from_uninstall_entries (fs_with_file "C:\Games\u.exe")
    [ubisoft_entry "Ubisoft" "" ""]
  = [Candidate.mk "Ubisoft Connect" "C:\Games\u.exe" "u.exe" "ubisoft"].
Proof.
  apply (ubisoft_entry_candidate (fs_with_file "C:\Games\u.exe")). reflexivity.
Defined.

Lemma preset_overrides_saved_baseline_witness :
  let st := init default_config (Parsed default_config) in
  let st1 := save_selected_game (Some "cs2.exe") "1920" "1080" "144" st in
  let st2 := (_merge_discovered_games_into_config [] st1).2 in
  last (status_msgs st1) = Some "Gespeichert."
  /\ (exists p1, games_get "cs2.exe" (cfg_games (cfg st1)) = Some p1
        /\ p1 !! "width" = Some (JInt 1920) /\ p1 !! "height" = Some (JInt 1080))
  /\ (exists p2, games_get "cs2.exe" (cfg_games (cfg st2)) = Some p2
        /\ p2 !! "width" = Some (JInt 1440) /\ p2 !! "height" = Some (JInt 1080)).
Proof.
  destruct default_cs2_mode as (g & Hg & _).
  unfold lookup_profile in Hg.
  destruct (games_get "cs2.exe" (cfg_games default_config)) as [g0|] eqn:Hg0;
    [|discriminate].
  apply (preset_overrides_saved_baseline (init default_config (Parsed default_config)) []
           "cs2.exe" 1440 1080 144 "144" (cfg_games default_config) g0).
  - left. reflexivity.
  - reflexivity.
  - exact Hg0.
  - vm_compute. reflexivity.
Defined.

Lemma lowercase_keys_matched_key_in_store_witness :
  exists g, lookup_profile (cfg_games default_config) "cs2.exe" = Some g.
Proof.
  apply (lowercase_keys_matched_key_in_store (cfg_games default_config) {["cs2.exe"]}).
  - repeat constructor.
  - vm_compute. reflexivity.
  - repeat constructor; vm_compute; discriminate.
Defined.

(** * Further properties of the program *)

Import Text Version Proc Discovery2 App2.

(** ** Strings and numbers *)

Lemma lower_ascii_idempotent (c : ascii) : lower_ascii (lower_ascii c) = lower_ascii c.
Proof. destruct c as [[] [] [] [] [] [] [] []]; reflexivity. Qed.

Lemma lower_idempotent (s : string) : lower (lower s) = lower s.
Proof.
  induction s as [|c s IH]; [reflexivity|].
  cbn [lower]. rewrite lower_ascii_idempotent, IH. reflexivity.
Qed.

Lemma lower_append (a b : string) : lower (a +:+ b) = lower a +:+ lower b.
Proof.
  induction a as [|c a IH]; [reflexivity|].
  rewrite append_cons. cbn [lower]. rewrite IH. reflexivity.
Qed.

Lemma length_lower (s : string) : String.length (lower s) = String.length s.
Proof. induction s as [|c s IH]; [reflexivity|]. cbn. rewrite IH. reflexivity. Qed.

Lemma rev_acc_append (s acc : string) : rev_acc s acc = rev s +:+ acc.
Proof.
  unfold rev. revert acc. induction s as [|c s IH]; intros acc; [reflexivity|].
  cbn [rev_acc]. rewrite IH, (IH (String c "")), append_assoc. reflexivity.
Qed.

Lemma rev_cons (c : ascii) (s : string) : rev (String c s) = rev s +:+ String c "".
Proof. unfold rev at 1. cbn [rev_acc]. apply rev_acc_append. Qed.

Lemma rev_append (a b : string) : rev (a +:+ b) = rev b +:+ rev a.
Proof.
  induction a as [|c a IH].
  - change ("" +:+ b) with b. rewrite append_empty_r. reflexivity.
  - rewrite append_cons, !rev_cons, IH, append_assoc. reflexivity.
Qed.

Lemma rev_involutive (s : string) : rev (rev s) = s.
Proof.
  induction s as [|c s IH]; [reflexivity|].
  rewrite rev_cons, rev_append, IH. reflexivity.
Qed.

Lemma last_char_rev (c : ascii) (s : string) : last_char (rev (String c s)) = Some c.
Proof. rewrite rev_cons. apply (last_char_append (rev s) c ""). Qed.

Lemma lstrip_by_fixed (p : ascii -> bool) (c : ascii) (s : string) :
  p c = false -> lstrip_by p (String c s) = String c s.
Proof. intros H. cbn [lstrip_by]. rewrite H. reflexivity. Qed.

(** A string that neither begins nor ends with a character of the set is
    left as it is. *)
Lemma strip_by_fixed (p : ascii -> bool) (s : string) (a b : ascii) :
  (exists r, s = String a r) -> last_char s = Some b -> p a = false -> p b = false ->
  strip_by p s = s.
Proof.
  intros [r ->] Hlast Ha Hb. unfold strip_by.
  rewrite lstrip_by_fixed by exact Ha.
  destruct (rev (String a r)) as [|x t] eqn:Hrev.
  - apply (f_equal rev) in Hrev. rewrite rev_involutive in Hrev. discriminate.
  - assert (Hx : x = b).
    { pose proof (last_char_rev x t) as H. rewrite <- Hrev, rev_involutive in H.
      congruence. }
    subst x. rewrite lstrip_by_fixed by exact Hb.
    rewrite <- Hrev. apply rev_involutive.
Qed.

From Stdlib Require DecimalPos DecimalZ.

Lemma digit_not_space (c : ascii) : is_digit c = true -> is_space c = false.
Proof. destruct c as [[] [] [] [] [] [] [] []]; first [reflexivity | discriminate]. Qed.

Lemma digit_not_int_space (c : ascii) : is_digit c = true -> is_int_space c = false.
Proof. destruct c as [[] [] [] [] [] [] [] []]; first [reflexivity | discriminate]. Qed.

Lemma string_of_uint_head (d : Decimal.uint) :
  d <> Decimal.Nil ->
  exists c r, NilEmpty.string_of_uint d = String c r /\ is_digit c = true.
Proof. destruct d; intros H; try contradiction; eexists _, _; split; reflexivity. Qed.

Lemma uint_nil_or_not (d : Decimal.uint) : d = Decimal.Nil \/ d <> Decimal.Nil.
Proof. destruct d; [left; reflexivity|right; discriminate..]. Qed.

Lemma string_of_uint_nonempty (d : Decimal.uint) :
  d <> Decimal.Nil -> NilEmpty.string_of_uint d <> "".
Proof. destruct d; intros H; [contradiction|discriminate..]. Qed.

Lemma string_of_uint_last (d : Decimal.uint) :
  d <> Decimal.Nil ->
  exists b, last_char (NilEmpty.string_of_uint d) = Some b /\ is_digit b = true.
Proof.
  induction d as [|d IH|d IH|d IH|d IH|d IH|d IH|d IH|d IH|d IH|d IH]; intros H;
    [contradiction|..];
    (destruct (uint_nil_or_not d) as [->|Hd];
     [eexists; split; reflexivity|];
     destruct (IH Hd) as (b & Hb & Hdig); exists b; split; [|exact Hdig];
     cbn [NilEmpty.string_of_uint]; rewrite last_char_cons; [exact Hb|];
     apply string_of_uint_nonempty, Hd).
Qed.

(** One digit of [int_digits_acc]: the value read so far is brought to
    the form the induction hypothesis expects. *)
Ltac read_digit IH :=
  cbn [NilEmpty.string_of_uint int_digits Pos.of_uint_acc];
  match goal with
  | |- (if is_digit ?c then _ else _) = _ => change (is_digit c) with true; cbn iota
  end;
  match goal with
  | |- int_digits _ true ?z = Some (Z.pos (Pos.of_uint_acc _ ?a)) =>
      replace z with (Z.pos a)
        by (unfold digit_val;
            match goal with
            | |- context [Z.of_nat (nat_of_ascii ?c)] =>
                let v := eval vm_compute in (Z.of_nat (nat_of_ascii c)) in
                change (Z.of_nat (nat_of_ascii c)) with v
            end; lia);
      apply IH; reflexivity
  end.

(** Reading the digits that [Pos.to_uint] and its like print, with a
    positive value read so far. *)
Lemma int_digits_acc (d : Decimal.uint) :
  forall (acc : positive) (prev : bool),
  (d = Decimal.Nil -> prev = true) ->
  int_digits (NilEmpty.string_of_uint d) prev (Z.pos acc)
  = Some (Z.pos (Pos.of_uint_acc d acc)).
Proof.
  induction d as [|d IH|d IH|d IH|d IH|d IH|d IH|d IH|d IH|d IH|d IH];
    intros acc prev Hprev; [rewrite (Hprev eq_refl); reflexivity|..]; read_digit IH.
Qed.

Lemma int_digits_of_uint (d : Decimal.uint) :
  forall prev : bool,
  (d = Decimal.Nil -> prev = true) ->
  int_digits (NilEmpty.string_of_uint d) prev 0 = Some (Z.of_N (Pos.of_uint d)).
Proof.
  induction d as [|d IH|d IH|d IH|d IH|d IH|d IH|d IH|d IH|d IH|d IH];
    intros prev Hprev.
  - rewrite (Hprev eq_refl). reflexivity.
  - cbn [NilEmpty.string_of_uint int_digits Pos.of_uint].
    change (is_digit "0") with true. cbn iota. apply IH. reflexivity.
  - apply (int_digits_acc d 1 true). reflexivity.
  - apply (int_digits_acc d 2 true). reflexivity.
  - apply (int_digits_acc d 3 true). reflexivity.
  - apply (int_digits_acc d 4 true). reflexivity.
  - apply (int_digits_acc d 5 true). reflexivity.
  - apply (int_digits_acc d 6 true). reflexivity.
  - apply (int_digits_acc d 7 true). reflexivity.
  - apply (int_digits_acc d 8 true). reflexivity.
  - apply (int_digits_acc d 9 true). reflexivity.
Qed.

Lemma pos_to_uint_string (p : positive) :
  NilZero.string_of_uint (Pos.to_uint p) = NilEmpty.string_of_uint (Pos.to_uint p).
Proof.
  pose proof (DecimalPos.Unsigned.to_uint_nonnil p) as H.
  unfold NilZero.string_of_uint. destruct (Pos.to_uint p); [contradiction|reflexivity..].
Qed.

Lemma int_of_digit_string (d : Decimal.uint) :
  d <> Decimal.Nil ->
  int_of_str (NilEmpty.string_of_uint d) = Some (Z.of_N (Pos.of_uint d)).
Proof.
  intros Hd.
  destruct (string_of_uint_head d Hd) as (c & r & Hs & Hc).
  destruct (string_of_uint_last d Hd) as (b & Hb & Hbd).
  unfold int_of_str.
  assert (Hstrip : strip_by is_int_space (NilEmpty.string_of_uint d)
                   = NilEmpty.string_of_uint d).
  { apply (strip_by_fixed is_int_space _ c b); [eauto|exact Hb|..];
      apply digit_not_int_space; assumption. }
  rewrite Hstrip. rewrite <- (int_digits_of_uint d false) by (intros; contradiction).
  destruct d; try contradiction; reflexivity.
Qed.

Lemma int_of_minus_digit_string (d : Decimal.uint) :
  d <> Decimal.Nil ->
  int_of_str (String "-" (NilEmpty.string_of_uint d)) = Some (- Z.of_N (Pos.of_uint d)).
Proof.
  intros Hd.
  destruct (string_of_uint_last d Hd) as (b & Hb & Hbd).
  unfold int_of_str.
  assert (Hstrip : strip_by is_int_space (String "-" (NilEmpty.string_of_uint d))
                   = String "-" (NilEmpty.string_of_uint d)).
  { apply (strip_by_fixed is_int_space _ "-" b); [eauto| |reflexivity|].
    - rewrite last_char_cons; [exact Hb|]. apply string_of_uint_nonempty, Hd.
    - apply digit_not_int_space, Hbd. }
  rewrite Hstrip. rewrite (int_digits_of_uint d false) by (intros; contradiction).
  reflexivity.
Qed.

(** Printing an integer and reading it back gives the integer. *)
Lemma int_of_str_of_int (n : Z) : int_of_str (str_of_int n) = Some n.
Proof.
  unfold str_of_int. destruct n as [|p|p].
  - reflexivity.
  - cbn [Z.to_int NilZero.string_of_int]. rewrite pos_to_uint_string.
    rewrite int_of_digit_string by apply DecimalPos.Unsigned.to_uint_nonnil.
    rewrite DecimalPos.Unsigned.of_to. reflexivity.
  - cbn [Z.to_int NilZero.string_of_int]. rewrite pos_to_uint_string.
    rewrite int_of_minus_digit_string by apply DecimalPos.Unsigned.to_uint_nonnil.
    rewrite DecimalPos.Unsigned.of_to. reflexivity.
Qed.

Lemma strip_str_of_int (n : Z) : strip (str_of_int n) = str_of_int n.
Proof.
  unfold str_of_int. destruct n as [|p|p].
  - reflexivity.
  - cbn [Z.to_int NilZero.string_of_int]. rewrite pos_to_uint_string.
    pose proof (DecimalPos.Unsigned.to_uint_nonnil p) as Hd.
    destruct (string_of_uint_head _ Hd) as (c & r & Hs & Hc).
    destruct (string_of_uint_last _ Hd) as (b & Hb & Hbd).
    apply (strip_by_fixed is_space _ c b); [eauto|exact Hb|..]; apply digit_not_space;
      assumption.
  - cbn [Z.to_int NilZero.string_of_int]. rewrite pos_to_uint_string.
    pose proof (DecimalPos.Unsigned.to_uint_nonnil p) as Hd.
    destruct (string_of_uint_last _ Hd) as (b & Hb & Hbd).
    apply (strip_by_fixed is_space _ "-" b); [eauto| |reflexivity|].
    + rewrite last_char_cons; [exact Hb|]. apply string_of_uint_nonempty, Hd.
    + apply digit_not_space, Hbd.
Qed.

Lemma str_of_int_nonempty (n : Z) : str_of_int n <> "".
Proof.
  unfold str_of_int. destruct n as [|p|p]; [discriminate| |discriminate].
  cbn [Z.to_int NilZero.string_of_int]. rewrite pos_to_uint_string.
  apply string_of_uint_nonempty, DecimalPos.Unsigned.to_uint_nonnil.
Qed.

(** ** Saving an edit, continued *)

Lemma games_set_keys (k : string) (g g0 : profile) (gs : store) :
  games_get k gs = Some g0 -> map fst (games_set k g gs) = map fst gs.
Proof.
  induction gs as [|[k' g'] gs IH]; cbn [games_get games_set]; [discriminate|].
  destruct (String.eqb_spec k' k) as [->|Hne]; [reflexivity|].
  intros H. cbn [map fst]. f_equal. apply IH, H.
Qed.

Lemma games_set_keys_new (k : string) (g : profile) (gs : store) :
  games_get k gs = None -> map fst (games_set k g gs) = map fst gs ++ [k].
Proof.
  induction gs as [|[k' g'] gs IH]; cbn [games_get games_set]; [reflexivity|].
  destruct (String.eqb_spec k' k) as [->|Hne]; [discriminate|].
  intros H. cbn [map fst List.app]. f_equal. apply IH, H.
Qed.

(** What [games[k][field] = v] does, for a key that is there. *)
Lemma games_set_field_spec (k field : string) (v : jval) (gs : store) (g : profile) :
  games_get k gs = Some g ->
  games_get k (games_set_field k field v gs) = Some (<[field := v]> g)
  /\ (forall k', k' <> k -> games_get k' (games_set_field k field v gs) = games_get k' gs)
  /\ map fst (games_set_field k field v gs) = map fst gs.
Proof.
  intros Hg. unfold games_set_field. rewrite Hg. split; [apply games_get_set_eq|]. split.
  - intros k' Hne. apply games_get_set_ne. exact Hne.
  - eapply games_set_keys. exact Hg.
Qed.

Lemma parse_int_ok (s field : string) (v : Z) :
  _parse_int s field = inr v -> int_of_str (strip s) = Some v /\ 0 < v.
Proof.
  unfold _parse_int. destruct (int_of_str (strip s)) as [n|]; [|discriminate].
  destruct (Z.leb_spec n 0); [discriminate|]. intros [= <-]. auto.
Qed.

Lemma parse_fields_ok (w_var h_var r_var : string) (w h r : Z) :
  parse_fields w_var h_var r_var = inr (w, h, r) -> 0 < w /\ 0 < h /\ 0 <= r.
Proof.
  unfold parse_fields.
  destruct (_parse_int w_var "Breite") as [|w0] eqn:Hw; [discriminate|].
  destruct (_parse_int h_var "Höhe") as [|h0] eqn:Hh; [discriminate|].
  destruct (int_of_str _) as [r0|]; [|discriminate].
  destruct (Z.ltb_spec r0 0); [discriminate|]. intros [= <- <- <-].
  apply parse_int_ok in Hw, Hh. intuition.
Qed.

Lemma set_games_same (c : config) (gs : store) :
  games c = Some gs -> set_games gs (setdefault_games c) = c.
Proof.
  intros H. unfold set_games, setdefault_games. rewrite H.
  destruct c as [paths g]. simpl in *. subst. reflexivity.
Qed.

(** X1: An accepted edit: the three numbers are positive, positive and not
    negative; they are what the entry of the selected key holds
    afterwards; every other field of that entry, every other entry and
    the order of the keys are as before; and the file holds the new
    configuration. *)
Theorem save_selected_game_accepts (k w_var h_var r_var : string) (w h r : Z)
    (st : app) (gs : store) (g : profile) :
  k <> "" ->
  games (cfg st) = Some gs ->
  games_get k gs = Some g ->
  parse_fields w_var h_var r_var = inr (w, h, r) ->
  let st' := save_selected_game (Some k) w_var h_var r_var st in
  (0 < w /\ 0 < h /\ 0 <= r)
  /\ games_get k (cfg_games (cfg st'))
     = Some (<["refresh_hz" := JInt r]> (<["height" := JInt h]> (<["width" := JInt w]> g)))
  /\ (forall k', k' <> k -> games_get k' (cfg_games (cfg st')) = games_get k' gs)
  /\ map fst (cfg_games (cfg st')) = map fst gs
  /\ custom_scan_paths (cfg st') = custom_scan_paths (cfg st)
  /\ file st' = Parsed (cfg st').
Proof.
  intros Hk Hgs Hg Hparse st'. split; [eapply parse_fields_ok; exact Hparse|].
  assert (Hcg : cfg_games (setdefault_games (cfg st)) = gs).
  { rewrite cfg_games_setdefault. unfold cfg_games. rewrite Hgs. reflexivity. }
  assert (Hmem : games_mem k gs = true) by (unfold games_mem; rewrite Hg; reflexivity).
  unfold st', save_selected_game.
  destruct (String.eqb_spec k ""); [contradiction|].
  rewrite Hcg, Hmem, Hparse.
  destruct (games_set_field_spec k "width" (JInt w) gs g Hg) as (H1 & O1 & K1).
  destruct (games_set_field_spec k "height" (JInt h) _ _ H1) as (H2 & O2 & K2).
  destruct (games_set_field_spec k "refresh_hz" (JInt r) _ _ H2) as (H3 & O3 & K3).
  cbn [cfg file add_log _set_status_msg with_file with_cfg set_games cfg_games games
       custom_scan_paths save_config].
  split; [exact H3|]. split.
  - intros k' Hne. rewrite O3, O2, O1 by exact Hne. reflexivity.
  - split; [rewrite K3, K2, K1; reflexivity|]. split; [|reflexivity].
    unfold setdefault_games. rewrite Hgs. reflexivity.
Qed.

Lemma parse_int_str_of_int (n : Z) (field : string) :
  0 < n -> _parse_int (str_of_int n) field = inr n.
Proof.
  intros Hn. unfold _parse_int. rewrite strip_str_of_int, int_of_str_of_int.
  destruct (Z.leb_spec n 0); [lia|reflexivity].
Qed.

Lemma parse_fields_str_of_int (w h r : Z) :
  0 < w -> 0 < h -> 0 <= r ->
  parse_fields (str_of_int w) (str_of_int h) (str_of_int r) = inr (w, h, r).
Proof.
  intros Hw Hh Hr. unfold parse_fields.
  rewrite !parse_int_str_of_int by assumption.
  rewrite strip_str_of_int. unfold str_or.
  destruct (String.eqb_spec (str_of_int r) "") as [He|_];
    [exfalso; exact (str_of_int_nonempty r He)|].
  rewrite int_of_str_of_int. destruct (Z.ltb_spec r 0); [lia|reflexivity].
Qed.

Lemma games_set_field_same (k field : string) (v : jval) (gs : store) (g : profile) :
  games_get k gs = Some g -> g !! field = Some v -> games_set_field k field v gs = gs.
Proof.
  intros Hg Hf. unfold games_set_field. rewrite Hg.
  rewrite insert_id by exact Hf. apply games_set_same, Hg.
Qed.

(** X2: Loading the selected game into the form and saving the form at once
    changes nothing in the configuration, when the entry holds a positive
    width, a positive height and a refresh rate that is not negative: the
    numbers shown are read back as they were printed. *)
Theorem load_then_save_keeps_config (st : app) (u : ui) (k : string) (gs : store)
    (g : profile) (w h r : Z) :
  _selected_process_key u = Some k ->
  k <> "" ->
  games (cfg st) = Some gs ->
  lookup_profile gs k = Some g ->
  g !! "width" = Some (JInt w) -> g !! "height" = Some (JInt h) ->
  g !! "refresh_hz" = Some (JInt r) ->
  0 < w -> 0 < h -> 0 <= r ->
  let u' := _load_selected_game_into_fields st u in
  w_var u' = str_of_int w /\ h_var u' = str_of_int h /\ r_var u' = str_of_int r
  /\ cfg (save_form st u') = cfg st
  /\ file (save_form st u') = Parsed (cfg st).
Proof.
  intros Hsel Hk Hgs Hlook Hw Hh Hr Hwp Hhp Hrp u'.
  assert (Hcg : cfg_games (cfg st) = gs) by (unfold cfg_games; rewrite Hgs; reflexivity).
  assert (Hu' : u' = with_fields (str_of_int w) (str_of_int h) (str_of_int r) u).
  { unfold u', _load_selected_game_into_fields. rewrite Hsel.
    destruct (String.eqb_spec k ""); [contradiction|].
    rewrite Hcg, Hlook, Hw, Hh, Hr. reflexivity. }
  assert (Hg : games_get k gs = Some g).
  { unfold lookup_profile in Hlook. destruct (games_get k gs) as [g0|]; [|discriminate].
    destruct (decide (g0 = ∅)); [discriminate|exact Hlook]. }
  rewrite Hu'. split; [reflexivity|]. split; [reflexivity|]. split; [reflexivity|].
  unfold save_form.
  change (_selected_process_key (with_fields _ _ _ u)) with (_selected_process_key u).
  rewrite Hsel. cbn [w_var h_var r_var with_fields].
  unfold save_selected_game. destruct (String.eqb_spec k ""); [contradiction|].
  rewrite cfg_games_setdefault, Hcg.
  assert (Hmem : games_mem k gs = true) by (unfold games_mem; rewrite Hg; reflexivity).
  rewrite Hmem, parse_fields_str_of_int by assumption.
  rewrite (games_set_field_same k "width" (JInt w) gs g Hg Hw).
  rewrite (games_set_field_same k "height" (JInt h) gs g Hg Hh).
  rewrite (games_set_field_same k "refresh_hz" (JInt r) gs g Hg Hr).
  cbn [cfg file add_log _set_status_msg with_file with_cfg save_config].
  rewrite set_games_same by exact Hgs. split; reflexivity.
Qed.

(** ** The polling loop, continued *)

Import Spec2.

(** X3: [_find_active_game] returns the lowercase key of the first entry
    whose process runs, and nothing exactly when no entry's process
    runs. *)
Theorem find_active_game_first_match (gs : store) (running : gset string) :
  (_find_active_game gs running = None
   <-> Forall (fun kg => entry_runs running kg = false) gs)
  /\ (forall k, _find_active_game gs running = Some k
      <-> exists l0 key g l1,
            gs = l0 ++ (key, g) :: l1
            /\ Forall (fun kg => entry_runs running kg = false) l0
            /\ entry_runs running (key, g) = true
            /\ k = lower key).
Proof.
  induction gs as [|[key g] gs [IHn IHs]].
  - split; [split; [constructor|reflexivity]|].
    intros k. split; [discriminate|]. intros (l0 & ? & ? & ? & H & _).
    destruct l0; discriminate.
  - cbn [_find_active_game].
    match goal with
    | |- context [bool_decide ?P] =>
        change (bool_decide P) with (entry_runs running (key, g))
    end.
    destruct (entry_runs running (key, g)) eqn:Hrun; cbn iota.
    + split.
      * split; [discriminate|]. intros H. inversion H; subst. congruence.
      * intros k. split.
        -- intros [= <-]. exists [], key, g, gs. auto.
        -- intros (l0 & key' & g' & l1 & Heq & Hl0 & Hrun' & ->).
           destruct l0 as [|x l0]; [injection Heq as <- <- <-; reflexivity|].
           injection Heq as <- _. inversion Hl0; subst. congruence.
    + split.
      * rewrite IHn. split; [intros H; constructor; assumption|].
        intros H. inversion H; assumption.
      * intros k. rewrite IHs. split.
        -- intros (l0 & key' & g' & l1 & -> & Hl0 & Hrun' & ->).
           exists ((key, g) :: l0), key', g', l1. auto.
        -- intros (l0 & key' & g' & l1 & Heq & Hl0 & Hrun' & ->).
           destruct l0 as [|x l0]; [injection Heq as <- <- <-; congruence|].
           injection Heq as <- ->. inversion Hl0; subst.
           exists l0, key', g', l1. auto.
Qed.

(** The entry is found but one of its three numbers is not readable: the
    conversion raises before anything is requested. *)
Lemma apply_bad_profile (k : string) (g : profile) (os : native) (st : app) :
  Some k <> last_applied_process st ->
  lookup_profile (cfg_games (cfg st)) k = Some g ->
  profile_mode g = None ->
  exists e, _apply_game_resolution_if_needed (Some k) os st = (Raised e, st).
Proof.
  intros Hne Hg Hmode. unfold profile_mode in Hmode.
  unfold _apply_game_resolution_if_needed, mbind, AM_bind, get, modify, lift_display,
    lift_outcome, mret, AM_ret.
  destruct (decide _) as [Heq|_]; [congruence|]. rewrite Hg.
  destruct (py_int (default (JInt DEFAULT_WIDTH) (g !! "width"))) as [w0|e];
    [|eexists; reflexivity].
  destruct (py_int (default (JInt DEFAULT_HEIGHT) (g !! "height"))) as [h0|e];
    [|eexists; reflexivity].
  destruct (py_int (default (JInt 0) (g !! "refresh_hz"))) as [r0|e];
    [discriminate|eexists; reflexivity].
Qed.

(** Everything one tick can do. *)
Lemma tick_step (running : gset string) (os : native) (st : app)
    (o : outcome unit) (st' : app) :
  tick running os st = (o, st') ->
  let gs := cfg_games (cfg st) in
  let pk := _find_active_game gs running in
  cfg st' = cfg st /\ file st' = file st /\ status_msgs st' = status_msgs st
  /\ ticks st' = S (ticks st)
  /\ (o = Ok tt -> active_process st' = pk)
  /\ (o = Ok tt -> pk = None -> last_applied_process st' = None)
  /\ (o = Ok tt -> forall k g, pk = Some k -> lookup_profile gs k = Some g ->
      last_applied_process st' = Some k)
  /\ exists new,
       apply_calls (trace st') = apply_calls (trace st) ++ new
       /\ ((new = [] /\ last_applied_process st' = last_applied_process st)
           \/ (new = [baseline_call] /\ pk = None
               /\ (o = Ok tt -> last_applied_process st' = None))
           \/ (exists k g m, new = [m] /\ pk = Some k
                 /\ lookup_profile gs k = Some g /\ profile_mode g = Some m
                 /\ (o = Ok tt -> last_applied_process st' = Some k))).
Proof.
  intros Htick gs pk. rewrite tick_unfold in Htick. cbn zeta in Htick.
  fold gs in Htick. fold pk in Htick.
  assert (Hfin : forall (o1 : outcome unit) (st1 : app),
    (match o1 with
     | Ok _ => (Ok tt, if decide (pk = active_process st1) then st1
                       else with_active pk st1)
     | Raised e => (Raised e, st1)
     end) = (o, st') ->
    cfg st' = cfg st1 /\ file st' = file st1 /\ status_msgs st' = status_msgs st1
    /\ ticks st' = ticks st1 /\ trace st' = trace st1
    /\ last_applied_process st' = last_applied_process st1
    /\ (o = Ok tt -> active_process st' = pk)
    /\ (o = Ok tt -> exists u, o1 = Ok u)).
  { intros o1 st1 H. destruct o1 as [[]|e].
    - destruct (decide (pk = active_process st1)) as [Heq|Hne]; injection H as <- <-;
        repeat split; eauto.
    - injection H as <- <-. repeat split; intros; discriminate. }
  destruct (decide (pk = last_applied_process st)) as [Hsame|Hne].
  { (* the guard *)
    rewrite apply_same in Htick by exact Hsame.
    destruct (Hfin (Ok tt) (count_tick st) Htick) as (-> & -> & -> & -> & Htr & Hl & Hact & _).
    do 4 (split; [reflexivity|]). split; [exact Hact|].
    split; [intros _ Hpk; rewrite Hl; cbn; congruence|].
    split; [intros _ k g Hpk _; rewrite Hl; cbn; congruence|].
    exists []. rewrite Htr, app_nil_r. split; [reflexivity|]. left. auto. }
  destruct pk as [k|] eqn:Hpk.
  - destruct (lookup_profile gs k) as [g|] eqn:Hg.
    + destruct (profile_mode g) as [[[w h] r]|] eqn:Hmode.
      * destruct (apply_profile k g w h r os (count_tick st) Hne Hg Hmode) as [line Ha].
        rewrite Ha in Htick. change (trace (count_tick st)) with (trace st) in Htick.
        pose proof (set_resolution_apply_calls os (trace st) w h r) as Hcalls.
        destruct (set_resolution w h r os (trace st)) as [[res|e] tr]; cbn [snd] in Hcalls.
        -- destruct (Hfin (Ok tt) _ Htick) as (-> & -> & -> & -> & Htr & Hl & Hact & _).
           do 4 (split; [reflexivity|]). split; [exact Hact|].
           split; [intros _ H; discriminate H|].
           split; [intros _ k' g' [= <-] _; rewrite Hl; reflexivity|].
           exists [(w, h, r)]. rewrite Htr. split; [exact Hcalls|].
           right. right. exists k, g, (w, h, r). rewrite Hl. auto 10.
        -- destruct (Hfin (Raised e) _ Htick) as (-> & -> & -> & -> & Htr & Hl & Hact & Hok).
           do 4 (split; [reflexivity|]). split; [exact Hact|].
           split; [intros Ho; destruct (Hok Ho); discriminate|].
           split; [intros Ho; destruct (Hok Ho); discriminate|].
           exists [(w, h, r)]. rewrite Htr. split; [exact Hcalls|].
           right. right. exists k, g, (w, h, r).
           do 4 (split; [reflexivity || assumption|]).
           intros Ho; destruct (Hok Ho); discriminate.
      * destruct (apply_bad_profile k g os (count_tick st) Hne Hg Hmode) as [e Ha].
        rewrite Ha in Htick.
        destruct (Hfin (Raised e) _ Htick) as (-> & -> & -> & -> & Htr & Hl & Hact & Hok).
        do 4 (split; [reflexivity|]). split; [exact Hact|].
        split; [intros Ho; destruct (Hok Ho); discriminate|].
        split; [intros Ho; destruct (Hok Ho); discriminate|].
        exists []. rewrite Htr, app_nil_r. split; [reflexivity|]. left. auto.
    + rewrite apply_not_found in Htick by exact Hg.
      destruct (Hfin (Ok tt) _ Htick) as (-> & -> & -> & -> & Htr & Hl & Hact & _).
      do 4 (split; [reflexivity|]). split; [exact Hact|].
      split; [intros _ H; discriminate H|].
      split; [intros _ k' g' [= <-] Hg'; congruence|].
      exists []. rewrite Htr, app_nil_r. split; [reflexivity|]. left. auto.
  - destruct (last_applied_process st) as [k0|] eqn:Hlast; [|congruence].
    rewrite (apply_baseline k0) in Htick by exact Hlast.
    change (trace (count_tick st)) with (trace st) in Htick.
    pose proof (set_resolution_apply_calls os (trace st) DEFAULT_WIDTH DEFAULT_HEIGHT None)
      as Hcalls.
    destruct (set_resolution DEFAULT_WIDTH DEFAULT_HEIGHT None os (trace st))
      as [[res|e] tr]; cbn [snd] in Hcalls.
    + destruct (Hfin (Ok tt) _ Htick) as (-> & -> & -> & -> & Htr & Hl & Hact & _).
      do 4 (split; [reflexivity|]). split; [exact Hact|].
      split; [intros _ _; rewrite Hl; reflexivity|].
      split; [intros _ k g H; discriminate H|].
      exists [baseline_call]. rewrite Htr. split; [exact Hcalls|].
      right. left. rewrite Hl. auto.
    + destruct (Hfin (Raised e) _ Htick) as (-> & -> & -> & -> & Htr & Hl & Hact & Hok).
      do 4 (split; [reflexivity|]). split; [exact Hact|].
      split; [intros Ho; destruct (Hok Ho); discriminate|].
      split; [intros Ho; destruct (Hok Ho); discriminate|].
      exists [baseline_call]. rewrite Htr. split; [exact Hcalls|].
      right. left. split; [reflexivity|]. split; [reflexivity|].
      intros Ho; destruct (Hok Ho); discriminate.
Qed.

(** X4: The loop leaves the configuration, the file and the status line
    alone; it makes at most one display request per tick it starts; and
    every request is the baseline or the mode of an entry of the store.
    When it ends without an exception, it has started one tick per
    snapshot. *)
Theorem watch_loop_frame (snapshots : list (gset string)) (os : native) :
  forall (st : app) (o : outcome unit) (st' : app),
  _watch_loop snapshots os st = (o, st') ->
  cfg st' = cfg st /\ file st' = file st /\ status_msgs st' = status_msgs st
  /\ (ticks st' <= ticks st + length snapshots)%nat
  /\ (o = Ok tt -> ticks st' = (ticks st + length snapshots)%nat)
  /\ exists new,
       apply_calls (trace st') = apply_calls (trace st) ++ new
       /\ (ticks st + length new <= ticks st')%nat
       /\ Forall (allowed_call (cfg_games (cfg st))) new.
Proof.
  induction snapshots as [|running rest IH]; intros st o st' Hloop.
  - rewrite watch_loop_nil in Hloop. injection Hloop as <- <-.
    do 3 (split; [reflexivity|]). split; [simpl; lia|]. split; [simpl; lia|].
    exists []. rewrite app_nil_r. split; [reflexivity|]. split; [simpl; lia|constructor].
  - rewrite watch_loop_cons in Hloop.
    destruct (tick running os st) as [o1 st1] eqn:Htick.
    destruct (tick_step running os st o1 st1 Htick)
      as (Hc & Hf & Hs & Ht & _ & _ & _ & new1 & Hcalls1 & Hnew1).
    assert (Hlen1 : (length new1 <= 1)%nat /\ Forall (allowed_call (cfg_games (cfg st))) new1).
    { destruct Hnew1 as [[-> _]|[[-> _]|(k & g & m & -> & _ & Hg & Hm & _)]].
      - split; [simpl; lia|constructor].
      - split; [simpl; lia|]. constructor; [left; reflexivity|constructor].
      - split; [simpl; lia|]. constructor; [right; eauto|constructor]. }
    destruct Hlen1 as [Hlen1 Hall1].
    destruct o1 as [[]|e].
    + destruct (IH st1 o st' Hloop) as (Hc' & Hf' & Hs' & Ht' & Hok' & new2 & Hcalls2 & Hlen2 & Hall2).
      rewrite Hc', Hf', Hs', Hc, Hf, Hs. do 3 (split; [reflexivity|]).
      change (length (running :: rest)) with (S (length rest)). split; [lia|]. split; [intros Ho; specialize (Hok' Ho); lia|].
      exists (new1 ++ new2). rewrite Hcalls2, Hcalls1, <- app_assoc.
      split; [reflexivity|]. rewrite length_app. split; [lia|].
      apply Forall_app. split; [exact Hall1|]. rewrite <- Hc. exact Hall2.
    + injection Hloop as <- <-. rewrite Hc, Hf, Hs. do 3 (split; [reflexivity|]).
      change (length (running :: rest)) with (S (length rest)). split; [lia|]. split; [discriminate|].
      exists new1. split; [exact Hcalls1|]. split; [lia|exact Hall1].
Qed.

Lemma last_snoc_call (l : list (Z * Z * option Z)) (m : Z * Z * option Z) :
  last (l ++ [m]) = Some m.
Proof. apply last_snoc. Qed.

Lemma tick_keeps_sync (running : gset string) (os : native) (st st' : app) :
  in_sync st -> tick running os st = (Ok tt, st') -> in_sync st'.
Proof.
  intros Hsync Htick.
  destruct (tick_step running os st (Ok tt) st' Htick)
    as (Hc & _ & _ & _ & _ & _ & _ & new & Hcalls & Hnew).
  unfold in_sync in *. rewrite Hc, Hcalls.
  destruct Hnew as [[-> Hl]|[(-> & _ & Hl)|(k & g & m & -> & _ & Hg & Hm & Hl)]].
  - rewrite Hl, app_nil_r. exact Hsync.
  - rewrite (Hl eq_refl). right. apply last_snoc_call.
  - rewrite (Hl eq_refl). exists g, m. split; [exact Hg|]. split; [exact Hm|].
    apply last_snoc_call.
Qed.

(** X5: The key applied last stays in step with the requests made.  From a
    state in step, such as the initial one, a run of the loop that ends
    without an exception ends in a state in step; and after its last
    tick the key applied last is none when no entry's process runs, and
    the matched key when its entry is found.  So when no tracked game
    runs at the last tick, the last request made, if any, was the
    baseline; and when a game with a stored entry runs, the last request
    was the mode of that entry. *)
Theorem watch_loop_keeps_sync (snapshots : list (gset string)) (os : native) :
  forall st st' : app,
  in_sync st ->
  _watch_loop snapshots os st = (Ok tt, st') ->
  in_sync st'
  /\ (forall running, last snapshots = Some running ->
      match _find_active_game (cfg_games (cfg st)) running with
      | None => last_applied_process st' = None
      | Some k => forall g, lookup_profile (cfg_games (cfg st)) k = Some g ->
                            last_applied_process st' = Some k
      end).
Proof.
  induction snapshots as [|running rest IH]; intros st st' Hsync Hloop.
  - rewrite watch_loop_nil in Hloop. injection Hloop as <-.
    split; [exact Hsync|]. intros running H. discriminate H.
  - rewrite watch_loop_cons in Hloop.
    destruct (tick running os st) as [[[]|e] st1] eqn:Htick; [|discriminate].
    pose proof (tick_keeps_sync running os st st1 Hsync Htick) as Hsync1.
    destruct (tick_step running os st (Ok tt) st1 Htick)
      as (Hc & _ & _ & _ & _ & Hnone & Hsome & _).
    destruct (IH st1 st' Hsync1 Hloop) as [Hsync' Hlast].
    split; [exact Hsync'|]. intros running' Hr.
    destruct rest as [|r2 rest'].
    + rewrite watch_loop_nil in Hloop. injection Hloop as <-.
      cbn in Hr. injection Hr as <-.
      destruct (_find_active_game (cfg_games (cfg st)) running) as [k|] eqn:Hpk.
      * intros g Hg. eapply Hsome; [reflexivity|reflexivity|exact Hg].
      * apply Hnone; reflexivity.
    + rewrite <- Hc. apply Hlast. rewrite <- Hr. reflexivity.
Qed.

Lemma set_resolution_returns (os : native) (tr : list event) (w h : Z) (r : option Z) :
  (forall t, enum_display os t <> None) ->
  exists res tr', set_resolution w h r os tr = (Ok res, tr').
Proof.
  intros Henum. rewrite set_resolution_unfold. cbn zeta.
  destruct (enum_display os (tr ++ [SetResolution w h r])) as [dm0|] eqn:He;
    [|exfalso; exact (Henum _ He)].
  destruct (negb _); [eauto|]. destruct (negb _); eauto.
Qed.

Lemma games_get_In (k : string) (gs : store) (g : profile) :
  games_get k gs = Some g -> In (k, g) gs.
Proof.
  induction gs as [|[k' g'] gs IH]; cbn [games_get]; [discriminate|].
  destruct (String.eqb_spec k' k) as [->|Hne].
  - intros [= ->]. left. reflexivity.
  - intros H. right. apply IH, H.
Qed.

Lemma lookup_profile_In (k : string) (gs : store) (g : profile) :
  lookup_profile gs k = Some g -> In (k, g) gs.
Proof.
  unfold lookup_profile. destruct (games_get k gs) as [g0|] eqn:Hg; [|discriminate].
  destruct (decide (g0 = ∅)); [discriminate|]. intros [= <-]. apply games_get_In, Hg.
Qed.

Lemma tick_returns (running : gset string) (os : native) (st : app) :
  (forall t, enum_display os t <> None) ->
  store_readable (cfg_games (cfg st)) ->
  exists st', tick running os st = (Ok tt, st').
Proof.
  intros Henum Hread. rewrite tick_unfold. cbn zeta.
  set (pk := _find_active_game (cfg_games (cfg st)) running).
  assert (Happly : exists st1,
            _apply_game_resolution_if_needed pk os (count_tick st) = (Ok tt, st1)).
  { destruct (decide (pk = last_applied_process (count_tick st))) as [Hsame|Hne].
    { rewrite apply_same by exact Hsame. eauto. }
    destruct pk as [k|].
    - destruct (lookup_profile (cfg_games (cfg st)) k) as [g|] eqn:Hg.
      + destruct (profile_mode g) as [[[w h] r]|] eqn:Hmode.
        * destruct (apply_profile k g w h r os (count_tick st) Hne Hg Hmode) as [line ->].
          destruct (set_resolution_returns os (trace (count_tick st)) w h r Henum)
            as (res & tr' & ->). eauto.
        * exfalso. apply lookup_profile_In in Hg.
          unfold store_readable in Hread. rewrite List.Forall_forall in Hread.
          exact (Hread _ Hg Hmode).
      + rewrite apply_not_found by exact Hg. eauto.
    - destruct (last_applied_process (count_tick st)) as [k0|] eqn:Hlast; [|congruence].
      rewrite (apply_baseline k0) by exact Hlast.
      destruct (set_resolution_returns os (trace (count_tick st))
                  DEFAULT_WIDTH DEFAULT_HEIGHT None Henum) as (res & tr' & ->). eauto. }
  destruct Happly as [st1 ->]. eauto.
Qed.

(** X6: The loop goes on whatever the display answers: when the mode query
    never fails and every entry of the store is readable, the loop runs
    through all its ticks without an exception, for any status codes of
    the test and apply calls. *)
Theorem watch_loop_survives (snapshots : list (gset string)) (os : native) :
  (forall t, enum_display os t <> None) ->
  forall st : app,
  store_readable (cfg_games (cfg st)) ->
  exists st', _watch_loop snapshots os st = (Ok tt, st')
              /\ ticks st' = (ticks st + length snapshots)%nat.
Proof.
  intros Henum. induction snapshots as [|running rest IH]; intros st Hread.
  - exists st. rewrite watch_loop_nil. split; [reflexivity|]. simpl. lia.
  - destruct (tick_returns running os st Henum Hread) as [st1 Htick].
    destruct (tick_step running os st (Ok tt) st1 Htick) as (Hc & _ & _ & Ht & _).
    destruct (IH st1) as (st' & Hloop & Hticks); [rewrite Hc; exact Hread|].
    exists st'. rewrite watch_loop_cons, Htick. split; [exact Hloop|].
    rewrite Hticks, Ht. change (length (running :: rest)) with (S (length rest)). lia.
Qed.

(** ** Shutdown and the test of a resolution *)

(** X7: [on_close] never raises and always requests the baseline, once, as
    its only request; it leaves the configuration alone. *)
Theorem on_close_requests_baseline (os : native) (st : app) :
  exists st', on_close os st = (Ok tt, st')
    /\ apply_calls (trace st') = apply_calls (trace st) ++ [baseline_call]
    /\ cfg st' = cfg st /\ file st' = file st
    /\ last_applied_process st' = last_applied_process st.
Proof.
  unfold on_close, lift_display.
  pose proof (set_resolution_apply_calls os (trace st) DEFAULT_WIDTH DEFAULT_HEIGHT None)
    as Hcalls.
  destruct (set_resolution DEFAULT_WIDTH DEFAULT_HEIGHT None os (trace st)) as [o tr].
  eexists. split; [reflexivity|]. split; [exact Hcalls|]. repeat split.
Qed.

(** X8: [test_resolution_7s] leaves the configuration, the file and the key
    applied last alone.  With fields that are refused it requests nothing
    and shows the error.  With accepted fields it requests their mode,
    and after that the baseline exactly when the first request
    succeeded; a request that fails is reported and not followed by
    another. *)
Theorem test_resolution_requests (proc_key : option string) (w_var h_var r_var : string)
    (os : native) (st : app) (o : outcome unit) (st' : app) :
  test_resolution_7s proc_key w_var h_var r_var os st = (o, st') ->
  (cfg st' = cfg st /\ file st' = file st
   /\ last_applied_process st' = last_applied_process st)
  /\ (forall msg, parse_test_fields w_var h_var r_var = inl msg ->
      o = Ok tt /\ trace st' = trace st /\ status_msgs st' = status_msgs st ++ [msg])
  /\ (forall w h r, parse_test_fields w_var h_var r_var = inr (w, h, r) ->
      let m := (w, h, if 0 <? r then Some r else None) in
      match (set_resolution w h (if 0 <? r then Some r else None) os (trace st)).1 with
      | Ok (true, _) =>
          apply_calls (trace st') = apply_calls (trace st) ++ [m; baseline_call]
      | Ok (false, msg) =>
          o = Ok tt /\ apply_calls (trace st') = apply_calls (trace st) ++ [m]
          /\ last (status_msgs st') = Some msg
      | Raised e =>
          o = Raised e /\ apply_calls (trace st') = apply_calls (trace st) ++ [m]
      end).
Proof.
  unfold test_resolution_7s. intros Hrun.
  destruct (parse_test_fields w_var h_var r_var) as [msg|[[w h] r]] eqn:Hparse.
  - injection Hrun as <- <-. split; [repeat split|]. split.
    + intros msg' [= <-]. repeat split.
    + intros w h r H. discriminate H.
  - unfold mbind, AM_bind, get, modify, lift_display in Hrun.
    pose proof (set_resolution_apply_calls os (trace st) w h
                  (if 0 <? r then Some r else None)) as Hc1.
    destruct (set_resolution w h (if 0 <? r then Some r else None) os (trace st))
      as [[[ok msg]|e] tr] eqn:Hset; cbn [fst snd] in *.
    + destruct ok; cbn [negb fst snd] in Hrun.
      * cbn [trace with_trace add_log _set_status_msg] in Hrun.
        pose proof (set_resolution_apply_calls os tr DEFAULT_WIDTH DEFAULT_HEIGHT None)
          as Hc2.
        destruct (set_resolution DEFAULT_WIDTH DEFAULT_HEIGHT None os tr)
          as [[res2|e2] tr2]; cbn [snd] in Hc2; injection Hrun as <- <-;
          (split; [repeat split|]); (split; [intros ? H; discriminate H|]);
          intros w' h' r' [= <- <- <-]; rewrite Hset; lazy beta iota zeta;
          cbn [trace with_trace add_log _set_status_msg fst];
          rewrite Hc2, Hc1; rewrite <- List.app_assoc; reflexivity.
      * injection Hrun as <- <-. split; [repeat split|]. split; [intros ? H; discriminate H|].
        intros w' h' r' [= <- <- <-]. rewrite Hset.
        cbn [trace with_trace add_log _set_status_msg status_msgs fst].
        split; [reflexivity|]. split; [exact Hc1|]. apply last_snoc.
    + injection Hrun as <- <-. split; [repeat split|]. split; [intros ? H; discriminate H|].
      intros w' h' r' [= <- <- <-]. rewrite Hset. split; [reflexivity|exact Hc1].
Qed.

(** ** Loading, continued *)

Lemma load_value_cases (v : nonobject) :
  (py_in "games" v = Ok true /\ py_in "custom_scan_paths" v = Ok true
   /\ load_config (ParsedValue v) = (Value v, ParsedValue v))
  \/ load_config (ParsedValue v) = (Cfg default_config, Parsed default_config).
Proof.
  unfold load_config, load_value.
  destruct (py_in "games" v) as [[|]|e]; [|right; reflexivity..].
  destruct (py_in "custom_scan_paths" v) as [[|]|e]; [|right; reflexivity..].
  left. auto.
Qed.

(** X9: What [load_config] returns is what the file holds afterwards, and
    loading that file again returns the same and leaves the file as it
    is.  A dictionary that is returned has both top-level fields; a value
    that is not a dictionary is returned only when both field names are
    found in it. *)
Theorem load_config_stable (file : document) :
  let r := load_config file in
  load_config r.2 = r
  /\ match r.1 with
     | Cfg c => is_Some (games c) /\ is_Some (custom_scan_paths c) /\ r.2 = Parsed c
     | Value v => r.2 = ParsedValue v
                  /\ py_in "games" v = Ok true /\ py_in "custom_scan_paths" v = Ok true
     end.
Proof.
  destruct file as [| |[paths gs]|v]; cbn zeta.
  - repeat split; eauto.
  - repeat split; eauto.
  - destruct gs as [gs|], paths as [paths|]; repeat split; eauto.
  - destruct (load_value_cases v) as [(Hg & Hp & Hl)|Hl]; rewrite !Hl; cbn [fst snd].
    + rewrite Hl. auto.
    + repeat split; eauto.
Qed.

(** ** File names of images *)

Lemma sub_unsafe_safe (s : string) (in_run : bool) :
  all_chars safe_char (sub_unsafe s in_run) = true.
Proof.
  revert in_run. induction s as [|c s IH]; intros in_run; [reflexivity|].
  cbn [sub_unsafe]. destruct (safe_char c) eqn:Hc.
  - cbn [all_chars]. rewrite Hc, IH. reflexivity.
  - destruct in_run; [apply IH|]. cbn [all_chars]. rewrite IH. reflexivity.
Qed.

Lemma sub_unsafe_fixed (s : string) (in_run : bool) :
  all_chars safe_char s = true -> sub_unsafe s in_run = s.
Proof.
  revert in_run. induction s as [|c s IH]; intros in_run; [reflexivity|].
  cbn [all_chars sub_unsafe]. intros [Hc Hs]%andb_true_iff.
  rewrite Hc, IH by exact Hs. reflexivity.
Qed.

Lemma safe_not_space (c : ascii) : safe_char c = true -> is_space c = false.
Proof. destruct c as [[] [] [] [] [] [] [] []]; first [reflexivity | discriminate]. Qed.

Lemma all_chars_last (p : ascii -> bool) (s : string) (b : ascii) :
  all_chars p s = true -> last_char s = Some b -> p b = true.
Proof.
  induction s as [|c s IH]; [discriminate|].
  cbn [all_chars]. intros [Hc Hs]%andb_true_iff.
  destruct s as [|d s]; [intros [= <-]; exact Hc|].
  rewrite last_char_cons by discriminate. apply IH, Hs.
Qed.

Lemma last_char_some (c : ascii) (s : string) : exists b, last_char (String c s) = Some b.
Proof.
  revert c. induction s as [|d s IH]; intros c; [eexists; reflexivity|].
  rewrite last_char_cons by discriminate. apply IH.
Qed.

Lemma strip_safe (s : string) : all_chars safe_char s = true -> strip s = s.
Proof.
  intros Hs. destruct s as [|c s]; [reflexivity|].
  destruct (last_char_some c s) as [b Hb].
  apply (strip_by_fixed is_space _ c b); [eauto|exact Hb|..]; apply safe_not_space.
  - cbn [all_chars] in Hs. apply andb_true_iff in Hs. tauto.
  - eapply all_chars_last; eassumption.
Qed.

(** X10: [_safe_filename] returns a name that is not empty and consists of
    letters, digits, dots, underscores and hyphens only; applied to such
    a name it returns it unchanged, so applying it twice is the same as
    applying it once. *)
Theorem safe_filename_safe (name : string) :
  _safe_filename name <> ""
  /\ all_chars safe_char (_safe_filename name) = true
  /\ _safe_filename (_safe_filename name) = _safe_filename name.
Proof.
  assert (H : _safe_filename name <> "" /\ all_chars safe_char (_safe_filename name) = true).
  { unfold _safe_filename.
    destruct (String.eqb_spec (sub_unsafe (strip name) false) "") as [_|Hne].
    - split; [discriminate|reflexivity].
    - split; [exact Hne|apply sub_unsafe_safe]. }
  destruct H as [Hne Hsafe]. split; [exact Hne|]. split; [exact Hsafe|].
  unfold _safe_filename at 1. rewrite strip_safe by exact Hsafe.
  rewrite sub_unsafe_fixed by exact Hsafe.
  destruct (String.eqb_spec (_safe_filename name) ""); [contradiction|reflexivity].
Qed.

(** ** Version comparison *)

Lemma tuple_gt_irrefl (a : list Z) : tuple_gt a a = false.
Proof.
  induction a as [|x a IH]; [reflexivity|]. cbn [tuple_gt]. rewrite Z.eqb_refl. exact IH.
Qed.

Lemma tuple_gt_asym (a : list Z) :
  forall b, tuple_gt a b = true -> tuple_gt b a = false.
Proof.
  induction a as [|x a IH]; intros [|y b]; cbn [tuple_gt]; try discriminate;
    [reflexivity|].
  destruct (Z.eqb_spec x y) as [->|Hne].
  - rewrite Z.eqb_refl. apply IH.
  - destruct (Z.eqb_spec y x); [congruence|]. intros H%Z.ltb_lt. apply Z.ltb_ge. lia.
Qed.

Lemma tuple_gt_trans (a : list Z) :
  forall b c, length a = length b -> length b = length c ->
  tuple_gt a b = true -> tuple_gt b c = true -> tuple_gt a c = true.
Proof.
  induction a as [|x a IH]; intros [|y b] [|z c]; cbn [tuple_gt length];
    try discriminate.
  intros [= Hab] [= Hbc].
  destruct (Z.eqb_spec x y) as [->|Hxy].
  - destruct (Z.eqb_spec y z) as [->|Hyz]; [apply IH; assumption|auto].
  - intros H1%Z.ltb_lt. destruct (Z.eqb_spec y z) as [->|Hyz].
    + intros _. destruct (Z.eqb_spec x z); [congruence|]. apply Z.ltb_lt, H1.
    + intros H2%Z.ltb_lt. destruct (Z.eqb_spec x z); [lia|]. apply Z.ltb_lt. lia.
Qed.

Lemma tuple_gt_app (a : list Z) :
  forall b z, length a = length b -> tuple_gt (a ++ z) (b ++ z) = tuple_gt a b.
Proof.
  induction a as [|x a IH]; intros [|y b] z; cbn [length]; try discriminate.
  - intros _. apply tuple_gt_irrefl.
  - intros [= H]. cbn [tuple_gt List.app]. rewrite IH by exact H. reflexivity.
Qed.

Lemma length_pad (t : list Z) (n : nat) : (length t <= n)%nat -> length (pad t n) = n.
Proof. intros H. unfold pad. rewrite length_app, repeat_length. lia. Qed.

Lemma pad_more (t : list Z) (m n : nat) :
  (length t <= m)%nat -> (m <= n)%nat -> pad t n = pad t m ++ repeat 0 (n - m).
Proof.
  intros H1 H2. unfold pad. rewrite <- app_assoc, <- repeat_app. do 2 f_equal. lia.
Qed.

(** Comparing with a common length that is large enough gives the same
    result as comparing with the longer of the two lengths. *)
Lemma tuple_gt_pad (a b : list Z) (n : nat) :
  (Nat.max (length a) (length b) <= n)%nat ->
  tuple_gt (pad a n) (pad b n)
  = tuple_gt (pad a (Nat.max (length a) (length b))) (pad b (Nat.max (length a) (length b))).
Proof.
  intros Hn. set (m := Nat.max (length a) (length b)) in *.
  rewrite (pad_more a m n), (pad_more b m n) by lia.
  apply tuple_gt_app. rewrite !length_pad by lia. reflexivity.
Qed.

(** X11: [is_newer_version] is a strict order on the versions that can be
    read: no version is newer than itself (this holds of every string),
    two versions are never each newer than the other, and newer than
    newer is newer. *)
Theorem is_newer_version_strict_order :
  (forall v, is_newer_version v v = false)
  /\ (forall a b ra rb,
        _normalize_version a = Some ra -> _normalize_version b = Some rb ->
        is_newer_version a b = true -> is_newer_version b a = false)
  /\ (forall a b c ra rb rc,
        _normalize_version a = Some ra -> _normalize_version b = Some rb ->
        _normalize_version c = Some rc ->
        is_newer_version a b = true -> is_newer_version b c = true ->
        is_newer_version a c = true).
Proof.
  split; [|split].
  - intros v. unfold is_newer_version.
    destruct (_normalize_version v); [apply tuple_gt_irrefl|].
    rewrite String.eqb_refl. reflexivity.
  - intros a b ra rb Ha Hb. unfold is_newer_version. rewrite Ha, Hb. cbn zeta.
    rewrite (Nat.max_comm (length rb)). apply tuple_gt_asym.
  - intros a b c ra rb rc Ha Hb Hc. unfold is_newer_version. rewrite Ha, Hb, Hc.
    cbn zeta. set (n := Nat.max (length ra) (Nat.max (length rb) (length rc))).
    rewrite <- (tuple_gt_pad ra rb n), <- (tuple_gt_pad rb rc n),
      <- (tuple_gt_pad ra rc n) by lia.
    apply tuple_gt_trans; rewrite !length_pad by lia; reflexivity.
Qed.

(** X12: Zeros at the end do not count: when one version reads as the other
    followed by zeros, as 1.2.0 and 1.2, neither is newer. *)
Theorem is_newer_version_trailing_zeros (a b : string) (t : list Z) (k : nat) :
  _normalize_version a = Some t ->
  _normalize_version b = Some (t ++ repeat 0 k) ->
  is_newer_version a b = false /\ is_newer_version b a = false.
Proof.
  intros Ha Hb. unfold is_newer_version. rewrite Ha, Hb. cbn zeta.
  rewrite (Nat.max_comm (length (t ++ repeat 0 k))).
  assert (Hmax : Nat.max (length t) (length (t ++ repeat 0 k)) = (length t + k)%nat).
  { rewrite length_app, repeat_length. lia. }
  rewrite Hmax.
  assert (Hpad : pad t (length t + k) = pad (t ++ repeat 0 k) (length t + k)).
  { unfold pad. rewrite length_app, repeat_length.
    replace (length t + k - length t)%nat with k by lia.
    replace (length t + k - (length t + k))%nat with O by lia.
    rewrite app_nil_r. reflexivity. }
  rewrite Hpad. split; apply tuple_gt_irrefl.
Qed.

(** ** Process detection *)

Lemma line_name_lower (line n : string) : line_name line = Some n -> lower n = n.
Proof.
  unfold line_name. destruct (String.eqb _ _); [discriminate|].
  destruct (startswith _ _); [|discriminate].
  destruct (map _ _) as [|first rest]; [discriminate|].
  intros [= <-]. apply lower_idempotent.
Qed.

(** X13: Every name in the set of running processes is in lowercase, whatever
    [tasklist] printed; so the comparison with the lowercased process
    names of the store is a comparison without regard to case. *)
Theorem process_names_lowercase (stdout : option string) (n : string) :
  n ∈ list_running_process_names_lower stdout -> lower n = n.
Proof.
  destruct stdout as [out|]; cbn [list_running_process_names_lower].
  - rewrite elem_of_list_to_set, list_elem_of_omap.
    intros (line & _ & Hname). eapply line_name_lower, Hname.
  - intros H. apply not_elem_of_empty in H. contradiction.
Qed.

(** ** Putting the scanners together *)

Lemma uniq_loop_spec (found : list Candidate.t) :
  forall (seen : gset string) (uniq : list Candidate.t),
  (forall k, k ∈ seen <-> k ∈ map process_key uniq) ->
  NoDup (map process_key uniq) ->
  Forall (fun g => process_key g <> "") uniq ->
  (length uniq < DISCOVERY_SCAN_LIMIT)%nat ->
  exists ext,
    uniq_loop found seen uniq = uniq ++ ext
    /\ NoDup (map process_key (uniq ++ ext))
    /\ Forall (fun g => process_key g <> "") (uniq ++ ext)
    /\ (length (uniq ++ ext) <= DISCOVERY_SCAN_LIMIT)%nat
    /\ sublist ext found
    /\ Forall (fun g => first_of_its_key found g /\ process_key g ∉ seen) ext
    /\ ((length (uniq ++ ext) < DISCOVERY_SCAN_LIMIT)%nat ->
        forall g, g ∈ found -> process_key g <> "" ->
                  process_key g ∈ map process_key (uniq ++ ext)).
Proof.
  induction found as [|g rest IH]; intros seen uniq Hseen Hnd Hne Hlen.
  - exists []. rewrite app_nil_r. cbn [uniq_loop].
    split; [reflexivity|]. split; [exact Hnd|]. split; [exact Hne|].
    split; [lia|]. split; [constructor|]. split; [constructor|].
    intros _ g Hg. apply elem_of_nil in Hg. contradiction.
  - cbn [uniq_loop]. fold (process_key g).
    destruct (String.eqb_spec (process_key g) "") as [Hempty|Hkey]; cbn [orb].
    { destruct (IH seen uniq Hseen Hnd Hne Hlen)
        as (ext & Heq & Hnd' & Hne' & Hlen' & Hsub & Hfirst & Hall).
      exists ext. split; [exact Heq|]. split; [exact Hnd'|]. split; [exact Hne'|].
      split; [exact Hlen'|]. split; [apply sublist_cons, Hsub|]. split.
      - rewrite Forall_forall in Hfirst, Hne' |- *. intros x Hxin.
        destruct (Hfirst x Hxin) as [(l0 & l1 & -> & Hl0) Hx].
        split; [|exact Hx]. exists (g :: l0), l1. split; [reflexivity|].
        constructor; [|exact Hl0]. intros Heq'. rewrite Hempty in Heq'.
        apply (Hne' x); [|symmetry; exact Heq'].
        apply elem_of_app. right. exact Hxin.
      - intros Hlt x Hx Hxk. apply elem_of_cons in Hx as [->|Hx]; [contradiction|].
        apply Hall; assumption. }
    destruct (bool_decide (process_key g ∈ seen)) eqn:Hin.
    { apply bool_decide_eq_true in Hin.
      destruct (IH seen uniq Hseen Hnd Hne Hlen)
        as (ext & Heq & Hnd' & Hne' & Hlen' & Hsub & Hfirst & Hall).
      exists ext. split; [exact Heq|]. split; [exact Hnd'|]. split; [exact Hne'|].
      split; [exact Hlen'|]. split; [apply sublist_cons, Hsub|]. split.
      - eapply Forall_impl; [exact Hfirst|]. intros x [(l0 & l1 & -> & Hl0) Hx].
        split; [|exact Hx]. exists (g :: l0), l1. split; [reflexivity|].
        constructor; [|exact Hl0]. intros Heq'. apply Hx. rewrite <- Heq'. exact Hin.
      - intros Hlt x Hx Hxk. apply elem_of_cons in Hx as [->|Hx]; [|apply Hall; assumption].
        rewrite map_app. apply elem_of_app. left. apply Hseen, Hin. }
    apply bool_decide_eq_false in Hin.
    assert (Hnd1 : NoDup (map process_key (uniq ++ [g]))).
    { rewrite map_app. apply NoDup_app. split; [exact Hnd|]. split.
      - intros k Hk Hk'. apply list_elem_of_singleton in Hk'. subst k.
        apply Hin, Hseen, Hk.
      - apply NoDup_singleton. }
    assert (Hne1 : Forall (fun x => process_key x <> "") (uniq ++ [g])).
    { apply Forall_app. split; [exact Hne|]. constructor; [exact Hkey|constructor]. }
    assert (Hfirst_g : first_of_its_key (g :: rest) g /\ process_key g ∉ seen).
    { split; [|exact Hin]. exists [], rest. split; [reflexivity|constructor]. }
    destruct (Nat.leb_spec DISCOVERY_SCAN_LIMIT (length (uniq ++ [g]))) as [Hfull|Hroom].
    { exists [g]. split; [reflexivity|]. split; [exact Hnd1|]. split; [exact Hne1|].
      split; [rewrite length_app in *; cbn [length] in *; lia|].
      split; [apply sublist_skip, sublist_nil_l|].
      split; [constructor; [exact Hfirst_g|constructor]|].
      intros Hlt. lia. }
    destruct (IH ({[process_key g]} ∪ seen) (uniq ++ [g]))
      as (ext & Heq & Hnd' & Hne' & Hlen' & Hsub & Hfirst & Hall).
    { intros k. rewrite map_app, elem_of_union, elem_of_app, elem_of_singleton.
      cbn [map]. rewrite list_elem_of_singleton, Hseen. tauto. }
    { exact Hnd1. }
    { exact Hne1. }
    { exact Hroom. }
    exists (g :: ext). rewrite <- app_assoc in *. cbn [List.app] in *.
    split; [exact Heq|]. split; [exact Hnd'|]. split; [exact Hne'|].
    split; [exact Hlen'|]. split; [apply sublist_skip, Hsub|]. split.
    + constructor; [exact Hfirst_g|].
      eapply Forall_impl; [exact Hfirst|]. intros x [(l0 & l1 & -> & Hl0) Hx].
      split.
      * exists (g :: l0), l1. split; [reflexivity|]. constructor; [|exact Hl0].
        intros Heq'. apply Hx. rewrite <- Heq'. apply elem_of_union. left.
        apply elem_of_singleton. reflexivity.
      * intros Hx'. apply Hx. apply elem_of_union. right. exact Hx'.
    + intros Hlt x Hx Hxk. apply elem_of_cons in Hx as [->|Hx]; [|apply Hall; assumption].
      rewrite map_app. apply elem_of_app. right. cbn [map]. left.
Qed.

(** X14: [discover_all_games] returns games with pairwise different, non-empty
    lowercase process names, at most [DISCOVERY_SCAN_LIMIT] of them, in the
    order of the scanners, and each one is the first game of its process
    name among everything the scanners found. *)
Theorem discover_all_games_unique (steam epic riot uninstall custom : list Candidate.t) :
  let found := steam ++ epic ++ riot ++ uninstall ++ custom in
  let uniq := discover_all_games steam epic riot uninstall custom in
  NoDup (map process_key uniq)
  /\ Forall (fun g => process_key g <> "") uniq
  /\ (length uniq <= DISCOVERY_SCAN_LIMIT)%nat
  /\ sublist uniq found
  /\ Forall (first_of_its_key found) uniq.
Proof.
  intros found uniq. subst uniq. unfold discover_all_games. fold found.
  destruct (uniq_loop_spec found ∅ [])
    as (ext & Heq & Hnd & Hne & Hlen & Hsub & Hfirst & _).
  - intros k. cbn [map]. split; intros H.
    + apply elem_of_empty in H. contradiction.
    + apply elem_of_nil in H. contradiction.
  - constructor.
  - constructor.
  - unfold DISCOVERY_SCAN_LIMIT. cbn [length]. lia.
  - rewrite Heq. cbn [List.app] in *.
    split; [exact Hnd|]. split; [exact Hne|]. split; [exact Hlen|].
    split; [exact Hsub|].
    eapply Forall_impl; [exact Hfirst|]. intros x [Hx _]. exact Hx.
Qed.

(** X15: When [discover_all_games] returns fewer than [DISCOVERY_SCAN_LIMIT]
    games, every non-empty process name that a scanner found is the process
    name of a returned game. *)
Theorem discover_all_games_complete (steam epic riot uninstall custom : list Candidate.t)
    (g : Candidate.t) :
  let found := steam ++ epic ++ riot ++ uninstall ++ custom in
  let uniq := discover_all_games steam epic riot uninstall custom in
  (length uniq < DISCOVERY_SCAN_LIMIT)%nat ->
  g ∈ found ->
  process_key g <> "" ->
  process_key g ∈ map process_key uniq.
Proof.
  intros found uniq. subst uniq. unfold discover_all_games. fold found.
  destruct (uniq_loop_spec found ∅ [])
    as (ext & Heq & _ & _ & _ & _ & _ & Hall).
  - intros k. cbn [map]. split; intros H.
    + apply elem_of_empty in H. contradiction.
    + apply elem_of_nil in H. contradiction.
  - constructor.
  - constructor.
  - unfold DISCOVERY_SCAN_LIMIT. cbn [length]. lia.
  - rewrite Heq. intros Hlt Hg Hk. apply Hall; assumption.
Qed.

(** ** The dropdown *)

Lemma load_fields_keeps_selection (st : app) (u : ui) :
  let u' := _load_selected_game_into_fields st u in
  game_var u' = game_var u
  /\ _display_to_proc u' = _display_to_proc u
  /\ _proc_to_display u' = _proc_to_display u
  /\ dropdown_values u' = dropdown_values u.
Proof.
  unfold _load_selected_game_into_fields.
  destruct (_selected_process_key u) as [k|]; [|auto].
  destruct (String.eqb k ""); [auto|].
  destruct (lookup_profile _ k); auto.
Qed.

Lemma load_fields_selected (st : app) (u : ui) :
  _selected_process_key (_load_selected_game_into_fields st u) = _selected_process_key u.
Proof.
  destruct (load_fields_keeps_selection st u) as (Hg & Hd & _).
  cbv zeta in Hg, Hd.
  set (u' := _load_selected_game_into_fields st u) in *.
  unfold _selected_process_key. cbv zeta. rewrite Hg, Hd. reflexivity.
Qed.

(** Every process key the loop records is the lowercase form of a key of
    the store. *)
Lemma refresh_loop_keys (gs : store) :
  forall (nc : gmap string Z) (d2p p2d : gmap string string) (values : list string)
         (d2p' p2d' : gmap string string) (values' : list string),
  refresh_loop gs nc d2p p2d values = (d2p', p2d', values') ->
  forall disp k, d2p' !! disp = Some k ->
    d2p !! disp = Some k \/ k ∈ map (fun kg : string * profile => lower kg.1) gs.
Proof.
  induction gs as [|[key g] gs IH]; intros nc d2p p2d values d2p' p2d' values' Hloop disp k Hk.
  - cbn [refresh_loop] in Hloop. injection Hloop as <- <- <-. left. exact Hk.
  - cbn [refresh_loop] in Hloop. cbv zeta in Hloop.
    destruct (IH _ _ _ _ _ _ _ Hloop disp k Hk) as [H|H].
    + apply lookup_insert_Some in H as [[_ <-]|[_ H]].
      * right. cbn [map fst]. left.
      * left. exact H.
    + right. cbn [map]. right. exact H.
Qed.

Lemma hd_elem_of {A} (d : A) (l : list A) : l <> [] -> hd d l ∈ l.
Proof. destruct l; [congruence|]. intros _. left. Qed.

Lemma refresh_unfold (st : app) (u : ui) :
  exists d2p p2d values dv var,
    refresh_loop (cfg_games (cfg st)) ∅ ∅ ∅ [] = (d2p, p2d, values)
    /\ var ∈ dv
    /\ _refresh_game_list st u
       = _load_selected_game_into_fields st
           (mkUi var (w_var u) (h_var u) (r_var u) d2p p2d dv).
Proof.
  unfold _refresh_game_list.
  destruct (refresh_loop (cfg_games (cfg st)) ∅ ∅ ∅ []) as [[d2p p2d] values] eqn:Hloop.
  cbv zeta.
  set (dv := match sort_by lower values with
             | [] => ["(keine Spiele gefunden)"]
             | _ :: _ => sort_by lower values
             end).
  assert (Hdv : dv <> []).
  { subst dv. destruct (sort_by lower values); discriminate. }
  set (var1 := if bool_decide (game_var u ∈ dv) then game_var u else hd (game_var u) dv).
  set (var2 := if (String.eqb var1 "" || startswith var1 "(")%bool then hd var1 dv else var1).
  exists d2p, p2d, values, dv, var2. split; [reflexivity|]. split; [|reflexivity].
  assert (H1 : var1 ∈ dv).
  { subst var1. destruct (bool_decide (game_var u ∈ dv)) eqn:Hin.
    - apply bool_decide_eq_true in Hin. exact Hin.
    - apply hd_elem_of, Hdv. }
  subst var2. destruct (String.eqb var1 "" || startswith var1 "(")%bool; [|exact H1].
  apply hd_elem_of, Hdv.
Qed.

Lemma refresh_selected_key (st : app) (u : ui) (k : string) :
  _selected_process_key (_refresh_game_list st u) = Some k ->
  k ∈ map (fun kg : string * profile => lower kg.1) (cfg_games (cfg st)).
Proof.
  destruct (refresh_unfold st u) as (d2p & p2d & values & dv & var & Hloop & _ & ->).
  rewrite load_fields_selected. intros Hk.
  unfold _selected_process_key in Hk. cbv zeta in Hk.
  match type of Hk with
  | (if ?b then _ else _) = _ => destruct b; [discriminate|]
  end.
  cbn [_display_to_proc] in Hk.
  destruct (refresh_loop_keys _ _ _ _ _ _ _ _ Hloop _ _ Hk) as [H|H]; [|exact H].
  rewrite lookup_empty in H. discriminate.
Qed.

(** X16: After [_refresh_game_list] the name shown as selected is one of the
    names of the dropdown, and a process key that the selection stands for
    is the lowercase form of a key of the store. *)
Theorem refresh_selection_in_store (st : app) (u : ui) :
  let u' := _refresh_game_list st u in
  game_var u' ∈ dropdown_values u'
  /\ forall k, _selected_process_key u' = Some k ->
               k ∈ map (fun kg : string * profile => lower kg.1) (cfg_games (cfg st)).
Proof.
  cbv zeta. split; [|apply refresh_selected_key].
  destruct (refresh_unfold st u) as (d2p & p2d & values & dv & var & _ & Hvar & ->).
  destruct (load_fields_keeps_selection st (mkUi var (w_var u) (h_var u) (r_var u) d2p p2d dv))
    as (Hg & _ & _ & Hv).
  cbv zeta in Hg, Hv. rewrite Hg, Hv. exact Hvar.
Qed.

Lemma games_mem_key (k : string) (gs : store) :
  k ∈ map fst gs -> exists g, games_get k gs = Some g.
Proof.
  induction gs as [|[k' g'] gs IH]; cbn [map fst games_get]; intros H.
  - apply elem_of_nil in H. contradiction.
  - destruct (String.eqb_spec k' k) as [->|Hne]; [eauto|].
    apply elem_of_cons in H as [->|H]; [congruence|]. apply IH, H.
Qed.

Lemma cfg_games_set_games (gs : store) (c : config) : cfg_games (set_games gs c) = gs.
Proof. reflexivity. Qed.

(** Saving never removes a key nor changes the order of the keys, and it
    adds none when the key is one of the store. *)
Lemma save_selected_game_keys (k w_var h_var r_var : string) (st : app) :
  k ∈ map fst (cfg_games (cfg st)) ->
  map fst (cfg_games (cfg (save_selected_game (Some k) w_var h_var r_var st)))
  = map fst (cfg_games (cfg st)).
Proof.
  intros Hk. unfold save_selected_game.
  destruct (String.eqb k ""); [reflexivity|].
  rewrite cfg_games_setdefault.
  destruct (games_mem_key _ _ Hk) as [g Hg].
  unfold games_mem. rewrite Hg.
  destruct (parse_fields w_var h_var r_var) as [msg|[[w h] r]]; [reflexivity|].
  cbn [cfg add_log _set_status_msg with_file with_cfg]. rewrite cfg_games_set_games.
  destruct (games_set_field_spec k "width" (JInt w) _ _ Hg) as (Hg1 & _ & Hk1).
  destruct (games_set_field_spec k "height" (JInt h) _ _ Hg1) as (Hg2 & _ & Hk2).
  destruct (games_set_field_spec k "refresh_hz" (JInt r) _ _ Hg2) as (_ & _ & Hk3).
  rewrite Hk3, Hk2, Hk1. reflexivity.
Qed.

(** X17: In a store whose keys are lowercase, saving the form right after
    [_refresh_game_list] adds no entry and removes none, whatever the
    fields hold: the keys of the store and their order are as before. *)
Theorem save_after_refresh_adds_no_entry (st : app) (u : ui) :
  keys_lowercase (cfg_games (cfg st)) ->
  map fst (cfg_games (cfg (save_form st (_refresh_game_list st u))))
  = map fst (cfg_games (cfg st)).
Proof.
  intros Hlow. unfold save_form.
  destruct (_selected_process_key (_refresh_game_list st u)) as [k|] eqn:Hsel;
    [|reflexivity].
  apply save_selected_game_keys.
  pose proof (refresh_selected_key st u k Hsel) as Hkeys.
  apply list_elem_of_fmap in Hkeys as ([key g] & -> & Hin).
  unfold keys_lowercase in Hlow. rewrite Forall_forall in Hlow.
  specialize (Hlow _ Hin). cbn [fst] in *. rewrite Hlow.
  apply list_elem_of_fmap. exists (key, g). split; [reflexivity|exact Hin].
Qed.

(** ** Adding a game by hand *)

Lemma games_set_new (k : string) (g : profile) (gs : store) :
  games_get k gs = None -> games_set k g gs = gs ++ [(k, g)].
Proof.
  induction gs as [|[k' g'] gs IH]; cbn [games_get games_set]; [reflexivity|].
  destruct (String.eqb_spec k' k) as [->|Hne]; [discriminate|].
  intros H. cbn [List.app]. f_equal. apply IH, H.
Qed.

Lemma add_game_manually_keys (fs : filesystem) (path : string) (st : app) (u : ui) :
  let gs := cfg_games (cfg st) in
  let gs' := cfg_games (cfg (add_game_manually fs path st u).1) in
  map fst gs' = map fst gs
  \/ (games_get (lower (Path.basename path)) gs = None
      /\ map fst gs' = map fst gs ++ [lower (Path.basename path)]).
Proof.
  cbv zeta. unfold add_game_manually.
  destruct (String.eqb path ""); [left; reflexivity|].
  destruct (negb (endswith (lower path) ".exe") || negb (path_exists fs path))%bool;
    [left; reflexivity|].
  rewrite cfg_games_setdefault.
  destruct (games_get (lower (Path.basename path)) (cfg_games (cfg st))) as [g|] eqn:Hkey.
  - left. cbn [fst cfg add_log _set_status_msg].
    destruct (truthy_get (g !! "exe_path")).
    + cbn [cfg with_cfg]. rewrite cfg_games_setdefault. reflexivity.
    + cbn [cfg with_file with_cfg]. rewrite cfg_games_set_games.
      eapply games_set_keys. exact Hkey.
  - right. split; [reflexivity|].
    cbn [fst cfg add_log _set_status_msg with_file with_cfg].
    rewrite cfg_games_set_games. apply games_set_keys_new, Hkey.
Qed.

(** X18: [add_game_manually] removes no entry and adds at most one, at the end
    and under the lowercase file name; an entry that was there keeps every
    field other than [exe_path] and [source], so its name, process and
    resolution, and it is left as it is when it has an [exe_path]. *)
Theorem add_game_manually_keeps_entries (fs : filesystem) (path : string) (st : app)
    (u : ui) :
  let gs := cfg_games (cfg st) in
  let gs' := cfg_games (cfg (add_game_manually fs path st u).1) in
  (map fst gs' = map fst gs
   \/ (games_get (lower (Path.basename path)) gs = None
       /\ map fst gs' = map fst gs ++ [lower (Path.basename path)]))
  /\ forall k p, games_get k gs = Some p ->
       exists p', games_get k gs' = Some p'
         /\ (forall f, f <> "exe_path" -> f <> "source" -> p' !! f = p !! f)
         /\ (truthy_get (p !! "exe_path") = true -> p' = p).
Proof.
  cbv zeta. split; [apply add_game_manually_keys|]. unfold add_game_manually.
  destruct (String.eqb path ""); [eauto|].
  destruct (negb (endswith (lower path) ".exe") || negb (path_exists fs path))%bool;
    [eauto|].
  rewrite cfg_games_setdefault.
  set (key := lower (Path.basename path)).
  set (gs := cfg_games (cfg st)).
  destruct (games_get key gs) as [g|] eqn:Hkey.
  - cbn [fst cfg add_log _set_status_msg].
    destruct (truthy_get (g !! "exe_path")) eqn:Hexe.
    + cbn [cfg with_cfg]. rewrite cfg_games_setdefault. fold gs. eauto.
    + cbn [cfg with_file with_cfg]. rewrite cfg_games_set_games.
      intros k p Hp. destruct (String.eqb_spec k key) as [->|Hne].
      * rewrite games_get_set_eq. eexists. split; [reflexivity|].
        assert (p = g) by congruence. subst p. split.
        -- intros f Hf1 Hf2. rewrite !lookup_insert_ne by congruence. reflexivity.
        -- rewrite Hexe. discriminate.
      * rewrite games_get_set_ne by congruence. eauto.
  - cbn [fst cfg add_log _set_status_msg with_file with_cfg].
    rewrite cfg_games_set_games.
    intros k p Hp. rewrite games_get_set_ne by congruence. eauto.
Qed.

(** X19: A file that exists, has a name ending in [.exe] and belongs to no
    entry yet is added as the last entry, under its lowercase file name,
    with the resolution 1920x1080 at 144 Hz, the chosen path and the
    source [manual]; the file on disk then holds the new configuration. *)
Theorem add_game_manually_new_entry (fs : filesystem) (path : string) (st : app) (u : ui) :
  endswith (lower path) ".exe" = true ->
  path_exists fs path = true ->
  games_get (lower (Path.basename path)) (cfg_games (cfg st)) = None ->
  let st' := (add_game_manually fs path st u).1 in
  exists g,
    cfg_games (cfg st') = cfg_games (cfg st) ++ [(lower (Path.basename path), g)]
    /\ profile_mode g = Some (DEFAULT_WIDTH, DEFAULT_HEIGHT, Some 144)
    /\ g !! "process" = Some (JStr (Path.basename path))
    /\ g !! "exe_path" = Some (JStr path)
    /\ g !! "source" = Some (JStr "manual")
    /\ file st' = Parsed (cfg st').
Proof.
  intros Hexe Hex Hnew. cbv zeta. unfold add_game_manually.
  destruct (String.eqb_spec path "") as [->|_]; [discriminate Hexe|].
  rewrite Hexe, Hex. cbn [negb orb].
  rewrite cfg_games_setdefault, Hnew.
  cbn [fst cfg file add_log _set_status_msg with_file with_cfg].
  rewrite cfg_games_set_games. eexists. split; [apply games_set_new, Hnew|].
  split; [reflexivity|]. split; [reflexivity|]. split; [reflexivity|].
  split; reflexivity.
Qed.

(** ** The merge of a scan: keys and count *)

Lemma games_get_key (k : string) (gs : store) (g : profile) :
  games_get k gs = Some g -> k ∈ map fst gs.
Proof.
  intros H. apply games_get_In in H. apply list_elem_of_fmap.
  exists (k, g). split; [reflexivity|]. apply list_elem_of_In, H.
Qed.

Lemma games_get_none_key (k : string) (gs : store) :
  games_get k gs = None -> k ∉ map fst gs.
Proof.
  intros H Hin. destruct (games_mem_key _ _ Hin) as [g Hg]. congruence.
Qed.

Lemma backfill_keys (k field value : string) (gs : store) :
  map fst (backfill k field value gs) = map fst gs.
Proof.
  unfold backfill. destruct (games_get k gs) as [p|] eqn:Hp; [|reflexivity].
  destruct (negb (truthy_get (p !! field)) && negb (String.eqb value ""))%bool;
    [|reflexivity].
  apply (games_set_field_spec k field (JStr value) gs p Hp).
Qed.

Lemma enforce_preset_keys (key name : string) (w h : Z) (gs : store) :
  map fst (enforce_preset key name w h gs) = map fst gs.
Proof.
  unfold enforce_preset. destruct (games_get key gs) as [p|] eqn:Hp; [|reflexivity].
  eapply games_set_keys. exact Hp.
Qed.

Lemma enforce_presets_keys (gs : store) : map fst (enforce_presets gs) = map fst gs.
Proof. unfold enforce_presets. rewrite !enforce_preset_keys. reflexivity. Qed.

Lemma merge_fold_keys (discovered : list Candidate.t) :
  forall (gs : store) (n : nat),
  exists new,
    map fst (fold_left merge_one discovered (gs, n)).1 = map fst gs ++ new
    /\ (fold_left merge_one discovered (gs, n)).2 = (n + length new)%nat
    /\ NoDup new
    /\ Forall (fun k => k <> "" /\ (k ∉ map fst gs) /\ k ∈ map process_key discovered) new
    /\ (forall g, g ∈ discovered -> process_key g <> "" ->
                  process_key g ∈ map fst (fold_left merge_one discovered (gs, n)).1).
Proof.
  induction discovered as [|c rest IH]; intros gs n; cbn [fold_left].
  - exists []. rewrite app_nil_r. cbn [length fst snd].
    split; [reflexivity|]. split; [lia|]. split; [constructor|]. split; [constructor|].
    intros g Hg. apply elem_of_nil in Hg. contradiction.
  - assert (Hcases :
      (map fst (merge_one (gs, n) c).1 = map fst gs
       /\ (merge_one (gs, n) c).2 = n
       /\ (process_key c <> "" -> process_key c ∈ map fst gs))
      \/ (map fst (merge_one (gs, n) c).1 = map fst gs ++ [process_key c]
          /\ (merge_one (gs, n) c).2 = S n
          /\ process_key c <> "" /\ process_key c ∉ map fst gs)).
    { unfold merge_one. fold (process_key c).
      destruct (String.eqb_spec (process_key c) "") as [Hempty|Hkey].
      - left. cbn [fst snd]. split; [reflexivity|]. split; [reflexivity|]. congruence.
      - unfold games_mem. destruct (games_get (process_key c) gs) as [p|] eqn:Hp.
        + left. cbn [fst snd]. rewrite !backfill_keys.
          split; [reflexivity|]. split; [reflexivity|].
          intros _. eapply games_get_key, Hp.
        + right. cbn [fst snd]. split; [apply games_set_keys_new, Hp|].
          split; [reflexivity|]. split; [exact Hkey|]. apply games_get_none_key, Hp. }
    destruct (merge_one (gs, n) c) as [gs1 n1] eqn:Hone. cbn [fst snd] in Hcases.
    destruct (IH gs1 n1) as (new & Hkeys & Hcount & Hnd & Hnew & Hall).
    destruct Hcases as [(Hk1 & -> & Hc)|(Hk1 & -> & Hkey & Hfresh)].
    + exists new. rewrite Hkeys, Hk1. split; [reflexivity|]. split; [exact Hcount|].
      split; [exact Hnd|]. split.
      * eapply Forall_impl; [exact Hnew|]. intros k (Hk & Hnot & Hin).
        split; [exact Hk|]. split; [rewrite <- Hk1; exact Hnot|].
        cbn [map]. right. exact Hin.
      * intros g Hg Hgk. apply elem_of_cons in Hg as [->|Hg].
        -- apply elem_of_app. left. apply Hc, Hgk.
        -- rewrite <- Hk1, <- Hkeys. apply Hall; assumption.
    + exists (process_key c :: new). rewrite Hkeys, Hk1, <- app_assoc. cbn [List.app].
      split; [reflexivity|]. split; [rewrite Hcount; cbn [length]; lia|].
      rewrite Forall_forall in Hnew. split; [|split].
      * constructor; [|exact Hnd]. intros Hin.
        destruct (Hnew _ Hin) as (_ & Hnot & _). apply Hnot. rewrite Hk1.
        apply elem_of_app. right. left.
      * constructor.
        -- split; [exact Hkey|]. split; [exact Hfresh|]. cbn [map]. left.
        -- apply Forall_forall. intros k Hin.
           destruct (Hnew _ Hin) as (Hk & Hnot & Hd). split; [exact Hk|]. split.
           ++ intros Hold. apply Hnot. rewrite Hk1. apply elem_of_app. left. exact Hold.
           ++ cbn [map]. right. exact Hd.
      * intros g Hg Hgk. apply elem_of_cons in Hg as [->|Hg].
        -- apply elem_of_app. right. left.
        -- specialize (Hall g Hg Hgk). rewrite Hkeys, Hk1, <- app_assoc in Hall.
           exact Hall.
Qed.

(** X20: [_merge_discovered_games_into_config] removes no key and keeps the
    order of the keys; the keys it adds come last, are pairwise different,
    not empty, lowercase process names of discovered games that had no
    entry, and the number returned is their number.  Afterwards every
    discovered game with a process name has an entry, and the file holds
    the new configuration. *)
Theorem merge_counts_new_keys (discovered : list Candidate.t) (st : app) :
  let r := _merge_discovered_games_into_config discovered st in
  exists new,
    map fst (cfg_games (cfg r.2)) = map fst (cfg_games (cfg st)) ++ new
    /\ length new = r.1
    /\ NoDup new
    /\ Forall (fun k => k <> "" /\ (k ∉ map fst (cfg_games (cfg st)))
                        /\ k ∈ map process_key discovered) new
    /\ (forall g, g ∈ discovered -> process_key g <> "" ->
                  process_key g ∈ map fst (cfg_games (cfg r.2)))
    /\ file r.2 = Parsed (cfg r.2).
Proof.
  cbv zeta. rewrite merge_config_games.
  destruct (merge_fold_keys discovered (cfg_games (cfg st)) O)
    as (new & Hkeys & Hcount & Hnd & Hnew & Hall).
  exists new. rewrite enforce_presets_keys. unfold merge_candidates.
  split; [exact Hkeys|]. split.
  - unfold _merge_discovered_games_into_config, merge_candidates.
    rewrite cfg_games_setdefault.
    destruct (fold_left merge_one discovered (cfg_games (cfg st), O)) as [gs' added].
    cbn [fst snd] in *. lia.
  - split; [exact Hnd|]. split; [exact Hnew|]. split; [exact Hall|].
    unfold _merge_discovered_games_into_config, merge_candidates.
    rewrite cfg_games_setdefault.
    destruct (fold_left merge_one discovered _) as [gs' added]. reflexivity.
Qed.

(** ** Scanning twice *)

Lemma grows_refl (gs : store) : grows gs gs.
Proof. intros k p Hp. exists p. auto. Qed.

Lemma grows_trans (a b c : store) : grows a b -> grows b c -> grows a c.
Proof.
  intros Hab Hbc k p Hp.
  destruct (Hab k p Hp) as (p1 & Hp1 & He1 & Hs1).
  destruct (Hbc k p1 Hp1) as (p2 & Hp2 & He2 & Hs2).
  exists p2. auto.
Qed.

Lemma absorbed_grows (gs gs' : store) (c : Candidate.t) :
  grows gs gs' -> absorbed gs c -> absorbed gs' c.
Proof.
  intros Hg [Hempty|(p & Hp & He & Hs)]; [left; exact Hempty|]. right.
  destruct (Hg _ p Hp) as (p' & Hp' & He' & Hs').
  exists p'. split; [exact Hp'|]. split.
  - destruct He as [He|He]; [left; apply He', He|right; exact He].
  - destruct Hs as [Hs|Hs]; [left; apply Hs', Hs|right; exact Hs].
Qed.

Lemma backfilled_truthy (c : Candidate.t) (k : string) (p p' : profile) :
  backfilled [c] k p p' ->
  (truthy_get (p !! "exe_path") = true -> truthy_get (p' !! "exe_path") = true)
  /\ (truthy_get (p !! "source") = true -> truthy_get (p' !! "source") = true).
Proof.
  intros (_ & He & Hs). split; intros Ht.
  - destruct He as [->|(Hf & _)]; congruence.
  - destruct Hs as [->|(Hf & _)]; congruence.
Qed.

Lemma merge_one_grows (c : Candidate.t) (gs : store) (n : nat) :
  grows gs (merge_one (gs, n) c).1.
Proof.
  intros k p Hp. destruct (merge_one_spec c gs n k p Hp) as (p' & Hp' & Hb).
  exists p'. split; [exact Hp'|]. eapply backfilled_truthy, Hb.
Qed.

Lemma enforce_preset_grows (key name : string) (w h : Z) (gs : store) :
  grows gs (enforce_preset key name w h gs).
Proof.
  intros k p Hp. destruct (String.eqb_spec k key) as [->|Hne].
  - destruct (enforce_preset_spec key name w h gs p Hp) as (p' & Hp' & _ & Hoth & _).
    exists p'. split; [exact Hp'|]. rewrite !Hoth by discriminate. auto.
  - exists p. rewrite enforce_preset_other by exact Hne. auto.
Qed.

Lemma enforce_presets_grows (gs : store) : grows gs (enforce_presets gs).
Proof.
  unfold enforce_presets. eapply grows_trans; apply enforce_preset_grows.
Qed.

(** After [backfill] the field is set, unless there was nothing to set it
    to. *)
Lemma backfill_fills (k field value : string) (gs : store) (p : profile) :
  games_get k gs = Some p ->
  exists p', games_get k (backfill k field value gs) = Some p'
    /\ (forall f, f <> field -> p' !! f = p !! f)
    /\ (truthy_get (p' !! field) = true \/ value = "").
Proof.
  intros Hp. unfold backfill. rewrite Hp.
  destruct (truthy_get (p !! field)) eqn:Ht; cbn [negb andb].
  - exists p. auto.
  - destruct (String.eqb_spec value "") as [->|Hv]; cbn [negb].
    + exists p. auto.
    + unfold games_set_field. rewrite Hp, games_get_set_eq.
      eexists. split; [reflexivity|]. split.
      * intros f Hf. apply lookup_insert_ne. congruence.
      * left. rewrite lookup_insert_eq. cbn [truthy_get truthy].
        destruct (String.eqb_spec value ""); [contradiction|reflexivity].
Qed.

Lemma merge_one_absorbs (c : Candidate.t) (gs : store) (n : nat) :
  absorbed (merge_one (gs, n) c).1 c.
Proof.
  unfold merge_one, absorbed. fold (process_key c).
  destruct (String.eqb_spec (process_key c) "") as [Hempty|Hkey]; [left; exact Hempty|].
  right. unfold games_mem.
  destruct (games_get (process_key c) gs) as [p|] eqn:Hp; cbn [fst].
  - destruct (backfill_fills (process_key c) "exe_path" (Candidate.exe_path c) gs p Hp)
      as (p1 & Hp1 & _ & He).
    destruct (backfill_fills (process_key c) "source" (Candidate.source c) _ p1 Hp1)
      as (p2 & Hp2 & Hoth & Hs).
    exists p2. split; [exact Hp2|]. split; [|exact Hs].
    rewrite Hoth by discriminate. exact He.
  - rewrite games_get_set_eq. eexists. split; [reflexivity|].
    assert (He : new_profile (process_key c) c !! "exe_path"
                 = Some (JStr (Candidate.exe_path c))) by reflexivity.
    assert (Hs : new_profile (process_key c) c !! "source"
                 = Some (JStr (str_or (Candidate.source c) "scan"))) by reflexivity.
    rewrite He, Hs. cbn [truthy_get truthy]. split.
    + destruct (String.eqb_spec (Candidate.exe_path c) ""); [right; assumption|left; reflexivity].
    + unfold str_or.
      destruct (String.eqb_spec (Candidate.source c) "") as [Hsrc|Hsrc]; [right; exact Hsrc|].
      left. destruct (String.eqb_spec (Candidate.source c) ""); [contradiction|reflexivity].
Qed.

Lemma merge_fold_absorbs (discovered : list Candidate.t) :
  forall (gs : store) (n : nat),
  Forall (absorbed (fold_left merge_one discovered (gs, n)).1) discovered
  /\ grows gs (fold_left merge_one discovered (gs, n)).1.
Proof.
  induction discovered as [|c rest IH]; intros gs n; cbn [fold_left].
  - split; [constructor|apply grows_refl].
  - pose proof (merge_one_absorbs c gs n) as Hc.
    pose proof (merge_one_grows c gs n) as Hg.
    destruct (merge_one (gs, n) c) as [gs1 n1]. cbn [fst] in Hc, Hg.
    destruct (IH gs1 n1) as [Hrest Hg1]. split.
    + constructor; [|exact Hrest]. eapply absorbed_grows; eassumption.
    + eapply grows_trans; eassumption.
Qed.

(** A discovered game that the store has taken in changes nothing. *)
Lemma merge_one_fixed (c : Candidate.t) (gs : store) (n : nat) :
  absorbed gs c -> merge_one (gs, n) c = (gs, n).
Proof.
  unfold merge_one, absorbed. fold (process_key c).
  intros [->|(p & Hp & He & Hs)]; [reflexivity|].
  destruct (String.eqb (process_key c) ""); [reflexivity|].
  unfold games_mem. rewrite Hp.
  assert (H1 : backfill (process_key c) "exe_path" (Candidate.exe_path c) gs = gs).
  { unfold backfill. rewrite Hp. destruct He as [->| ->]; [reflexivity|].
    rewrite andb_false_r. reflexivity. }
  rewrite H1. f_equal.
  unfold backfill. rewrite Hp. destruct Hs as [->| ->]; [reflexivity|].
  rewrite andb_false_r. reflexivity.
Qed.

Lemma merge_fold_fixed (discovered : list Candidate.t) (gs : store) (n : nat) :
  Forall (absorbed gs) discovered -> fold_left merge_one discovered (gs, n) = (gs, n).
Proof.
  induction 1 as [|c rest Hc _ IH]; cbn [fold_left]; [reflexivity|].
  rewrite merge_one_fixed by exact Hc. exact IH.
Qed.

(** X21: Merging the same scan results a second time adds no game and leaves
    the application, its configuration and the file as the first merge
    left them. *)
Theorem merge_twice_changes_nothing (discovered : list Candidate.t) (st : app) :
  let r := _merge_discovered_games_into_config discovered st in
  _merge_discovered_games_into_config discovered r.2 = (O, r.2).
Proof.
  cbv zeta.
  destruct (merge_fold_absorbs discovered (cfg_games (cfg st)) O) as [Habs _].
  unfold _merge_discovered_games_into_config at 2 3. unfold merge_candidates.
  rewrite cfg_games_setdefault.
  destruct (fold_left merge_one discovered (cfg_games (cfg st), O)) as [gs1 n1].
  cbn [fst snd] in *.
  assert (Habs' : Forall (absorbed (enforce_presets gs1)) discovered).
  { eapply Forall_impl; [exact Habs|]. intros c. apply absorbed_grows, enforce_presets_grows. }
  unfold _merge_discovered_games_into_config, merge_candidates.
  cbn [cfg with_file with_cfg]. rewrite cfg_games_setdefault, cfg_games_set_games.
  rewrite merge_fold_fixed by exact Habs'.
  rewrite enforce_presets_idempotent. reflexivity.
Qed.

(** ** Lowercase keys are kept *)

Lemma keys_lowercase_map (gs : store) :
  keys_lowercase gs <-> Forall (fun k => lower k = k) (map fst gs).
Proof. unfold keys_lowercase. rewrite Forall_fmap. reflexivity. Qed.

(** X22: A store whose keys are lowercase keeps lowercase keys through the
    merge of a scan and through a manual addition. *)
Theorem keys_stay_lowercase (discovered : list Candidate.t) (fs : filesystem)
    (path : string) (st : app) (u : ui) :
  keys_lowercase (cfg_games (cfg st)) ->
  keys_lowercase (cfg_games (cfg (_merge_discovered_games_into_config discovered st).2))
  /\ keys_lowercase (cfg_games (cfg (add_game_manually fs path st u).1)).
Proof.
  intros Hlow. apply keys_lowercase_map in Hlow.
  split; apply keys_lowercase_map.
  - rewrite merge_config_games, enforce_presets_keys. unfold merge_candidates.
    destruct (merge_fold_keys discovered (cfg_games (cfg st)) O)
      as (new & -> & _ & _ & Hnew & _).
    apply Forall_app. split; [exact Hlow|].
    eapply Forall_impl; [exact Hnew|]. intros k (_ & _ & Hk).
    apply list_elem_of_fmap in Hk as (g & -> & _). apply lower_idempotent.
  - destruct (add_game_manually_keys fs path st u) as [->|[_ ->]]; [exact Hlow|].
    apply Forall_app. split; [exact Hlow|].
    constructor; [apply lower_idempotent|constructor].
Qed.

(** ** Executables found by the scanners *)

Lemma length_append (a b : string) :
  String.length (a +:+ b) = (String.length a + String.length b)%nat.
Proof. induction a as [|c a IH]; [reflexivity|]. rewrite append_cons. cbn. rewrite IH. reflexivity. Qed.

Lemma drop_append (a b : string) (k : nat) :
  drop (String.length a + k) (a +:+ b) = drop k b.
Proof.
  induction a as [|x a IH]; [reflexivity|].
  rewrite append_cons. exact IH.
Qed.

Lemma endswith_append (a b suf : string) :
  endswith b suf = true -> endswith (a +:+ b) suf = true.
Proof.
  unfold endswith. rewrite length_append.
  destruct (Nat.leb_spec (String.length suf) (String.length b)) as [Hle|]; [|discriminate].
  intros Heq.
  destruct (Nat.leb_spec (String.length suf) (String.length a + String.length b)); [|lia].
  replace (String.length a + String.length b - String.length suf)%nat
    with (String.length a + (String.length b - String.length suf))%nat by lia.
  rewrite drop_append. exact Heq.
Qed.

Lemma join_under (a b : string) :
  exists x, Path.join a b = a +:+ x /\ (x = b \/ x = String Path.sep b).
Proof.
  unfold Path.join. destruct (last_char _) as [c|]; [|eauto].
  destruct (Path.is_sep c); eauto.
Qed.

(** A file whose name ends in [.exe], joined to a directory, is a path
    under the directory that ends in [.exe]. *)
Lemma join_exe (root f : string) :
  is_exe_name f = true ->
  exists rel, Path.join root f = root +:+ rel
              /\ endswith (lower (Path.join root f)) ".exe" = true.
Proof.
  intros Hf. destruct (join_under root f) as (x & Hj & Hx).
  exists x. split; [exact Hj|]. rewrite Hj, lower_append. apply endswith_append.
  destruct Hx as [->| ->]; [exact Hf|].
  change (String Path.sep f) with (String Path.sep "" +:+ f).
  rewrite lower_append. apply endswith_append. exact Hf.
Qed.

Lemma first_exe_file_some (root : string) (l : list node) (p : string) :
  first_exe_file root l = Some p ->
  exists f, File f ∈ l /\ is_exe_name f = true /\ p = Path.join root f.
Proof.
  induction l as [|[f|d c] l IH]; cbn [first_exe_file]; [discriminate| |].
  - destruct (is_exe_name f) eqn:Hf.
    + intros [= <-]. exists f. split; [left|]. auto.
    + intros H. destruct (IH H) as (f' & Hin & Hf' & ->).
      exists f'. split; [right; exact Hin|]. auto.
  - intros H. destruct (IH H) as (f' & Hin & Hf' & ->).
    exists f'. split; [right; exact Hin|]. auto.
Qed.

Lemma first_some_some {A B} (f : A -> option B) (l : list A) (b : B) :
  first_some f l = Some b -> exists a, In a l /\ f a = Some b.
Proof.
  induction l as [|a l IH]; cbn [first_some]; [discriminate|].
  destruct (f a) as [b'|] eqn:Hfa.
  - intros [= <-]. exists a. split; [left; reflexivity|exact Hfa].
  - intros H. destruct (IH H) as (a' & Hin & Ha'). exists a'. split; [right; exact Hin|exact Ha'].
Qed.

Lemma walk_node_under (folder : string) (limit : Z) (n : node) :
  forall parent p, walk_node folder limit parent n = Some p ->
  (exists rel, p = parent +:+ rel) /\ endswith (lower p) ".exe" = true.
Proof.
  induction n as [f|d children IH] using node_induction; intros parent p; [discriminate|].
  cbn [walk_node]. unfold visit. destruct (_ >? _); [discriminate|].
  destruct (join_under parent d) as (x & Hj & _).
  destruct (first_exe_file (Path.join parent d) children) as [q|] eqn:Hfile.
  - intros [= <-]. destruct (first_exe_file_some _ _ _ Hfile) as (f & _ & Hf & ->).
    destruct (join_exe (Path.join parent d) f Hf) as (rel & Hrel & Hends).
    split; [|exact Hends]. exists (x +:+ rel). rewrite Hrel, Hj, append_assoc. reflexivity.
  - intros H. apply first_some_some in H as (c & Hin & Hc).
    rewrite List.Forall_forall in IH. destruct (IH c Hin _ _ Hc) as [(rel & ->) Hends].
    split; [|exact Hends]. exists (x +:+ rel). rewrite Hj, append_assoc. reflexivity.
Qed.

Lemma pick_exe_ends (fs : filesystem) (folder : string) (limit : Z) (p : string) :
  _pick_exe_in_folder fs folder limit = Some p ->
  (exists rel, p = folder +:+ rel) /\ endswith (lower p) ".exe" = true.
Proof.
  unfold _pick_exe_in_folder.
  destruct (String.eqb folder ""); [discriminate|].
  destruct (dir_at fs folder) as [children|]; [|discriminate].
  intros H.
  assert (Hfile : forall q, first_exe_file folder children = Some q ->
            (exists rel, q = folder +:+ rel) /\ endswith (lower q) ".exe" = true).
  { intros q Hq. destruct (first_exe_file_some _ _ _ Hq) as (f & _ & Hf & ->).
    destruct (join_exe folder f Hf) as (rel & Hrel & Hends). eauto. }
  destruct (first_exe_file folder children) as [q|] eqn:Hq.
  - injection H as <-. apply Hfile. reflexivity.
  - unfold visit in H. destruct (_ >? _); [discriminate|]. rewrite Hq in H.
    apply first_some_some in H as (c & _ & Hc).
    eapply walk_node_under. exact Hc.
Qed.

(** X23: An executable that [_pick_exe_in_folder] returns lies under the
    folder, which is a directory and not the empty path, and its name
    ends in [.exe], in any case of the letters. *)
Theorem pick_exe_under_folder (fs : filesystem) (folder : string) (limit : Z) (p : string) :
  _pick_exe_in_folder fs folder limit = Some p ->
  folder <> "" /\ is_Some (dir_at fs folder)
  /\ (exists rel, p = folder +:+ rel)
  /\ endswith (lower p) ".exe" = true.
Proof.
  intros H. pose proof (pick_exe_ends fs folder limit p H) as [Hrel Hends].
  unfold _pick_exe_in_folder in H.
  destruct (String.eqb_spec folder "") as [|Hne]; [discriminate|].
  destruct (dir_at fs folder) as [children|]; [|discriminate].
  split; [exact Hne|]. split; [eauto|]. split; assumption.
Qed.

Lemma looks_like_exe_path_some (fs : filesystem) (s p : string) :
  _looks_like_exe_path fs s = Some p ->
  endswith (lower p) ".exe" = true /\ path_exists fs p = true.
Proof.
  unfold _looks_like_exe_path. destruct (String.eqb s ""); [discriminate|].
  cbv zeta.
  match goal with
  | |- (if (endswith (lower ?x) ".exe" && path_exists fs ?x)%bool then _ else _) = _ -> _ =>
      destruct (endswith (lower x) ".exe") eqn:He; [|discriminate];
      destruct (path_exists fs x) eqn:Hx; [|discriminate]
  end.
  intros [= <-]. auto.
Qed.

Lemma classify_source_values (hay : string) :
  In (classify_source hay) ["ubisoft"; "battlenet"; "riot"; "registry"].
Proof.
  unfold classify_source.
  destruct (contains hay "ubisoft"); [left; reflexivity|].
  destruct (contains hay "battle.net" || contains hay "blizzard")%bool;
    [right; left; reflexivity|].
  destruct (contains hay "riot"); [right; right; left; reflexivity|].
  right; right; right; left; reflexivity.
Qed.

Lemma scan_entries_spec (fs : filesystem) (entries : list Entry.t) :
  forall found : list Candidate.t,
  (length found < DISCOVERY_SCAN_LIMIT)%nat ->
  exists new,
    scan_entries fs entries found = found ++ new
    /\ (length (found ++ new) <= DISCOVERY_SCAN_LIMIT)%nat
    /\ (length new <= length entries)%nat
    /\ Forall (fun c => exe_candidate c
                        /\ Candidate.exe_path c <> ""
                        /\ In (Candidate.source c) ["ubisoft"; "battlenet"; "riot"; "registry"]
                        /\ exists e, In e entries /\ Candidate.name c = strip (Entry.name e))
              new.
Proof.
  induction entries as [|e rest IH]; intros found Hlen.
  - exists []. rewrite app_nil_r. cbn [scan_entries length].
    split; [reflexivity|]. split; [lia|]. split; [lia|constructor].
  - assert (Hskip : scan_entries fs rest found = scan_entries fs rest found ->
              exists new, scan_entries fs rest found = found ++ new
                /\ (length (found ++ new) <= DISCOVERY_SCAN_LIMIT)%nat
                /\ (length new <= length (e :: rest))%nat
                /\ Forall (fun c => exe_candidate c
                        /\ Candidate.exe_path c <> ""
                        /\ In (Candidate.source c) ["ubisoft"; "battlenet"; "riot"; "registry"]
                        /\ exists e', In e' (e :: rest)
                                      /\ Candidate.name c = strip (Entry.name e'))
                          new).
    { intros _. destruct (IH found Hlen) as (new & Heq & Hl & Hn & Hall).
      exists new. split; [exact Heq|]. split; [exact Hl|]. split; [cbn [length]; lia|].
      eapply Forall_impl; [exact Hall|]. intros c (H1 & H2 & H3 & e' & Hin & Hname).
      split; [exact H1|]. split; [exact H2|]. split; [exact H3|].
      exists e'. split; [right; exact Hin|exact Hname]. }
    cbn [scan_entries]. cbv zeta.
    destruct (negb (existsb _ keywords)); [apply Hskip; reflexivity|].
    set (exe := match match _looks_like_exe_path fs (Entry.display_icon e) with
                      | Some p => Some p
                      | None => _looks_like_exe_path fs (Entry.uninstall_string e)
                      end with
                | Some p => Some p
                | None => if String.eqb (strip (Entry.install_location e)) "" then None
                          else _pick_exe_in_folder fs (strip (Entry.install_location e)) 2
                end).
    assert (Hexe : forall p, exe = Some p -> endswith (lower p) ".exe" = true).
    { intros p. subst exe.
      destruct (_looks_like_exe_path fs (Entry.display_icon e)) as [q|] eqn:H1.
      - intros [= <-]. eapply looks_like_exe_path_some, H1.
      - destruct (_looks_like_exe_path fs (Entry.uninstall_string e)) as [q|] eqn:H2.
        + intros [= <-]. eapply looks_like_exe_path_some, H2.
        + destruct (String.eqb _ ""); [discriminate|].
          intros H. eapply pick_exe_ends, H. }
    destruct exe as [p|]; [|apply Hskip; reflexivity].
    destruct (String.eqb_spec p "") as [|Hp]; [apply Hskip; reflexivity|].
    set (c := Candidate.mk (strip (Entry.name e)) p (Path.basename p) _).
    assert (Hc : exe_candidate c /\ Candidate.exe_path c <> ""
                 /\ In (Candidate.source c) ["ubisoft"; "battlenet"; "riot"; "registry"]
                 /\ exists e', In e' (e :: rest) /\ Candidate.name c = strip (Entry.name e')).
    { split; [split; [apply Hexe; reflexivity|reflexivity]|]. split; [exact Hp|].
      split; [apply classify_source_values|]. exists e. split; [left; reflexivity|reflexivity]. }
    destruct (Nat.leb_spec DISCOVERY_SCAN_LIMIT (length (found ++ [c]))) as [Hfull|Hroom].
    + exists [c]. split; [reflexivity|].
      split; [rewrite length_app in *; cbn [length] in *; lia|].
      split; [cbn [length]; lia|]. constructor; [exact Hc|constructor].
    + destruct (IH (found ++ [c]) Hroom) as (new & Heq & Hl & Hn & Hall).
      exists (c :: new). rewrite <- app_assoc in Heq, Hl. cbn [List.app] in Heq, Hl.
      split; [exact Heq|]. split; [exact Hl|]. split; [cbn [length]; lia|].
      constructor; [exact Hc|].
      eapply Forall_impl; [exact Hall|]. intros c' (H1 & H2 & H3 & e' & Hin & Hname).
      split; [exact H1|]. split; [exact H2|]. split; [exact H3|].
      exists e'. split; [right; exact Hin|exact Hname].
Qed.

(** X24: The registry scanner returns at most [DISCOVERY_SCAN_LIMIT] games and
    at most one for each entry.  Every game has a path that is not empty
    and ends in [.exe], the file name of that path as its process, the
    stripped name of an entry as its name, and one of the four origins
    ubisoft, battlenet, riot and registry. *)
Theorem uninstall_candidates_wellformed (fs : filesystem) (entries : list Entry.t) :
  let found := discover_from_uninstall_entries fs entries in
  (length found <= DISCOVERY_SCAN_LIMIT)%nat
  /\ (length found <= length entries)%nat
  /\ Forall (fun c => exe_candidate c
                      /\ Candidate.exe_path c <> ""
                      /\ In (Candidate.source c) ["ubisoft"; "battlenet"; "riot"; "registry"]
                      /\ exists e, In e entries /\ Candidate.name c = strip (Entry.name e))
            found.
Proof.
  cbv zeta. unfold discover_from_uninstall_entries.
  destruct (scan_entries_spec fs entries []) as (new & -> & Hl & Hn & Hall).
  - unfold DISCOVERY_SCAN_LIMIT. cbn [length]. lia.
  - cbn [List.app] in *. auto.
Qed.



Lemma custom_files_spec (root : string) (l : list node) :
  forall found : list Candidate.t,
  exists new,
    custom_files root l found = found ++ new
    /\ Forall (fun c => exe_candidate c /\ Candidate.source c = "custom"
                        /\ exists rel, Candidate.exe_path c = root +:+ rel) new.
Proof.
  induction l as [|[f|d ch] l IH]; intros found; cbn [custom_files].
  - exists []. rewrite app_nil_r. split; [reflexivity|constructor].
  - destruct (is_exe_name f) eqn:Hf; [|apply IH].
    destruct (IH (found ++ [Candidate.mk (splitext_base f) (Path.join root f)
                              (Path.basename (Path.join root f)) "custom"]))
      as (new & Heq & Hall).
    eexists (_ :: new). rewrite <- app_assoc in Heq. cbn [List.app] in Heq.
    split; [exact Heq|]. constructor; [|exact Hall].
    destruct (join_exe root f Hf) as (rel & Hrel & Hends).
    split; [split; [exact Hends|reflexivity]|]. split; [reflexivity|].
    exists rel. exact Hrel.
  - apply IH.
Qed.

Lemma walk_dirs_node_under (folder : string) (limit : Z) (n : node) :
  forall parent, Forall (fun rc : string * list node => exists rel, rc.1 = parent +:+ rel)
                        (walk_dirs_node folder limit parent n).
Proof.
  induction n as [f|d children IH] using node_induction; intros parent; [constructor|].
  cbn [walk_dirs_node]. destruct (_ >? _); [constructor|].
  destruct (join_under parent d) as (x & Hj & _).
  constructor; [exists x; exact Hj|].
  apply Forall_flat_map. rewrite List.Forall_forall in IH. apply Forall_forall.
  intros c Hc. apply list_elem_of_In in Hc.
  eapply Forall_impl; [apply (IH c Hc)|].
  intros rc (rel & ->). exists (x +:+ rel). rewrite Hj, append_assoc. reflexivity.
Qed.

Lemma custom_dirs_spec (base : string) (dirs : list (string * list node)) :
  Forall (fun rc : string * list node => exists rel, rc.1 = base +:+ rel) dirs ->
  forall found : list Candidate.t,
  exists new,
    (custom_dirs dirs found).1 = found ++ new
    /\ Forall (fun c => exe_candidate c /\ Candidate.source c = "custom"
                        /\ exists rel, Candidate.exe_path c = base +:+ rel) new.
Proof.
  induction 1 as [|[root children] dirs (rel0 & Hroot) _ IH]; intros found;
    cbn [custom_dirs].
  - exists []. rewrite app_nil_r. split; [reflexivity|constructor].
  - cbn [fst] in Hroot. cbv zeta.
    destruct (custom_files_spec root children found) as (new1 & -> & Hall1).
    assert (Hall1' : Forall (fun c => exe_candidate c /\ Candidate.source c = "custom"
                        /\ exists rel, Candidate.exe_path c = base +:+ rel) new1).
    { eapply Forall_impl; [exact Hall1|]. intros c (H1 & H2 & rel & Hrel).
      split; [exact H1|]. split; [exact H2|]. exists (rel0 +:+ rel).
      rewrite Hrel, Hroot, append_assoc. reflexivity. }
    destruct (_ <=? _)%nat.
    + exists new1. split; [reflexivity|exact Hall1'].
    + destruct (IH (found ++ new1)) as (new2 & -> & Hall2).
      exists (new1 ++ new2). rewrite app_assoc. split; [reflexivity|].
      apply Forall_app. auto.
Qed.

Lemma custom_loop_spec (fs : filesystem) (paths : list string) :
  forall found : list Candidate.t,
  exists new,
    custom_loop fs paths found = found ++ new
    /\ Forall (fun c => exe_candidate c /\ Candidate.source c = "custom"
                        /\ exists base rel, In base paths /\ base <> ""
                             /\ is_Some (dir_at fs base)
                             /\ Candidate.exe_path c = base +:+ rel) new.
Proof.
  induction paths as [|base rest IH]; intros found; cbn [custom_loop].
  - exists []. rewrite app_nil_r. split; [reflexivity|constructor].
  - assert (Hskip : forall found', exists new, custom_loop fs rest found' = found' ++ new
              /\ Forall (fun c => exe_candidate c /\ Candidate.source c = "custom"
                        /\ exists base' rel, In base' (base :: rest) /\ base' <> ""
                             /\ is_Some (dir_at fs base')
                             /\ Candidate.exe_path c = base' +:+ rel) new).
    { intros found'. destruct (IH found') as (new & Heq & Hall).
      exists new. split; [exact Heq|].
      eapply Forall_impl; [exact Hall|]. intros c (H1 & H2 & b & rel & Hin & Hrest).
      split; [exact H1|]. split; [exact H2|]. exists b, rel. split; [right; exact Hin|exact Hrest]. }
    destruct (String.eqb_spec base "") as [|Hne]; [apply Hskip|].
    destruct (dir_at fs base) as [children|] eqn:Hdir; [|apply Hskip].
    assert (Hdirs : Forall (fun rc : string * list node => exists rel, rc.1 = base +:+ rel)
                      (walk_dirs base 3 children)).
    { unfold walk_dirs. destruct (_ >? _); [constructor|].
      constructor; [exists ""; cbn [fst]; rewrite append_empty_r; reflexivity|].
      apply Forall_flat_map, Forall_forall. intros c _. apply walk_dirs_node_under. }
    destruct (custom_dirs_spec base _ Hdirs found) as (new1 & Heq1 & Hall1).
    destruct (custom_dirs (walk_dirs base 3 children) found) as [found' stop].
    cbn [fst] in Heq1. subst found'.
    assert (Hall1' : Forall (fun c => exe_candidate c /\ Candidate.source c = "custom"
                        /\ exists base' rel, In base' (base :: rest) /\ base' <> ""
                             /\ is_Some (dir_at fs base')
                             /\ Candidate.exe_path c = base' +:+ rel) new1).
    { eapply Forall_impl; [exact Hall1|]. intros c (H1 & H2 & rel & Hrel).
      split; [exact H1|]. split; [exact H2|]. exists base, rel.
      split; [left; reflexivity|]. rewrite Hdir. eauto. }
    destruct stop.
    + exists new1. split; [reflexivity|exact Hall1'].
    + destruct (Hskip (found ++ new1)) as (new2 & -> & Hall2).
      exists (new1 ++ new2). rewrite app_assoc. split; [reflexivity|].
      apply Forall_app. auto.
Qed.

(** X26: Every game the scan of the custom paths returns has the origin
    custom, a path that ends in [.exe] and lies under one of the given
    paths that is not empty and is a directory, and the file name of that
    path as its process. *)
Theorem custom_candidates_wellformed (fs : filesystem) (paths : list string) :
  Forall (fun c => exe_candidate c /\ Candidate.source c = "custom"
                   /\ exists base rel, In base paths /\ base <> ""
                        /\ is_Some (dir_at fs base)
                        /\ Candidate.exe_path c = base +:+ rel)
         (discover_custom_paths fs paths).
Proof.
  unfold discover_custom_paths.
  destruct (custom_loop_spec fs paths []) as (new & -> & Hall). exact Hall.
Qed.

Lemma first_some_app {A B} (f : A -> option B) (l1 l2 : list A) :
  first_some f (l1 ++ l2)
  = match first_some f l1 with Some b => Some b | None => first_some f l2 end.
Proof.
  induction l1 as [|a l1 IH]; [reflexivity|].
  cbn [List.app first_some]. destruct (f a); [reflexivity|exact IH].
Qed.

Lemma first_some_flat_map {A B C} (g : B -> option C) (h : A -> list B) (l : list A) :
  first_some g (flat_map h l) = first_some (fun a => first_some g (h a)) l.
Proof.
  induction l as [|a l IH]; [reflexivity|].
  cbn [flat_map first_some]. rewrite first_some_app, IH. reflexivity.
Qed.

Lemma first_some_ext {A B} (f g : A -> option B) (l : list A) :
  List.Forall (fun a => f a = g a) l -> first_some f l = first_some g l.
Proof.
  induction 1 as [|a l Ha _ IH]; [reflexivity|].
  cbn [first_some]. rewrite Ha, IH. reflexivity.
Qed.

(** The first executable in the directories of the walk is the one the
    search of [_pick_exe_in_folder] comes to. *)
Lemma walk_dirs_node_first (folder : string) (limit : Z) (n : node) :
  forall parent,
  first_some (fun rc : string * list node => first_exe_file rc.1 rc.2)
    (walk_dirs_node folder limit parent n)
  = walk_node folder limit parent n.
Proof.
  induction n as [f|d children IH] using node_induction; intros parent; [reflexivity|].
  cbn [walk_dirs_node walk_node]. unfold visit.
  destruct (_ >? _); [reflexivity|].
  cbn [first_some fst snd].
  destruct (first_exe_file (Path.join parent d) children); [reflexivity|].
  rewrite first_some_flat_map. apply first_some_ext.
  eapply List.Forall_impl; [|exact IH]. intros c Hc. apply Hc.
Qed.

Lemma custom_files_first (root : string) (l : list node) :
  forall found : list Candidate.t,
  exists new,
    custom_files root l found = found ++ new
    /\ option_map Candidate.exe_path (head new) = first_exe_file root l.
Proof.
  induction l as [|[f|d ch] l IH]; intros found; cbn [custom_files first_exe_file].
  - exists []. rewrite app_nil_r. split; reflexivity.
  - destruct (is_exe_name f); [|apply IH].
    destruct (IH (found ++ [Candidate.mk (splitext_base f) (Path.join root f)
                              (Path.basename (Path.join root f)) "custom"]))
      as (new & Heq & _).
    eexists (_ :: new). rewrite <- app_assoc in Heq. cbn [List.app] in Heq.
    split; [exact Heq|reflexivity].
  - apply IH.
Qed.

Lemma custom_dirs_first (dirs : list (string * list node)) :
  forall found : list Candidate.t,
  (length found < DISCOVERY_SCAN_LIMIT)%nat ->
  exists new,
    (custom_dirs dirs found).1 = found ++ new
    /\ option_map Candidate.exe_path (head new)
       = first_some (fun rc : string * list node => first_exe_file rc.1 rc.2) dirs.
Proof.
  induction dirs as [|[root children] dirs IH]; intros found Hlen; cbn [custom_dirs first_some].
  - exists []. rewrite app_nil_r. split; reflexivity.
  - cbv zeta. cbn [fst snd].
    destruct (custom_files_first root children found) as (new1 & -> & Hhead).
    destruct new1 as [|c new1].
    + rewrite app_nil_r. cbn [head option_map] in Hhead. rewrite <- Hhead.
      destruct (Nat.leb_spec DISCOVERY_SCAN_LIMIT (length found)); [lia|].
      apply IH, Hlen.
    + cbn [head option_map] in Hhead. rewrite <- Hhead.
      destruct (Nat.leb_spec DISCOVERY_SCAN_LIMIT (length (found ++ c :: new1)))
        as [|Hroom].
      * exists (c :: new1). split; reflexivity.
      * destruct (IH (found ++ c :: new1) Hroom) as (new2 & -> & _).
        exists ((c :: new1) ++ new2). rewrite app_assoc. split; reflexivity.
Qed.

(** X27: The scan of one custom path and the search of [_pick_exe_in_folder]
    with depth limit 3 go through the folder in the same order: the first
    game the scan reports has the executable the search returns, and the
    scan reports nothing exactly when the search finds nothing. *)
Theorem custom_scan_first_is_picked (fs : filesystem) (folder : string) :
  option_map Candidate.exe_path (head (discover_custom_paths fs [folder]))
  = _pick_exe_in_folder fs folder 3.
Proof.
  unfold discover_custom_paths, _pick_exe_in_folder. cbn [custom_loop].
  destruct (String.eqb folder ""); [reflexivity|].
  destruct (dir_at fs folder) as [children|]; [|reflexivity].
  destruct (custom_dirs_first (walk_dirs folder 3 children) []) as (new & Heq & Hhead).
  { unfold DISCOVERY_SCAN_LIMIT. cbn [length]. lia. }
  destruct (custom_dirs (walk_dirs folder 3 children) []) as [found stop].
  cbn [fst List.app] in Heq. subst found.
  assert (Hres : (if stop then new else new) = new) by (destruct stop; reflexivity).
  rewrite Hres, Hhead. unfold walk_dirs, visit.
  rewrite walk_depth_self. change (0 >? 3) with false. cbn iota.
  cbn [first_some fst snd].
  destruct (first_exe_file folder children); [reflexivity|].
  rewrite first_some_flat_map. apply first_some_ext.
  apply List.Forall_forall. intros c _. apply walk_dirs_node_first.
Qed.

(** ** The registry *)

Lemma lstrip_by_head (p : ascii -> bool) (s : string) :
  lstrip_by p s = "" \/ exists a r, lstrip_by p s = String a r /\ p a = false.
Proof.
  induction s as [|c s IH]; [left; reflexivity|].
  cbn [lstrip_by]. destruct (p c) eqn:Hc; [exact IH|]. right. eauto.
Qed.

Lemma lstrip_by_last (p : ascii -> bool) (s : string) :
  lstrip_by p s <> "" -> last_char (lstrip_by p s) = last_char s.
Proof.
  induction s as [|c s IH]; [reflexivity|].
  cbn [lstrip_by]. destruct (p c); [|reflexivity].
  intros Hne. rewrite (IH Hne). symmetry. apply last_char_cons.
  intros ->. apply Hne. reflexivity.
Qed.

Lemma rev_head (s : string) (b : ascii) :
  last_char s = Some b -> exists r, rev s = String b r.
Proof.
  intros Hb. destruct (rev s) as [|x t] eqn:Hrev.
  - apply (f_equal rev) in Hrev. rewrite rev_involutive in Hrev. subst s. discriminate.
  - pose proof (last_char_rev x t) as H. rewrite <- Hrev, rev_involutive in H.
    assert (x = b) by congruence. subst x. eauto.
Qed.

(** What [strip] returns is empty, or begins and ends with characters
    that are not stripped. *)
Lemma strip_by_ends (p : ascii -> bool) (s : string) :
  strip_by p s = ""
  \/ exists a r b, strip_by p s = String a r /\ last_char (strip_by p s) = Some b
                   /\ p a = false /\ p b = false.
Proof.
  unfold strip_by.
  destruct (lstrip_by_head p s) as [->|(a & r & Hs & Ha)]; [left; reflexivity|].
  rewrite Hs.
  destruct (lstrip_by_head p (rev (String a r))) as [He|(b & t & Ht & Hb)].
  - left. rewrite He. reflexivity.
  - right. rewrite Ht.
    assert (Hlast : last_char (String b t) = Some a).
    { rewrite <- Ht. rewrite lstrip_by_last by (rewrite Ht; discriminate).
      apply last_char_rev. }
    destruct (rev_head _ _ Hlast) as (r' & Hrev).
    exists a, r', b. split; [exact Hrev|]. split; [apply last_char_rev|]. auto.
Qed.

Lemma strip_by_idempotent (p : ascii -> bool) (s : string) :
  strip_by p (strip_by p s) = strip_by p s.
Proof.
  destruct (strip_by_ends p s) as [->|(a & r & b & Hs & Hb & Ha & Hpb)]; [reflexivity|].
  apply (strip_by_fixed p _ a b); eauto.
Qed.

Lemma read_registry_string_some (reg : registry) (root : hive) (path name v : string) :
  _read_registry_string reg root path name = Some v ->
  v <> "" /\ strip v = v /\ exists raw, value reg root path name = Some raw /\ v = strip raw.
Proof.
  unfold _read_registry_string. destruct (value reg root path name) as [raw|]; [|discriminate].
  destruct (String.eqb_spec (strip raw) "") as [|Hne]; [discriminate|].
  intros [= <-]. split; [exact Hne|]. split; [apply strip_by_idempotent|eauto].
Qed.

Lemma read_or_empty_stripped (reg : registry) (root : hive) (path name : string) :
  strip (read_or_empty reg root path name) = read_or_empty reg root path name.
Proof.
  unfold read_or_empty.
  destruct (_read_registry_string reg root path name) as [v|] eqn:Hv; [|reflexivity].
  apply read_registry_string_some in Hv. tauto.
Qed.

(** X28: Every uninstall entry has a name that is not empty, and none of its
    five texts begins or ends with white space; an entry stands for a
    subkey of one of the three uninstall keys whose [DisplayName] is a
    string with something other than white space in it. *)
Theorem uninstall_entries_named (reg : registry) :
  Forall (fun e => Entry.name e <> ""
                   /\ strip (Entry.name e) = Entry.name e
                   /\ strip (Entry.publisher e) = Entry.publisher e
                   /\ strip (Entry.install_location e) = Entry.install_location e
                   /\ strip (Entry.display_icon e) = Entry.display_icon e
                   /\ strip (Entry.uninstall_string e) = Entry.uninstall_string e
                   /\ exists root base sub raw,
                        In (root, base) uninstall_roots
                        /\ In sub (_enum_subkeys reg root base)
                        /\ value reg root (base +:+ "\" +:+ sub) "DisplayName" = Some raw
                        /\ Entry.name e = strip raw)
         (_get_uninstall_entries reg).
Proof.
  unfold _get_uninstall_entries. apply Forall_flat_map, Forall_forall.
  intros [root base] Hroot. apply Forall_forall. intros e He.
  apply list_elem_of_omap in He as (sub & Hsub & He).
  unfold uninstall_entry in He. cbn [fst snd] in *. cbv zeta in He.
  destruct (_read_registry_string reg root (base +:+ "\" +:+ sub) "DisplayName")
    as [name|] eqn:Hname; [|discriminate].
  injection He as <-. cbn [Entry.name Entry.publisher Entry.install_location
                            Entry.display_icon Entry.uninstall_string].
  apply read_registry_string_some in Hname as (Hne & Hstrip & raw & Hraw & Heq).
  split; [exact Hne|]. split; [exact Hstrip|].
  rewrite !read_or_empty_stripped. do 4 (split; [reflexivity|]).
  exists root, base, sub, raw. split; [apply list_elem_of_In, Hroot|].
  split; [apply list_elem_of_In, Hsub|]. auto.
Qed.

(** X29: The Steam folder that is found is a directory, and it is the stripped
    text of one of the three registry values that are tried. *)
Theorem find_steam_root_is_directory (reg : registry) (fs : filesystem) (p : string) :
  find_steam_root reg fs = Some p ->
  is_Some (dir_at fs p)
  /\ exists root path name raw,
       In (root, path, name) steam_candidates
       /\ value reg root path name = Some raw /\ p = strip raw.
Proof.
  unfold find_steam_root. intros H.
  apply first_some_some in H as ([[root path] name] & Hin & H). cbn [fst snd] in H.
  destruct (_read_registry_string reg root path name) as [q|] eqn:Hq; [|discriminate].
  destruct (dir_at fs q) as [ch|] eqn:Hdir; [|discriminate].
  injection H as <-. split; [rewrite Hdir; eauto|].
  apply read_registry_string_some in Hq as (_ & _ & raw & Hraw & Heq).
  exists root, path, name, raw. auto.
Qed.

(** * The further properties at concrete inputs *)

Lemma save_selected_game_accepts_witness :
  exists p,
    games_get "cs2.exe"
      (cfg_games (cfg (save_selected_game (Some "cs2.exe") "1600" "900" "60"
                         (init default_config (Parsed default_config))))) = Some p
    /\ p !! "width" = Some (JInt 1600) /\ p !! "height" = Some (JInt 900)
    /\ p !! "refresh_hz" = Some (JInt 60).
Proof.
  destruct default_cs2_mode as (g & Hg & _).
  unfold lookup_profile in Hg.
  destruct (games_get "cs2.exe" (cfg_games default_config)) as [g0|] eqn:Hg0;
    [|discriminate].
  destruct (save_selected_game_accepts "cs2.exe" "1600" "900" "60" 1600 900 60
              (init default_config (Parsed default_config))
              (cfg_games default_config) g0)
    as (_ & Hp & _).
  - discriminate.
  - reflexivity.
  - exact Hg0.
  - vm_compute. reflexivity.
  - eexists. split; [exact Hp|].
    split; [|split].
    + rewrite lookup_insert_ne by discriminate.
      rewrite lookup_insert_ne by discriminate. apply lookup_insert_eq.
    + rewrite lookup_insert_ne by discriminate. apply lookup_insert_eq.
    + apply lookup_insert_eq.
Defined.

Lemma is_newer_version_trailing_zeros_witness :
  is_newer_version "1.2" "v1.2.0" = false /\ is_newer_version "v1.2.0" "1.2" = false.
Proof.
  apply (is_newer_version_trailing_zeros "1.2" "v1.2.0" [1; 2] 1); reflexivity.
Defined.

Lemma watch_loop_survives_witness :
  exists st',
    _watch_loop [∅; {["cs2.exe"]}; ∅] os_rejecting (init default_config NoFile) = (Ok tt, st')
    /\ ticks st' = 3%nat.
Proof.
  apply (watch_loop_survives [∅; {["cs2.exe"]}; ∅] os_rejecting).
  - intros t. discriminate.
  - repeat constructor; vm_compute; discriminate.
Defined.

Lemma discover_all_games_complete_witness :
  "cs2.exe" ∈ map process_key
    (discover_all_games [Candidate.mk "Counter-Strike 2" "C:\Steam\cs2.exe" "CS2.exe" "steam"]
       [] [] [] [Candidate.mk "cs2" "D:\Games\cs2.exe" "cs2.exe" "custom"]).
Proof.
  apply (discover_all_games_complete
           [Candidate.mk "Counter-Strike 2" "C:\Steam\cs2.exe" "CS2.exe" "steam"]
           [] [] [] [Candidate.mk "cs2" "D:\Games\cs2.exe" "cs2.exe" "custom"]
           (Candidate.mk "cs2" "D:\Games\cs2.exe" "cs2.exe" "custom")).
  - vm_compute. lia.
  - right. left.
  - discriminate.
Defined.

Lemma add_game_manually_new_entry_witness :
  exists g,
    cfg_games (cfg (add_game_manually (fs_with_file "D:\Games\Foo.exe") "D:\Games\Foo.exe"
                      (init default_config (Parsed default_config))
                      (mkUi "" "" "" "" ∅ ∅ [])).1)
    = cfg_games default_config ++ [("foo.exe", g)]
    /\ profile_mode g = Some (DEFAULT_WIDTH, DEFAULT_HEIGHT, Some 144)
    /\ g !! "process" = Some (JStr "Foo.exe")
    /\ g !! "exe_path" = Some (JStr "D:\Games\Foo.exe")
    /\ g !! "source" = Some (JStr "manual")
    /\ file (add_game_manually (fs_with_file "D:\Games\Foo.exe") "D:\Games\Foo.exe"
               (init default_config (Parsed default_config))
               (mkUi "" "" "" "" ∅ ∅ [])).1
       = Parsed (cfg (add_game_manually (fs_with_file "D:\Games\Foo.exe") "D:\Games\Foo.exe"
                        (init default_config (Parsed default_config))
                        (mkUi "" "" "" "" ∅ ∅ [])).1).
Proof.
  apply (add_game_manually_new_entry (fs_with_file "D:\Games\Foo.exe") "D:\Games\Foo.exe"
           (init default_config (Parsed default_config)) (mkUi "" "" "" "" ∅ ∅ []));
    reflexivity.
Defined.

Lemma keys_stay_lowercase_witness :
  keys_lowercase
    (cfg_games (cfg (_merge_discovered_games_into_config
                       [Candidate.mk "Foo" "D:\Games\Foo.exe" "Foo.exe" "custom"]
                       (init default_config NoFile)).2))
  /\ keys_lowercase
       (cfg_games (cfg (add_game_manually (fs_with_file "D:\Games\Foo.exe") "D:\Games\Foo.exe"
                          (init default_config NoFile) (mkUi "" "" "" "" ∅ ∅ [])).1)).
Proof.
  apply (keys_stay_lowercase [Candidate.mk "Foo" "D:\Games\Foo.exe" "Foo.exe" "custom"]
           (fs_with_file "D:\Games\Foo.exe") "D:\Games\Foo.exe"
           (init default_config NoFile) (mkUi "" "" "" "" ∅ ∅ [])).
  repeat constructor.
Defined.

Lemma save_after_refresh_adds_no_entry_witness :
  map fst (cfg_games (cfg (save_form (init default_config NoFile)
                             (_refresh_game_list (init default_config NoFile)
                                (mkUi "" "1600" "900" "60" ∅ ∅ [])))))
  = map fst (cfg_games default_config).
Proof.
  apply (save_after_refresh_adds_no_entry (init default_config NoFile)
           (mkUi "" "1600" "900" "60" ∅ ∅ [])).
  repeat constructor.
Defined.

Lemma pick_exe_under_folder_witness :
  "C:\G" <> "" /\ is_Some (dir_at (fs_with_scenario_at "C:\G") "C:\G")
  /\ (exists rel, "C:\G\sub\deep\deep2\game.exe" = "C:\G" +:+ rel)
  /\ endswith (lower "C:\G\sub\deep\deep2\game.exe") ".exe" = true.
Proof.
  apply (pick_exe_under_folder (fs_with_scenario_at "C:\G") "C:\G" 3). reflexivity.
Defined.

Lemma process_names_lowercase_witness : lower "cs2.exe" = "cs2.exe".
Proof.
  apply (process_names_lowercase (Some tasklist_sample) "cs2.exe").
  unfold list_running_process_names_lower.
  assert (H : omap line_name (splitlines tasklist_sample) = ["cs2.exe"])
    by (vm_compute; reflexivity).
  rewrite H. apply elem_of_list_to_set. left.
Defined.

Lemma find_steam_root_is_directory_witness :
  is_Some (dir_at fs_with_steam "C:\Steam")
  /\ exists root path name raw,
       In (root, path, name) steam_candidates
       /\ value registry_with_steam root path name = Some raw /\ "C:\Steam" = strip raw.
Proof.
  apply (find_steam_root_is_directory registry_with_steam fs_with_steam "C:\Steam").
  reflexivity.
Defined.

Lemma watch_loop_frame_witness :
  let r := _watch_loop [∅; {["cs2.exe"]}; ∅] os_accepting (init default_config NoFile) in
  cfg r.2 = default_config /\ file r.2 = NoFile /\ status_msgs r.2 = [].
Proof.
  cbv zeta.
  destruct (watch_loop_frame [∅; {["cs2.exe"]}; ∅] os_accepting (init default_config NoFile)
              (_watch_loop [∅; {["cs2.exe"]}; ∅] os_accepting (init default_config NoFile)).1
              (_watch_loop [∅; {["cs2.exe"]}; ∅] os_accepting (init default_config NoFile)).2
              (surjective_pairing _))
    as (H1 & H2 & H3 & _).
  auto.
Defined.

Lemma watch_loop_keeps_sync_witness :
  in_sync (_watch_loop [∅; {["cs2.exe"]}] os_accepting (init default_config NoFile)).2.
Proof.
  apply (watch_loop_keeps_sync [∅; {["cs2.exe"]}] os_accepting (init default_config NoFile)).
  - left. reflexivity.
  - assert (H : (_watch_loop [∅; {["cs2.exe"]}] os_accepting (init default_config NoFile)).1
                = Ok tt) by (vm_compute; reflexivity).
    destruct (_watch_loop [∅; {["cs2.exe"]}] os_accepting (init default_config NoFile))
      as [o st']. cbn [fst snd] in *. rewrite H. reflexivity.
Defined.

Lemma test_resolution_requests_witness :
  apply_calls (trace (test_resolution_7s (Some "cs2.exe") "1600" "900" "60" os_accepting
                        (init default_config NoFile)).2)
  = [(1600, 900, Some 60); baseline_call].
Proof.
  destruct (test_resolution_requests (Some "cs2.exe") "1600" "900" "60" os_accepting
              (init default_config NoFile)
              (test_resolution_7s (Some "cs2.exe") "1600" "900" "60" os_accepting
                 (init default_config NoFile)).1
              (test_resolution_7s (Some "cs2.exe") "1600" "900" "60" os_accepting
                 (init default_config NoFile)).2
              (surjective_pairing _))
    as (_ & _ & H).
  specialize (H 1600 900 60 eq_refl). exact H.
Defined.

Lemma load_then_save_keeps_config_witness :
  cfg (save_form (init default_config (Parsed default_config))
         (_load_selected_game_into_fields (init default_config (Parsed default_config))
            ui_cs2_selected))
  = default_config.
Proof.
  destruct default_cs2_mode as (g & Hg & _).
  destruct (load_then_save_keeps_config (init default_config (Parsed default_config))
              ui_cs2_selected "cs2.exe" (cfg_games default_config) g 1440 1080 144)
    as (_ & _ & _ & H & _).
  - reflexivity.
  - discriminate.
  - reflexivity.
  - exact Hg.
  - vm_compute in Hg. injection Hg as <-. reflexivity.
  - vm_compute in Hg. injection Hg as <-. reflexivity.
  - vm_compute in Hg. injection Hg as <-. reflexivity.
  - lia.
  - lia.
  - lia.
  - exact H.
Defined.
